(** * FMCSA carrier ingestion pipeline: embedding and checked properties

    The development follows the Python sources

    - [fmcsa_system/ingestion/ingestion_pipeline.py]
      ([CarrierDataNormalizer], [IngestionPipeline]),
    - [fmcsa_system/ingestion/fmcsa_client.py] ([FMCSAClient]),
    - [fmcsa_system/ingestion/initial_load.py] ([run_initial_load]),
    - [fetch_all_carriers.py] ([BulkFMCSAFetcher]).

    Python dictionaries are insertion-ordered association lists, exceptions
    are an explicit [result] type, and everything the code reaches through
    [await] (the HTTP endpoint, the database, the operator at the console) is
    an explicit argument of the function that uses it.

    Text is [String.string], one [ascii] per character, read as the code
    points below 256.  Raw records hold the JSON scalars [None], booleans,
    integers and strings; floating-point numbers and nested containers are
    outside the model. *)

From Stdlib Require Import ZArith NArith List String Ascii Bool Lia QArith.
From Stdlib Require Import DecimalString DecimalZ DecimalPos DecimalFacts.
Import ListNotations.

Local Open Scope string_scope.
Local Open Scope list_scope.
Local Open Scope Z_scope.

(** ** Python values, exceptions and built-ins *)

Module Py.

(** The exception classes the modelled code can raise or catch. *)
Inductive exn : Type :=
| ValueError (msg : string)
| TypeError (msg : string)
| IndexError (msg : string)
| InvalidOperation                 (* decimal.InvalidOperation, an ArithmeticError *)
| TimeoutException                 (* httpx.TimeoutException *)
| HTTPStatusError (status : Z)     (* httpx.HTTPStatusError *)
| PostgresError (sqlstate : string)
| Exception (msg : string).

Inductive result (A : Type) : Type :=
| Ok (a : A)
| Raise (e : exn).
Arguments Ok {A} a.
Arguments Raise {A} e.

Definition bind {A B} (m : result A) (k : A -> result B) : result B :=
  match m with
  | Ok a => k a
  | Raise e => Raise e
  end.

Definition is_ok {A} (m : result A) : bool :=
  match m with Ok _ => true | Raise _ => false end.

(** [except (ValueError, TypeError)] *)
Definition is_value_or_type_error (e : exn) : bool :=
  match e with
  | ValueError _ | TypeError _ => true
  | _ => false
  end.

(** A raw JSON scalar: [None], a boolean, an integer or text (of Latin-1
    characters).  Numbers with a fraction or an exponent, arrays and
    objects are left out; the properties that depend on it say so. *)
Inductive value : Type :=
| VNone
| VBool (b : bool)
| VInt (z : Z)
| VStr (s : string).

(** Truth value of an object, as tested by [if value] and [not value]. *)
Definition truthy (v : value) : bool :=
  match v with
  | VNone => false
  | VBool b => b
  | VInt z => negb (z =? 0)
  | VStr s => negb (s =? "")%string
  end.

(** *** Dictionaries: insertion-ordered, one entry per key *)

Definition dict (V : Type) : Type := list (string * V).

Fixpoint dict_get {V} (d : dict V) (k : string) : option V :=
  match d with
  | [] => None
  | (k', v) :: d' => if (k' =? k)%string then Some v else dict_get d' k
  end.

Definition dict_mem {V} (d : dict V) (k : string) : bool :=
  match dict_get d k with Some _ => true | None => false end.

(** [d[k] = v]: the value is replaced in place when the key exists, the
    entry is appended otherwise. *)
Fixpoint dict_set {V} (d : dict V) (k : string) (v : V) : dict V :=
  match d with
  | [] => [(k, v)]
  | (k', v') :: d' =>
      if (k' =? k)%string then (k', v) :: d' else (k', v') :: dict_set d' k v
  end.

Definition keys {V} (d : dict V) : list string := map fst d.

(** *** [str] methods *)

Definition code (c : ascii) : N := N_of_ascii c.

Definition between (lo hi n : N) : bool := ((lo <=? n) && (n <=? hi))%N.

(** [str.isspace] on one character; also the class [\s] of [re]. *)
Definition isspace (c : ascii) : bool :=
  let n := code c in
  between 9 13 n || between 28 32 n || (n =? 133)%N || (n =? 160)%N.

(** The class [\d] of [re]. *)
Definition isdigit (c : ascii) : bool := between 48 57 (code c).

Fixpoint lstrip (s : string) : string :=
  match s with
  | String c s' => if isspace c then lstrip s' else s
  | EmptyString => EmptyString
  end.

Fixpoint rstrip (s : string) : string :=
  match s with
  | EmptyString => EmptyString
  | String c s' =>
      match rstrip s' with
      | EmptyString => if isspace c then EmptyString else String c EmptyString
      | t => String c t
      end
  end.

Definition strip (s : string) : string := rstrip (lstrip s).

(** [str.upper] on one character.  The capital of sharp s is "SS"; the
    capitals of the micro sign and of y with diaeresis lie above code point
    255 and the two characters are kept: every use of [upper] below
    compares the result with ASCII text only. *)
Definition upper_char (c : ascii) : string :=
  let n := code c in
  if between 97 122 n then String (ascii_of_N (n - 32)) ""
  else if (n =? 223)%N then "SS"
  else if between 224 254 n && negb (n =? 247)%N
       then String (ascii_of_N (n - 32)) ""
  else String c "".

Fixpoint upper (s : string) : string :=
  match s with
  | EmptyString => EmptyString
  | String c s' => upper_char c ++ upper s'
  end.

Definition lower_char (c : ascii) : ascii :=
  let n := code c in
  if between 65 90 n then ascii_of_N (n + 32)
  else if between 192 222 n && negb (n =? 215)%N then ascii_of_N (n + 32)
  else c.

Fixpoint lower (s : string) : string :=
  match s with
  | EmptyString => EmptyString
  | String c s' => String (lower_char c) (lower s')
  end.

(** [s[:n]] *)
Fixpoint take (n : nat) (s : string) : string :=
  match n, s with
  | S n', String c s' => String c (take n' s')
  | _, _ => EmptyString
  end.

(** [c in s] for a single character [c]. *)
Fixpoint contains (c : ascii) (s : string) : bool :=
  match s with
  | EmptyString => false
  | String c' s' => (c' =? c)%char || contains c s'
  end.

Fixpoint filter_chars (keep : ascii -> bool) (s : string) : string :=
  match s with
  | EmptyString => EmptyString
  | String c s' =>
      if keep c then String c (filter_chars keep s') else filter_chars keep s'
  end.

Fixpoint all_chars (p : ascii -> bool) (s : string) : bool :=
  match s with
  | EmptyString => true
  | String c s' => p c && all_chars p s'
  end.

(** [x in [s1, s2, ...]] *)
Definition str_in (x : string) (l : list string) : bool :=
  existsb (fun y => (x =? y)%string) l.

(** [s.endswith(suffix)] *)
Fixpoint endswith (s suffix : string) : bool :=
  (s =? suffix)%string ||
  match s with
  | EmptyString => false
  | String _ s' => endswith s' suffix
  end.

(** [s.split()]: the maximal runs of characters that are not white space. *)
Fixpoint split_ws (s : string) (word : string) : list string :=
  match s with
  | EmptyString => if (word =? "")%string then [] else [word]
  | String c s' =>
      if isspace c
      then (if (word =? "")%string then split_ws s' "" else word :: split_ws s' "")
      else split_ws s' (word ++ String c "")
  end.

Definition split (s : string) : list string := split_ws s "".

(** *** Integers and their text *)

Definition digit_val (c : ascii) : option Z :=
  if isdigit c then Some (Z.of_N (code c) - 48) else None.

(** The digits of an integer literal: digits, single underscores allowed
    between two digits. *)
Fixpoint int_digits (s : string) (acc : Z) (after_digit : bool) : option Z :=
  match s with
  | EmptyString => if after_digit then Some acc else None
  | String c s' =>
      match digit_val c with
      | Some d => int_digits s' (10 * acc + d) true
      | None =>
          if (c =? "_")%char && after_digit then int_digits s' acc false
          else None
      end
  end.

(** The white space [int] skips at both ends of its text: the ASCII
    white space, NEL and the no-break space, but not the separators
    U+001C to U+001F that [str.strip] removes. *)
Definition int_space (c : ascii) : bool :=
  let n := code c in
  between 9 13 n || (n =? 32)%N || (n =? 133)%N || (n =? 160)%N.

Fixpoint lstrip_chars (p : ascii -> bool) (s : string) : string :=
  match s with
  | EmptyString => EmptyString
  | String c s' => if p c then lstrip_chars p s' else s
  end.

Fixpoint rstrip_chars (p : ascii -> bool) (s : string) : string :=
  match s with
  | EmptyString => EmptyString
  | String c s' =>
      match rstrip_chars p s' with
      | EmptyString => if p c then EmptyString else String c EmptyString
      | r => String c r
      end
  end.

(** [sys.get_int_max_str_digits()], at its default: the longest integer,
    in digits, that converts from or to text. *)
Definition int_max_str_digits : Z := 4300.

(** An integer that converts to text: [str], an f-string and [json.dumps]
    raise [ValueError] on any other. *)
Definition printable (z : Z) : bool := Z.abs z <? 10 ^ int_max_str_digits.

(** [int(s)] for a string, base ten; [None] stands for [ValueError], also
    raised for a literal of more digits than the cap, leading zeros
    counted. *)
Definition int_of_str (s : string) : option Z :=
  let s := rstrip_chars int_space (lstrip_chars int_space s) in
  let literal :=
    match s with
    | String "-" r => r
    | String "+" r => r
    | r => r
    end in
  if int_max_str_digits <? Z.of_nat (String.length (filter_chars isdigit literal))
  then None
  else
    match s with
    | String "-" _ => option_map Z.opp (int_digits literal 0 false)
    | _ => int_digits literal 0 false
    end.

(** [int(v)]: booleans count as 0 and 1. *)
Definition int (v : value) : result Z :=
  match v with
  | VStr s =>
      match int_of_str s with
      | Some z => Ok z
      | None => Raise (ValueError "invalid literal for int() with base 10")
      end
  | VInt z => Ok z
  | VBool b => Ok (if b then 1 else 0)
  | VNone => Raise (TypeError "int() argument must be a string or a real number")
  end.

(** [try: body / except (ValueError, TypeError): handler] *)
Definition except_value_or_type {A} (body handler : result A) : result A :=
  match body with
  | Ok a => Ok a
  | Raise e => if is_value_or_type_error e then handler else Raise e
  end.

(** [str(z)] for a [printable] integer, the only ones a parsed reply
    holds: [json.loads] raises on a longer literal, as [int] does. *)
Definition str_of_int (z : Z) : string :=
  NilZero.string_of_int (Z.to_int z).

(** [str(v)] *)
Definition str (v : value) : string :=
  match v with
  | VNone => "None"
  | VBool true => "True"
  | VBool false => "False"
  | VInt z => str_of_int z
  | VStr s => s
  end.

End Py.
Export Py.

Notation "x <- m ;; k" := (Py.bind m (fun x => k))
  (at level 61, m at next level, right associativity).

(** ** [decimal.Decimal] built from text or from an integer *)

Module PyDecimal.

Inductive decimal : Type :=
| Finite (negative : bool) (coefficient : N) (exponent : Z)
| Infinity (negative : bool)
| NaN (negative : bool) (signaling : bool) (payload : N).

(** The longest prefix of digits, and what follows it. *)
Fixpoint span_digits (s : string) : string * string :=
  match s with
  | String c s' =>
      if isdigit c
      then let (d, r) := span_digits s' in (String c d, r)
      else (EmptyString, s)
  | EmptyString => (EmptyString, EmptyString)
  end.

Fixpoint digits_value (s : string) (acc : N) : N :=
  match s with
  | String c s' => digits_value s' (10 * acc + (code c - 48))%N
  | EmptyString => acc
  end.

(** The exponent part after the letter E: an optional sign and at least
    one digit, up to the end of the text. *)
Definition exponent_of (s : string) : option Z :=
  let (neg, digits) :=
    match s with
    | String "-" r => (true, r)
    | String "+" r => (false, r)
    | _ => (false, s)
    end in
  if negb (digits =? "")%string && all_chars isdigit digits
  then Some (let e := Z.of_N (digits_value digits 0) in if neg then - e else e)
  else None.

(** The bounds of the module: [MAX_EMAX], [MIN_ETINY], [MAX_PREC]. *)
Definition MAX_EMAX : Z := 999999999999999999.
Definition MIN_ETINY : Z := -1999999999999999997.
Definition MAX_PREC : Z := 999999999999999999.

Fixpoint drop_zeros (s : string) : string :=
  match s with
  | String "0" s' => drop_zeros s'
  | _ => s
  end.

(** The number of digits of the coefficient written as [digits]: one for
    zero. *)
Definition coefficient_digits (digits : string) : Z :=
  Z.max 1 (Z.of_nat (String.length (drop_zeros digits))).

(** The exact conversion of a numeric string is rounded to the maximum
    context; a value that does not fit it signals [InvalidOperation]. *)
Definition representable (coefficient : N) (digits exponent : Z) : bool :=
  (digits <=? MAX_PREC) &&
  (MIN_ETINY <=? exponent) &&
  (if (coefficient =? 0)%N then exponent <=? MAX_EMAX
   else exponent + digits - 1 <=? MAX_EMAX).

(** The numeric-string grammar of the module, matched without regard to
    case on the text with surrounding white space and all underscores
    removed: a sign, then digits with an optional fraction and exponent, or
    Inf / Infinity, or NaN / sNaN with diagnostic digits; [None] stands for
    [InvalidOperation]. *)
Definition of_str (text : string) : option decimal :=
  let s := filter_chars (fun c => negb (c =? "_")%char) (strip text) in
  let (neg, s) :=
    match s with
    | String "-" r => (true, r)
    | String "+" r => (false, r)
    | _ => (false, s)
    end in
  let s := lower s in
  if (s =? "inf")%string || (s =? "infinity")%string then Some (Infinity neg)
  else
    match s with
    | String "n" (String "a" (String "n" diag)) =>
        if all_chars isdigit diag
        then Some (NaN neg false (digits_value diag 0)) else None
    | String "s" (String "n" (String "a" (String "n" diag))) =>
        if all_chars isdigit diag
        then Some (NaN neg true (digits_value diag 0)) else None
    | _ =>
        let (intpart, r1) := span_digits s in
        let (fracpart, r2) :=
          match r1 with
          | String "." r => span_digits r
          | _ => (EmptyString, r1)
          end in
        if (intpart =? "")%string && (fracpart =? "")%string then None
        else
          let coefficient := digits_value (intpart ++ fracpart) 0 in
          let digits := coefficient_digits (intpart ++ fracpart) in
          let scale := Z.of_nat (String.length fracpart) in
          let finite (exponent : Z) :=
            if representable coefficient digits exponent
            then Some (Finite neg coefficient exponent) else None in
          match r2 with
          | EmptyString => finite (- scale)
          | String "e" r3 =>
              match exponent_of r3 with
              | Some e => finite (e - scale)
              | None => None
              end
          | _ => None
          end
    end.

Definition of_int (z : Z) : decimal :=
  Finite (z <? 0) (Z.abs_N z) 0.

(** [Decimal(v)]: text the grammar rejects raises [InvalidOperation]; an
    integer converts exactly, a boolean as 0 or 1. *)
Definition Decimal (v : value) : result decimal :=
  match v with
  | VStr s =>
      match of_str s with
      | Some d => Ok d
      | None => Raise InvalidOperation
      end
  | VInt z => Ok (of_int z)
  | VBool b => Ok (of_int (if b then 1 else 0))
  | VNone => Raise (TypeError "conversion from NoneType to Decimal is not supported")
  end.

End PyDecimal.

(** ** [datetime.strptime] for the formats the normalizer tries *)

Module PyDatetime.

Inductive date : Type := Date (year month day : Z).

(** A format is a sequence of directives and literal characters. *)
Inductive directive : Type := dY | dm | dd | dH | dM | dS | df.

Inductive item : Type :=
| Dir (d : directive)
| Lit (c : ascii).

(** The fields a match binds. *)
Record fields : Type := mkFields {
  f_year : Z; f_month : Z; f_day : Z;
  f_hour : Z; f_minute : Z; f_second : Z }.

Definition no_fields : fields := mkFields 1900 1 1 0 0 0.

Definition set_field (d : directive) (v : Z) (f : fields) : fields :=
  match d with
  | dY => mkFields v (f_month f) (f_day f) (f_hour f) (f_minute f) (f_second f)
  | dm => mkFields (f_year f) v (f_day f) (f_hour f) (f_minute f) (f_second f)
  | dd => mkFields (f_year f) (f_month f) v (f_hour f) (f_minute f) (f_second f)
  | dH => mkFields (f_year f) (f_month f) (f_day f) v (f_minute f) (f_second f)
  | dM => mkFields (f_year f) (f_month f) (f_day f) (f_hour f) v (f_second f)
  | dS => mkFields (f_year f) (f_month f) (f_day f) (f_hour f) (f_minute f) v
  | df => f
  end.

(** One alternative of a directive's regular expression: a list of
    character classes, one per character. *)
Definition cls : Type := ascii -> bool.

Definition range (lo hi : ascii) : cls :=
  fun c => between (code lo) (code hi) (code c).

Definition only (a : ascii) : cls := fun c => (c =? a)%char.

Definition digit : cls := isdigit.

(** Match the classes against the start of the text; the matched digits
    give the value (a space counts for nothing). *)
Fixpoint match_classes (cs : list cls) (s : string) (acc : Z)
  : option (Z * string) :=
  match cs with
  | [] => Some (acc, s)
  | p :: cs' =>
      match s with
      | String c s' =>
          if p c
          then match_classes cs' s'
                 (match digit_val c with Some d => 10 * acc + d | None => acc end)
          else None
      | EmptyString => None
      end
  end.

(** The alternatives of each directive, in the order the regular
    expression lists them. *)
Definition alternatives (d : directive) : list (list cls) :=
  match d with
  | dY => [[digit; digit; digit; digit]]
  | dm => [[only "1"; range "0" "2"]; [only "0"; range "1" "9"]; [range "1" "9"]]
  | dd => [[only "3"; range "0" "1"]; [range "1" "2"; digit];
           [only "0"; range "1" "9"]; [range "1" "9"]; [only " "; range "1" "9"]]
  | dH => [[only "2"; range "0" "3"]; [range "0" "1"; digit]; [digit]]
  | dM => [[range "0" "5"; digit]; [digit]]
  | dS => [[only "6"; range "0" "1"]; [range "0" "5"; digit]; [digit]]
  | df => [[digit; digit; digit; digit; digit; digit];
           [digit; digit; digit; digit; digit];
           [digit; digit; digit; digit];
           [digit; digit; digit];
           [digit; digit];
           [digit]]
  end.

(** The first way, in the order a backtracking matcher explores them, to
    match the whole format against a prefix of the text.  Literal
    characters match without regard to case. *)
Fixpoint match_format (fmt : list item) (s : string) (f : fields)
  : option (fields * string) :=
  match fmt with
  | [] => Some (f, s)
  | Lit a :: fmt' =>
      match s with
      | String c s' =>
          if (lower_char c =? lower_char a)%char then match_format fmt' s' f
          else None
      | EmptyString => None
      end
  | Dir d :: fmt' =>
      (fix try (alts : list (list cls)) : option (fields * string) :=
         match alts with
         | [] => None
         | cs :: alts' =>
             match match_classes cs s 0 with
             | Some (v, s') =>
                 match match_format fmt' s' (set_field d v f) with
                 | Some r => Some r
                 | None => try alts'
                 end
             | None => try alts'
             end
         end) (alternatives d)
  end.

Definition is_leap (y : Z) : bool :=
  ((y mod 4 =? 0) && negb (y mod 100 =? 0)) || (y mod 400 =? 0).

Definition days_in_month (y m : Z) : Z :=
  if m =? 2 then (if is_leap y then 29 else 28)
  else if (m =? 4) || (m =? 6) || (m =? 9) || (m =? 11) then 30
  else 31.

(** The checks of the [datetime] constructor. *)
Definition valid (f : fields) : bool :=
  (1 <=? f_year f) && (f_year f <=? 9999) &&
  (1 <=? f_month f) && (f_month f <=? 12) &&
  (1 <=? f_day f) && (f_day f <=? days_in_month (f_year f) (f_month f)) &&
  (0 <=? f_hour f) && (f_hour f <=? 23) &&
  (0 <=? f_minute f) && (f_minute f <=? 59) &&
  (0 <=? f_second f) && (f_second f <=? 59).

(** [datetime.strptime(text, fmt).date()]; [None] stands for the
    [ValueError] raised when the text does not match, when text remains
    after the match, or when the fields are not a date and time. *)
Definition strptime_date (text : string) (fmt : list item) : option date :=
  match match_format fmt text no_fields with
  | Some (f, EmptyString) =>
      if valid f then Some (Date (f_year f) (f_month f) (f_day f)) else None
  | _ => None
  end.

Definition ymd : list item := [Dir dY; Lit "-"; Dir dm; Lit "-"; Dir dd].
Definition hms : list item := [Dir dH; Lit ":"; Dir dM; Lit ":"; Dir dS].

(** '%Y-%m-%dT%H:%M:%S.%f' *)
Definition fmt_iso_micro : list item := ymd ++ [Lit "T"] ++ hms ++ [Lit "."; Dir df].
(** '%Y-%m-%dT%H:%M:%S' *)
Definition fmt_iso : list item := ymd ++ [Lit "T"] ++ hms.
(** '%Y-%m-%d' *)
Definition fmt_ymd : list item := ymd.
(** '%m/%d/%Y' *)
Definition fmt_mdy_slash : list item := [Dir dm; Lit "/"; Dir dd; Lit "/"; Dir dY].
(** '%m-%d-%Y' *)
Definition fmt_mdy_dash : list item := [Dir dm; Lit "-"; Dir dd; Lit "-"; Dir dY].

End PyDatetime.

(** ** [json.dumps] and [json.loads] on flat records *)

Module Json.

(** A raw record: the dictionary the endpoint returns for one carrier. *)
Definition RawRecord : Type := dict value.

Definition quote : ascii := ascii_of_N 34.
Definition backslash : ascii := ascii_of_N 92.

(** A backslash followed by the given text. *)
Definition esc (s : string) : string := String backslash s.

Definition hex_digit (n : N) : ascii :=
  if (n <? 10)%N then ascii_of_N (48 + n) else ascii_of_N (87 + n).

(** The replacement of one character under [ensure_ascii]: the short
    escapes, and [u00XX] after a backslash for everything else outside
    space..tilde. *)
Definition encode_char (c : ascii) : string :=
  let n := code c in
  if (n =? 34)%N then esc (String quote "")
  else if (n =? 92)%N then esc (String backslash "")
  else if (n =? 10)%N then esc "n"
  else if (n =? 13)%N then esc "r"
  else if (n =? 9)%N then esc "t"
  else if (n =? 12)%N then esc "f"
  else if (n =? 8)%N then esc "b"
  else if between 32 126 n then String c ""
  else esc ("u00" ++ String (hex_digit (n / 16)) (String (hex_digit (n mod 16)) "")).

Fixpoint encode_chars (s : string) : string :=
  match s with
  | EmptyString => EmptyString
  | String c s' => encode_char c ++ encode_chars s'
  end.

Definition encode_string (s : string) : string :=
  String quote (encode_chars s ++ String quote "").

Definition encode_value (v : value) : string :=
  match v with
  | VNone => "null"
  | VBool true => "true"
  | VBool false => "false"
  | VInt z => str_of_int z
  | VStr s => encode_string s
  end.

Definition encode_member (kv : string * value) : string :=
  encode_string (fst kv) ++ ": " ++ encode_value (snd kv).

Fixpoint encode_members (d : RawRecord) : string :=
  match d with
  | [] => ""
  | [kv] => encode_member kv
  | kv :: d' => encode_member kv ++ ", " ++ encode_members d'
  end.

(** [json.dumps(record)] with the default separators. *)
Definition dumps (d : RawRecord) : string :=
  "{" ++ encode_members d ++ "}".

(** *** Decoding *)

Definition hex_val (c : ascii) : option N :=
  let n := code c in
  if between 48 57 n then Some (n - 48)%N
  else if between 97 102 n then Some (n - 87)%N
  else if between 65 70 n then Some (n - 55)%N
  else None.

Definition hex4 (a b c d : ascii) : option N :=
  match hex_val a, hex_val b, hex_val c, hex_val d with
  | Some x, Some y, Some z, Some w => Some (((x * 16 + y) * 16 + z) * 16 + w)%N
  | _, _, _, _ => None
  end.

(** The character a short escape stands for. *)
Definition unescape (e : ascii) : option ascii :=
  let n := code e in
  if (n =? 34)%N || (n =? 92)%N || (n =? 47)%N then Some e
  else if (e =? "b")%char then Some (ascii_of_N 8)
  else if (e =? "f")%char then Some (ascii_of_N 12)
  else if (e =? "n")%char then Some (ascii_of_N 10)
  else if (e =? "r")%char then Some (ascii_of_N 13)
  else if (e =? "t")%char then Some (ascii_of_N 9)
  else None.

Definition prepend (c : ascii) (r : option (string * string))
  : option (string * string) :=
  match r with
  | Some (s, rest) => Some (String c s, rest)
  | None => None
  end.

(** The scanner for a string, started after the opening quote: the decoded
    text and what follows the closing quote.  Control characters must be
    escaped; a u-escape above code point 255 is outside the model. *)
Fixpoint scan_string (s : string) : option (string * string) :=
  match s with
  | EmptyString => None
  | String c s1 =>
      if (c =? quote)%char then Some (EmptyString, s1)
      else if (c =? backslash)%char then
        match s1 with
        | String e s2 =>
            if (e =? "u")%char then
              match s2 with
              | String h1 (String h2 (String h3 (String h4 s3))) =>
                  match hex4 h1 h2 h3 h4 with
                  | Some n =>
                      if (n <? 256)%N then prepend (ascii_of_N n) (scan_string s3)
                      else None
                  | None => None
                  end
              | _ => None
              end
            else
              match unescape e with
              | Some c' => prepend c' (scan_string s2)
              | None => None
              end
        | EmptyString => None
        end
      else if (code c <? 32)%N then None
      else prepend c (scan_string s1)
  end.

Definition is_json_space (c : ascii) : bool :=
  let n := code c in
  (n =? 32)%N || (n =? 9)%N || (n =? 10)%N || (n =? 13)%N.

Fixpoint skip_ws (s : string) : string :=
  match s with
  | String c s' => if is_json_space c then skip_ws s' else s
  | EmptyString => EmptyString
  end.

Definition digit_of_char (c : ascii) : option (Decimal.uint -> Decimal.uint) :=
  match (code c - 48)%N with
  | 0%N => if (code c =? 48)%N then Some Decimal.D0 else None
  | 1%N => Some Decimal.D1
  | 2%N => Some Decimal.D2
  | 3%N => Some Decimal.D3
  | 4%N => Some Decimal.D4
  | 5%N => Some Decimal.D5
  | 6%N => Some Decimal.D6
  | 7%N => Some Decimal.D7
  | 8%N => Some Decimal.D8
  | 9%N => Some Decimal.D9
  | _ => None
  end.

(** The longest run of digits, as a decimal numeral, and what follows. *)
Fixpoint scan_digits (s : string) : Decimal.uint * string :=
  match s with
  | String c s' =>
      match digit_of_char c with
      | Some d => let (u, rest) := scan_digits s' in (d u, rest)
      | None => (Decimal.Nil, s)
      end
  | EmptyString => (Decimal.Nil, EmptyString)
  end.

(** An integer: digits without a leading zero unless the numeral is 0.  A
    fraction or an exponent makes the number a float, outside the model. *)
Definition scan_unsigned (s : string) : option (Decimal.uint * string) :=
  let (u, rest) := scan_digits s in
  let after_ok :=
    match rest with
    | String c _ => negb ((c =? ".")%char || (c =? "e")%char || (c =? "E")%char)
    | EmptyString => true
    end in
  match u with
  | Decimal.Nil => None
  | Decimal.D0 Decimal.Nil => if after_ok then Some (u, rest) else None
  | Decimal.D0 _ => None
  | _ => if after_ok then Some (u, rest) else None
  end.

Fixpoint drop_prefix (p s : string) : option string :=
  match p, s with
  | EmptyString, _ => Some s
  | String a p', String b s' => if (a =? b)%char then drop_prefix p' s' else None
  | String _ _, EmptyString => None
  end.

Definition scan_literal (lit : string) (v : value) (s : string)
  : option (value * string) :=
  option_map (fun rest => (v, rest)) (drop_prefix lit s).

(** One scalar value and what follows it. *)
Definition scan_value (s : string) : option (value * string) :=
  match s with
  | String c s' =>
      if (c =? quote)%char then
        option_map (fun r => (VStr (fst r), snd r)) (scan_string s')
      else if (c =? "n")%char then scan_literal "null" VNone s
      else if (c =? "t")%char then scan_literal "true" (VBool true) s
      else if (c =? "f")%char then scan_literal "false" (VBool false) s
      else if (c =? "-")%char then
        option_map (fun r => (VInt (Z.of_int (Decimal.Neg (fst r))), snd r))
                   (scan_unsigned s')
      else
        option_map (fun r => (VInt (Z.of_int (Decimal.Pos (fst r))), snd r))
                   (scan_unsigned s)
  | EmptyString => None
  end.

(** The members of an object from the opening quote of a key on, entered
    into the dictionary in order: a repeated key keeps its place and takes
    the later value.  The text after the closing brace is returned. *)
Fixpoint scan_members (fuel : nat) (s : string) (acc : RawRecord)
  : option (RawRecord * string) :=
  match fuel with
  | O => None
  | S fuel' =>
      match s with
      | String q s1 =>
          if (q =? quote)%char then
            match scan_string s1 with
            | Some (key, s2) =>
                match skip_ws s2 with
                | String ":" s3 =>
                    match scan_value (skip_ws s3) with
                    | Some (v, s4) =>
                        let acc' := dict_set acc key v in
                        match skip_ws s4 with
                        | String "}" s5 => Some (acc', s5)
                        | String "," s5 => scan_members fuel' (skip_ws s5) acc'
                        | _ => None
                        end
                    | None => None
                    end
                | _ => None
                end
            | None => None
            end
          else None
      | EmptyString => None
      end
  end.

(** [json.loads(text)] for the text of a flat record; [None] stands for a
    decoding error or a document outside the model. *)
Definition loads (text : string) : option RawRecord :=
  match skip_ws text with
  | String "{" s1 =>
      let body := skip_ws s1 in
      let members :=
        match body with
        | String "}" s2 => Some ([], s2)
        | _ => scan_members (String.length text) body []
        end in
      match members with
      | Some (d, rest) =>
          match skip_ws rest with
          | EmptyString => Some d
          | _ => None
          end
      | None => None
      end
  | _ => None
  end.

End Json.

(** ** [CarrierDataNormalizer] *)

Module CarrierDataNormalizer.
Import Json.

(** A value of a normalized record. *)
Inductive cvalue : Type :=
| CNone
| CBool (b : bool)
| CInt (z : Z)
| CStr (s : string)
| CDecimal (d : PyDecimal.decimal)
| CDate (d : PyDatetime.date)
| CList (l : list string).

Definition CanonicalRecord : Type := dict cvalue.

Definition ctruthy (v : cvalue) : bool :=
  match v with
  | CNone => false
  | CBool b => b
  | CInt z => negb (z =? 0)
  | CStr s => negb (s =? "")%string
  | CDecimal (PyDecimal.Finite _ c _) => negb (c =? 0)%N
  | CDecimal _ => true
  | CDate _ => true
  | CList l => match l with [] => false | _ => true end
  end.

(** Field mapping from the endpoint's names to the database columns. *)
Definition FIELD_MAPPING : list (string * string) :=
  [ ("usdot_number", "usdot_number");
    ("legal_name", "legal_name");
    ("dba_name", "dba_name");
    ("phy_street", "physical_address");
    ("phy_city", "physical_city");
    ("phy_state", "physical_state");
    ("phy_zip", "physical_zip");
    ("phy_country", "physical_country");
    ("mailing_street", "mailing_address");
    ("mailing_city", "mailing_city");
    ("mailing_state", "mailing_state");
    ("mailing_zip", "mailing_zip");
    ("telephone", "telephone");
    ("fax", "fax");
    ("email_address", "email");
    ("mcs_150_date", "mcs_150_date");
    ("mcs_150_mileage_year", "mcs_150_mileage");
    ("entity_type", "entity_type");
    ("operating_status", "operating_status");
    ("out_of_service_date", "out_of_service_date");
    ("power_units", "power_units");
    ("drivers", "drivers");
    ("carrier_operation", "carrier_operation");
    ("hazmat_flag", "hazmat_flag");
    ("pc_flag", "hazmat_placardable");
    ("safety_rating", "safety_rating");
    ("safety_rating_date", "safety_rating_date");
    ("safety_review_date", "safety_review_date");
    ("liability_required_amount", "liability_insurance_amount");
    ("liability_insurance_on_file_date", "liability_insurance_date");
    ("cargo_required_amount", "cargo_insurance_amount");
    ("cargo_insurance_on_file_date", "cargo_insurance_date");
    ("bond_insurance_required_amount", "bond_insurance_amount");
    ("bond_insurance_on_file_date", "bond_insurance_date") ].

Definition integer_fields : list string :=
  ["usdot_number"; "power_units"; "drivers"; "mcs_150_mileage"].

Definition decimal_fields : list string :=
  ["liability_insurance_amount"; "cargo_insurance_amount"; "bond_insurance_amount"].

Definition null_words : list string := ["NULL"; "NONE"; "N/A"].

(** The formats [_parse_date] tries, in order. *)
Definition formats : list (list PyDatetime.item) :=
  [ PyDatetime.fmt_iso_micro; PyDatetime.fmt_iso; PyDatetime.fmt_ymd;
    PyDatetime.fmt_mdy_slash; PyDatetime.fmt_mdy_dash ].

Fixpoint try_formats (text : string) (fmts : list (list PyDatetime.item))
  : cvalue :=
  match fmts with
  | [] => CNone
  | fmt :: fmts' =>
      match PyDatetime.strptime_date text fmt with
      | Some d => CDate d
      | None => try_formats text fmts'       (* except ValueError: continue *)
      end
  end.

(** [_parse_date]: raw records carry no [date] or [datetime] objects, so
    only the string branch can produce a date. *)
Definition _parse_date (date_value : value) : cvalue :=
  if negb (truthy date_value) then CNone
  else
    match date_value with
    | VStr s => try_formats s formats
    | _ => CNone
    end.

(** [re.match(r'^\d{5}(-\d{4})?$', zip_code)] on text made of digits and
    hyphens. *)
Definition zip_ok (zip_code : string) : bool :=
  let (digits, rest) := PyDecimal.span_digits zip_code in
  (String.length digits =? 5)%nat &&
  match rest with
  | EmptyString => true
  | String "-" r => (String.length r =? 4)%nat && all_chars isdigit r
  | _ => false
  end.

Definition is_upper_letter (c : ascii) : bool := between 65 90 (code c).

(** [re.match(r'^[A-Z]{2}$', state)] on text of at most two characters. *)
Definition state_ok (state : string) : bool :=
  (String.length state =? 2)%nat && all_chars is_upper_letter state.

(** [re.sub(r'[$,]', '', value)] *)
Definition drop_currency (s : string) : string :=
  filter_chars (fun c => negb ((c =? "$")%char || (c =? ",")%char)) s.

(** [_clean_value].  A string is stripped first and is unknown when it is
    empty or a null word; the branches follow the chain of tests on the
    field name. *)
Definition _clean_value (field_name : string) (value0 : value) : result cvalue :=
  match value0 with
  | VNone => Ok CNone
  | _ =>
    let value1 :=
      match value0 with
      | VStr s => VStr (strip s)
      | v => v
      end in
    let null_like :=
      match value1 with
      | VStr s => (s =? "")%string || str_in (upper s) null_words
      | _ => false
      end in
    if null_like then Ok CNone
    else if str_in field_name integer_fields then
      except_value_or_type
        (if truthy value1 then z <- int value1 ;; Ok (CInt z) else Ok CNone)
        (Ok CNone)
    else if str_in field_name decimal_fields then
      except_value_or_type
        (let value2 :=
           match value1 with
           | VStr s => VStr (drop_currency s)
           | v => v
           end in
         if truthy value2 then d <- PyDecimal.Decimal value2 ;; Ok (CDecimal d)
         else Ok CNone)
        (Ok CNone)
    else if endswith field_name "_date" then Ok (_parse_date value1)
    else if str_in field_name ["hazmat_flag"; "hazmat_placardable"] then
      match value1 with
      | VStr s => Ok (CBool (str_in (upper s) ["Y"; "YES"; "TRUE"; "1"]))
      | v => Ok (CBool (truthy v))
      end
    else if str_in field_name ["physical_state"; "mailing_state"] then
      match value1 with
      | VStr s =>
          let state := take 2 (upper s) in
          if state_ok state then Ok (CStr state) else Ok CNone
      | _ => Ok CNone
      end
    else if str_in field_name ["physical_zip"; "mailing_zip"] then
      match value1 with
      | VStr s =>
          let zip_code := filter_chars (fun c => isdigit c || (c =? "-")%char) s in
          if zip_ok zip_code then Ok (CStr zip_code) else Ok CNone
      | _ => Ok CNone
      end
    else if (field_name =? "telephone")%string || (field_name =? "fax")%string then
      match value1 with
      | VStr s =>
          let phone :=
            filter_chars (fun c => isdigit c || isspace c || (c =? "-")%char ||
                                   (c =? "(")%char || (c =? ")")%char ||
                                   (c =? "+")%char) s in
          if negb (phone =? "")%string && (10 <=? String.length phone)%nat
          then Ok (CStr (take 20 phone)) else Ok CNone
      | _ => Ok CNone
      end
    else if (field_name =? "email")%string then
      match value1 with
      | VStr s =>
          let email := lower s in
          if contains "@" email && contains "." email
          then Ok (CStr (take 255 email)) else Ok CNone
      | _ => Ok CNone
      end
    else
      (* default: str(value) if value else None *)
      if truthy value1 then Ok (CStr (str value1)) else Ok CNone
  end.

Definition cargo_fields : list string :=
  [ "cargo_carried_1"; "cargo_carried_2"; "cargo_carried_3"; "cargo_carried_4";
    "cargo_carried_5"; "cargo_carried_6"; "cargo_carried_7"; "cargo_carried_8" ].

(** [_extract_cargo_carried]: the list of cargo types, [None] when empty. *)
Definition _extract_cargo_carried (record : RawRecord) : option (list string) :=
  let cargo_types :=
    flat_map
      (fun field =>
         match dict_get record field with
         | Some v =>
             if truthy v then
               let cargo := strip (str v) in
               if negb (cargo =? "")%string && negb (str_in (upper cargo) null_words)
               then [cargo] else []
             else []
         | None => []
         end)
      cargo_fields in
  match cargo_types with
  | [] => None
  | _ => Some cargo_types
  end.

(** [value is not None and value != ''] *)
Definition has_content (v : value) : bool :=
  match v with
  | VNone => false
  | VStr s => negb (s =? "")%string
  | _ => true
  end.

(** The loop of [normalize] over the field mapping. *)
Fixpoint map_fields (fmcsa_record : RawRecord) (mapping : list (string * string))
         (normalized : CanonicalRecord) : result CanonicalRecord :=
  match mapping with
  | [] => Ok normalized
  | (fmcsa_field, db_field) :: mapping' =>
      match dict_get fmcsa_record fmcsa_field with
      | Some v =>
          if has_content v then
            cleaned <- _clean_value db_field v ;;
            map_fields fmcsa_record mapping' (dict_set normalized db_field cleaned)
          else map_fields fmcsa_record mapping' normalized
      | None => map_fields fmcsa_record mapping' normalized
      end
  end.

(** What an f-string shows for a normalized value that can be a natural
    key. *)
Definition format_key (v : cvalue) : string :=
  match v with
  | CInt z => str_of_int z
  | CStr s => s
  | CBool true => "True"
  | CBool false => "False"
  | _ => "None"
  end.

Definition normalize (fmcsa_record : RawRecord) : result CanonicalRecord :=
  normalized <- map_fields fmcsa_record FIELD_MAPPING [] ;;
  let normalized :=
    match _extract_cargo_carried fmcsa_record with
    | Some cargo_carried => dict_set normalized "cargo_carried" (CList cargo_carried)
    | None => normalized
    end in
  match dict_get normalized "usdot_number" with
  | None => Raise (ValueError "Missing required field: usdot_number")
  | Some usdot =>
      let normalized :=
        match dict_get normalized "legal_name" with
        | Some name =>
            if ctruthy name then normalized
            else dict_set normalized "legal_name"
                   (CStr ("Unknown Carrier #" ++ format_key usdot))
        | None =>
            dict_set normalized "legal_name"
              (CStr ("Unknown Carrier #" ++ format_key usdot))
        end in
      Ok (dict_set normalized "raw_data" (CStr (dumps fmcsa_record)))
  end.

End CarrierDataNormalizer.

(** ** [FMCSAClient.fetch_batch] *)

Module FMCSAClient.
Import Json.

(** What one GET can come back with: a response with its status code, its
    Retry-After header if any and its body, a timeout, or any other
    exception (a connection error, say). *)
Inductive reply : Type :=
| Response (status_code : Z) (retry_after : option string)
           (body : option (list RawRecord))     (* [None]: the body is not JSON *)
| TimedOut                                       (* httpx.TimeoutException *)
| Failed (e : exn).

(** The remote endpoint: the reply to the n-th request issued. *)
Definition server : Type := nat -> reply.

(** The retry settings of a client.  The delay and the factor are floats
    in the code; they are rationals here, and so are the seconds slept. *)
Record client : Type := mkClient {
  max_retries : Z;
  retry_delay : Q;
  retry_backoff : Q }.

(** The defaults of [__init__]. *)
Definition default_client : client := mkClient 3 1 2.

(** What the client has done so far: requests issued, every
    [asyncio.sleep] in order, and the counters of [self.stats]. *)
Record world : Type := mkWorld {
  requests : nat;
  slept : list Q;
  total_requests : Z;
  total_records : Z;
  failed_requests : Z }.

Definition start : world := mkWorld 0 [] 0 0 0.

Definition sleep (seconds : Q) (w : world) : world :=
  mkWorld (requests w) (slept w ++ [seconds])
          (total_requests w) (total_records w) (failed_requests w).

Definition request_sent (w : world) : world :=
  mkWorld (S (requests w)) (slept w)
          (total_requests w) (total_records w) (failed_requests w).

Definition count_failure (w : world) : world :=
  mkWorld (requests w) (slept w)
          (total_requests w) (total_records w) (failed_requests w + 1).

Definition count_success (w : world) : world :=
  mkWorld (requests w) (slept w)
          (total_requests w + 1) (total_records w) (failed_requests w).

Definition count_records (n : Z) (w : world) : world :=
  mkWorld (requests w) (slept w)
          (total_requests w) (total_records w + n) (failed_requests w).

(** [int(response.headers.get("Retry-After", 60))] *)
Definition retry_after_seconds (header : option string) : result Z :=
  int (match header with Some s => VStr s | None => VInt 60 end).

(** [response.raise_for_status()] lets the 2xx codes through and raises
    [HTTPStatusError] for every other code. *)
Definition is_success (status_code : Z) : bool :=
  (200 <=? status_code) && (status_code <=? 299).

Definition terminal_error (c : client) : exn :=
  Exception ("Failed to fetch data after " ++ str_of_int (max_retries c) ++ " attempts").

Section Attempts.
Variable c : client.
Variable srv : server.

(** The code after the [try] statement: wait before the next attempt
    with exponential backoff, unless this was the last attempt. *)
Definition backoff (attempt : Z) (w : world) : world :=
  if attempt <? max_retries c - 1
  then sleep (retry_delay c * retry_backoff c ^ attempt) w
  else w.

(** The body of [for attempt in range(self.max_retries)], with as many
    iterations left as [remaining]; the code after the loop runs when no
    iteration is left. *)
Fixpoint attempts (remaining : nat) (attempt : Z) (w : world)
  : result (list RawRecord) * world :=
  match remaining with
  | O => (Raise (terminal_error c), count_failure w)
  | S remaining' =>
      let next := attempts remaining' (attempt + 1) in
      (* except Exception as e *)
      let unexpected (e : exn) (w : world) :=
        let w := count_failure w in
        if attempt =? max_retries c - 1 then (Raise e, w)
        else next (backoff attempt w) in
      let answer := srv (requests w) in
      let w := request_sent w in
      match answer with
      | Response status_code header body =>
          if status_code =? 429 then
            match retry_after_seconds header with
            | Ok retry_after => next (sleep (inject_Z retry_after) w)   (* continue *)
            | Raise e => unexpected e w
            end
          else if is_success status_code then
            let w := count_success w in
            match body with
            | Some data => (Ok data, count_records (Z.of_nat (List.length data)) w)
            | None => unexpected (ValueError "Expecting value") w
            end
          else if 500 <=? status_code then
            next (backoff attempt w)             (* server error: retry *)
          else
            (Raise (HTTPStatusError status_code), count_failure w)
      | TimedOut => next (backoff attempt w)
      | Failed e => unexpected e w
      end
  end.

Definition fetch_batch (w : world) : result (list RawRecord) * world :=
  attempts (Z.to_nat (max_retries c)) 0 w.

End Attempts.

End FMCSAClient.

(** ** The record store behind [db_pool] *)

Module Store.
Import CarrierDataNormalizer.

(** One tuple of values, in column order. *)
Definition row : Type := list cvalue.

(** The two writes the loader issues on a connection.  Either may raise
    (the pool, the connection or the statement can fail); the store is
    returned as the failed call left it. *)
Class Database : Type := {
  db : Type;
  (** [conn.copy_records_to_table('carriers', records=..., columns=...)] *)
  copy_records_to_table : db -> list row -> result unit * db;
  (** [conn.execute] of the INSERT ... ON CONFLICT (usdot_number) DO UPDATE
      statement: the status text of the command. *)
  execute_upsert : db -> list row -> result string * db
}.

End Store.

(** ** [IngestionStats] and [IngestionPipeline] *)

Module IngestionPipeline.
Import Json CarrierDataNormalizer Store.

Record IngestionStats : Type := mkStats {
  total_fetched : Z;
  total_inserted : Z;
  total_updated : Z;
  total_errors : Z;
  error_records : list (option value * exn) }.

Definition new_stats : IngestionStats := mkStats 0 0 0 0 [].

Definition add_fetched (n : Z) (s : IngestionStats) : IngestionStats :=
  mkStats (total_fetched s + n) (total_inserted s) (total_updated s)
          (total_errors s) (error_records s).

Definition add_inserted (n : Z) (s : IngestionStats) : IngestionStats :=
  mkStats (total_fetched s) (total_inserted s + n) (total_updated s)
          (total_errors s) (error_records s).

Definition add_updated (n : Z) (s : IngestionStats) : IngestionStats :=
  mkStats (total_fetched s) (total_inserted s) (total_updated s + n)
          (total_errors s) (error_records s).

Definition add_errors (n : Z) (s : IngestionStats) : IngestionStats :=
  mkStats (total_fetched s) (total_inserted s) (total_updated s)
          (total_errors s + n) (error_records s).

Definition log_error (r : option value * exn) (s : IngestionStats) : IngestionStats :=
  mkStats (total_fetched s) (total_inserted s) (total_updated s)
          (total_errors s) (error_records s ++ [r]).

Definition columns : list string :=
  [ "usdot_number"; "legal_name"; "dba_name";
    "physical_address"; "physical_city"; "physical_state"; "physical_zip";
    "physical_country";
    "mailing_address"; "mailing_city"; "mailing_state"; "mailing_zip";
    "telephone"; "fax"; "email";
    "mcs_150_date"; "mcs_150_mileage"; "entity_type"; "operating_status";
    "out_of_service_date";
    "power_units"; "drivers"; "carrier_operation"; "cargo_carried";
    "liability_insurance_date"; "liability_insurance_amount";
    "cargo_insurance_date"; "cargo_insurance_amount";
    "bond_insurance_date"; "bond_insurance_amount";
    "hazmat_flag"; "hazmat_placardable";
    "safety_rating"; "safety_rating_date"; "safety_review_date";
    "raw_data" ].

(** [record.get(col)] for every column. *)
Definition row_of (record : CanonicalRecord) : row :=
  map (fun col => match dict_get record col with Some v => v | None => CNone end)
      columns.

(** Which write a batch went through. *)
Inductive load_path : Type :=
| Copy            (* bulk append, no conflict handling *)
| Upsert.         (* INSERT ... ON CONFLICT DO UPDATE *)

(** [parts[i]] *)
Definition index (parts : list string) (i : nat) : result string :=
  match nth_error parts i with
  | Some p => Ok p
  | None => Raise (IndexError "list index out of range")
  end.

(** The counting after [conn.execute]: the status text decides which one
    counter receives the number it carries. *)
Definition count_result (status : string) (s : IngestionStats)
  : result IngestionStats :=
  if (status =? "")%string then Ok s
  else
    let parts := split status in
    word <- index parts 0 ;;
    if (word =? "INSERT")%string then
      text <- index parts 2 ;;
      count <- int (VStr text) ;;
      Ok (add_inserted count s)
    else if (word =? "UPDATE")%string then
      text <- index parts 1 ;;
      count <- int (VStr text) ;;
      Ok (add_updated count s)
    else Ok s.

Section Pipeline.
Context {D : Database}.

(** The attributes of the pipeline and what it acts on.  [paths] lists
    the write each batch went through and [processed] counts the
    records handed to the normalizer; the code keeps neither. *)
Record state : Type := mkState {
  stats : IngestionStats;
  database : db;
  paths : list load_path;
  processed : nat }.

Definition with_stats (f : IngestionStats -> IngestionStats) (st : state) : state :=
  mkState (f (stats st)) (database st) (paths st) (processed st).

Definition with_database (d : db) (p : load_path) (st : state) : state :=
  mkState (stats st) d (paths st ++ [p]) (processed st).

Definition count_processed (st : state) : state :=
  mkState (stats st) (database st) (paths st) (S (processed st)).

Variable batch_size : Z.
Variable max_errors : Z.

(** [_process_batch].  The argument [is_update] is accepted and not
    read. *)
Definition _process_batch (records : list CanonicalRecord) (is_update : bool)
           (st : state) : result unit * state :=
  match records with
  | [] => (Ok tt, st)
  | _ =>
      let n := Z.of_nat (List.length records) in
      let values := map row_of records in
      let attempt : result unit * state :=
        if 100 <? n then
          let (r, d) := copy_records_to_table (database st) values in
          let st := with_database d Copy st in
          match r with
          | Ok _ => (Ok tt, with_stats (add_inserted n) st)
          | Raise e => (Raise e, st)
          end
        else
          let (r, d) := execute_upsert (database st) values in
          let st := with_database d Upsert st in
          match r with
          | Ok status =>
              match count_result status (stats st) with
              | Ok s => (Ok tt, with_stats (fun _ => s) st)
              | Raise e => (Raise e, st)
              end
          | Raise e => (Raise e, st)
          end in
      (* except Exception: count the whole batch and raise again *)
      match attempt with
      | (Ok _, st) => (Ok tt, st)
      | (Raise e, st) => (Raise e, with_stats (add_errors n) st)
      end
  end.

(** The [try] body for one record: normalize, buffer, and write the
    buffer out once it holds [batch_size] records.  The buffer is
    emptied only after a write that did not raise. *)
Definition buffer_record (is_update : bool) (record : RawRecord)
           (buffer : list CanonicalRecord) (st : state)
  : result unit * (list CanonicalRecord * state) :=
  let st := count_processed st in
  match normalize record with
  | Raise e => (Raise e, (buffer, st))
  | Ok normalized =>
      let buffer := buffer ++ [normalized] in
      if batch_size <=? Z.of_nat (List.length buffer) then
        match _process_batch buffer is_update st with
        | (Ok _, st) => (Ok tt, ([], st))
        | (Raise e, st) => (Raise e, (buffer, st))
        end
      else (Ok tt, (buffer, st))
  end.

(** *** [run_full_ingestion] *)

(** One record of the inner loop; the boolean tells whether the loop is
    left through [break]. *)
Definition full_record (record : RawRecord) (buffer : list CanonicalRecord)
           (st : state) : bool * (list CanonicalRecord * state) :=
  match buffer_record false record buffer st with
  | (Ok _, bs) => (false, bs)
  | (Raise e, (buffer, st)) =>
      let st := with_stats (add_errors 1) st in
      let st := with_stats (log_error (dict_get record "usdot_number", e)) st in
      (max_errors <=? total_errors (stats st), (buffer, st))
  end.

Fixpoint full_page (api_batch : list RawRecord) (buffer : list CanonicalRecord)
         (st : state) : list CanonicalRecord * state :=
  match api_batch with
  | [] => (buffer, st)
  | record :: rest =>
      match full_record record buffer st with
      | (true, bs) => bs                               (* break *)
      | (false, (buffer, st)) => full_page rest buffer st
      end
  end.

(** The loop over the pages the client yields; the boolean tells whether
    it was left through the check of the error count. *)
Fixpoint full_pages (pages : list (list RawRecord)) (buffer : list CanonicalRecord)
         (st : state) : bool * (list CanonicalRecord * state) :=
  match pages with
  | [] => (false, (buffer, st))
  | api_batch :: rest =>
      let st := with_stats (add_fetched (Z.of_nat (List.length api_batch))) st in
      let (buffer, st) := full_page api_batch buffer st in
      if max_errors <=? total_errors (stats st) then (true, (buffer, st))
      else full_pages rest buffer st
  end.

(** What a run leaves behind: the returned statistics or the exception,
    the final state, and whether the page loop was left early. *)
Record report : Type := mkReport {
  outcome : result IngestionStats;
  final : state;
  stopped : bool }.

(** The remaining records are written after the loop, outside its
    [try]: an exception there ends the run. *)
Definition finish (stopped : bool) (bs : list CanonicalRecord * state) : report :=
  let (buffer, st) := bs in
  match buffer with
  | [] => mkReport (Ok (stats st)) st stopped
  | _ =>
      match _process_batch buffer false st with
      | (Ok _, st) => mkReport (Ok (stats st)) st stopped
      | (Raise e, st) => mkReport (Raise e) st stopped
      end
  end.

(** [pages] is what [fmcsa_client.fetch_all] yields, one list per page.
    The start-up of the pool, the creation of the partition and the refresh
    of the statistics are taken to succeed. *)
Definition run_full_ingestion (pages : list (list RawRecord)) (d : db) : report :=
  let st := mkState new_stats d [] 0 in
  let (stopped, bs) := full_pages pages [] st in
  finish stopped bs.

(** *** [run_incremental_update] *)

Definition incremental_record (record : RawRecord) (buffer : list CanonicalRecord)
           (st : state) : list CanonicalRecord * state :=
  match buffer_record true record buffer st with
  | (Ok _, bs) => bs
  | (Raise e, (buffer, st)) => (buffer, with_stats (add_errors 1) st)
  end.

Fixpoint incremental_page (api_batch : list RawRecord) (buffer : list CanonicalRecord)
         (st : state) : list CanonicalRecord * state :=
  match api_batch with
  | [] => (buffer, st)
  | record :: rest =>
      let (buffer, st) := incremental_record record buffer st in
      incremental_page rest buffer st
  end.

Fixpoint incremental_pages (pages : list (list RawRecord))
         (buffer : list CanonicalRecord) (st : state)
  : list CanonicalRecord * state :=
  match pages with
  | [] => (buffer, st)
  | api_batch :: rest =>
      let st := with_stats (add_fetched (Z.of_nat (List.length api_batch))) st in
      let (buffer, st) := incremental_page api_batch buffer st in
      incremental_pages rest buffer st
  end.

(** [pages] is what [fmcsa_client.fetch_updates] yields.  The function
    reads [batch_size] and never [max_errors]. *)
Definition run_incremental_update (pages : list (list RawRecord)) (d : db) : report :=
  let st := mkState new_stats d [] 0 in
  let (buffer, st) := incremental_pages pages [] st in
  match buffer with
  | [] => mkReport (Ok (stats st)) st false
  | _ =>
      match _process_batch buffer true st with
      | (Ok _, st) => mkReport (Ok (stats st)) st false
      | (Raise e, st) => mkReport (Raise e) st false
      end
  end.

End Pipeline.

End IngestionPipeline.

(** ** PostgreSQL as the record store

    The table [carriers] with its unique index on [usdot_number], as the two
    statements of the loader see it.  COPY appends rows and fails as a
    whole on a duplicate key.  INSERT ... ON CONFLICT (usdot_number) DO
    UPDATE inserts the rows whose key is new and updates the listed columns
    of the others; it fails when one statement touches a key twice.  Its
    status text is that of every INSERT statement: the word INSERT, the
    number 0 and the number of rows inserted or updated.  Rows whose key is
    not an integer never conflict. *)

Module Postgres.
Import CarrierDataNormalizer Store IngestionPipeline.

Definition table : Type := list row.

Definition key_of (r : row) : option Z :=
  match r with
  | CInt z :: _ => Some z
  | _ => None
  end.

Definition same_key (a b : row) : bool :=
  match key_of a, key_of b with
  | Some x, Some y => x =? y
  | _, _ => false
  end.

Definition has_key (t : table) (r : row) : bool := existsb (same_key r) t.

Fixpoint distinct_keys (rows : list row) : bool :=
  match rows with
  | [] => true
  | r :: rows' => negb (has_key rows' r) && distinct_keys rows'
  end.

(** The columns named after DO UPDATE SET. *)
Definition updated_columns : list string :=
  [ "legal_name"; "dba_name"; "physical_address"; "physical_city";
    "physical_state"; "entity_type"; "operating_status"; "power_units";
    "drivers"; "liability_insurance_date"; "liability_insurance_amount";
    "raw_data" ].

Fixpoint merge (cols : list string) (old new : row) : row :=
  match cols, old, new with
  | col :: cols', o :: old', n :: new' =>
      (if str_in col updated_columns then n else o) :: merge cols' old' new'
  | _, _, _ => old
  end.

Definition upsert_row (t : table) (r : row) : table :=
  if has_key t r
  then map (fun old => if same_key old r then merge columns old r else old) t
  else t ++ [r].

Definition unique_violation : exn := PostgresError "23505".
Definition cardinality_violation : exn := PostgresError "21000".

Definition copy (t : table) (rows : list row) : result unit * table :=
  if distinct_keys rows && negb (existsb (has_key t) rows)
  then (Ok tt, t ++ rows)
  else (Raise unique_violation, t).

Definition upsert (t : table) (rows : list row) : result string * table :=
  if distinct_keys rows
  then (Ok ("INSERT 0 " ++ str_of_int (Z.of_nat (List.length rows)))%string,
        fold_left upsert_row rows t)
  else (Raise cardinality_violation, t).

#[export] Instance postgres : Database :=
  {| db := table; copy_records_to_table := copy; execute_upsert := upsert |}.

End Postgres.

(** ** [run_initial_load] *)

Module InitialLoad.
Import Json Store IngestionPipeline.

(** Binding the keyword arguments of a call to the parameters a function
    declares: a keyword that is not a parameter is a [TypeError], raised
    before the body runs. *)
Definition bind_keywords (name : string) (parameters keywords : list string)
  : result unit :=
  match find (fun k => negb (str_in k parameters)) keywords with
  | Some k =>
      Raise (TypeError (name ++ "() got an unexpected keyword argument '" ++ k ++ "'"))
  | None => Ok tt
  end.

(** The parameters of [IngestionPipeline.run_full_ingestion] after
    [self]. *)
Definition run_full_ingestion_parameters : list string := ["progress_callback"].

(** What the script meets outside the pipeline: the database start-up and
    shutdown, the count the endpoint reports, and the operator's answer
    at the prompt. *)
Record surroundings : Type := mkSurroundings {
  initialize_database : result unit;
  get_total_count : result Z;
  input : string;
  close_database : result unit }.

(** [limit] as a truth value: [None] and 0 are false. *)
Definition given (limit : option Z) : bool :=
  match limit with
  | Some n => negb (n =? 0)
  | None => false
  end.

(** [try: body / finally: cleanup] *)
Definition finally {A} (body : result A) (cleanup : result unit) : result A :=
  match cleanup with
  | Ok _ => body
  | Raise e => Raise e
  end.

Section InitialLoad.
Context {D : Database}.

(** The statements of the [try] block.  The result holds the store as
    the block left it. *)
Definition load (limit : option Z) (batch_size : Z) (env : surroundings)
           (pages : list (list RawRecord)) (d : db) : result unit * db :=
  match initialize_database env with
  | Raise e => (Raise e, d)
  | Ok _ =>
      let counted :=
        match limit with
        | Some n => if negb (n =? 0) then Ok n else get_total_count env
        | None => get_total_count env
        end in
      match counted with
      | Raise e => (Raise e, d)
      | Ok total_count =>
          if negb (given limit) && (100000 <? total_count) &&
             negb (lower (input env) =? "y")%string
          then (Ok tt, d)                              (* cancelled by user *)
          else
            match bind_keywords "IngestionPipeline.run_full_ingestion"
                    run_full_ingestion_parameters
                    ["progress_callback"; "limit"] with
            | Raise e => (Raise e, d)
            | Ok _ =>
                let r := run_full_ingestion batch_size 100 pages d in
                (_ <- outcome r ;; Ok tt, database (final r))
            end
      end
  end.

Definition run_initial_load (limit : option Z) (batch_size : Z)
           (env : surroundings) (pages : list (list RawRecord)) (d : db)
  : result unit * db :=
  let (r, d) := load limit batch_size env pages d in
  (finally r (close_database env), d).

End InitialLoad.

End InitialLoad.

(** ** [BulkFMCSAFetcher.fetch_all] *)

Module BulkFMCSAFetcher.
Import Json.

(** What a run does towards the endpoint and the disk. *)
Inductive event : Type :=
| Fetched (offset : Z)                            (* fetch_batch(session, offset) *)
| SavedBatch (batch_num : Z)                      (* save_batch_to_file *)
| SavedCheckpoint (offset total_fetched : Z).     (* save_checkpoint *)

Record progress : Type := mkProgress {
  offset : Z;
  batch_num : Z;
  consecutive_empty : Z;
  total_fetched : Z;
  carriers : Z }.                                 (* len(self.carriers) *)

Section Fetch.
Variable batch_size : Z.
Variable total_count : Z.

(** The [while offset < total_count] loop, run on the batches that the
    successive calls of [fetch_batch] return (an empty list is what a
    failed fetch returns).  The loop also ends here when the batches run
    out: that is a run interrupted at that point.  The result is the
    sequence of events, in order, and the variables on exit. *)
Fixpoint loop (fetched : list (list RawRecord)) (p : progress)
  : list event * progress :=
  match fetched with
  | [] => ([], p)
  | batch :: rest =>
      if offset p <? total_count then
        match batch with
        | [] =>
            let p' := mkProgress (offset p) (batch_num p) (consecutive_empty p + 1)
                                 (total_fetched p) (carriers p) in
            if 3 <=? consecutive_empty p' then ([Fetched (offset p)], p')   (* break *)
            else
              let (events, q) := loop rest p' in                           (* continue *)
              (Fetched (offset p) :: events, q)
        | _ =>
            let n := Z.of_nat (List.length batch) in
            let total := total_fetched p + n in
            (* Save checkpoint every 10 batches *)
            let checkpoint :=
              if batch_num p mod 10 =? 0
              then [SavedCheckpoint (offset p + batch_size) total]
              else [] in
            let p' := mkProgress (offset p + batch_size) (batch_num p + 1) 0
                                 total (carriers p + n) in
            let (events, q) := loop rest p' in
            (Fetched (offset p) :: SavedBatch (batch_num p) :: checkpoint ++ events, q)
        end
      else ([], p)
  end.

(** The variables at the start of the loop, from what [load_checkpoint]
    returned. *)
Definition resume (start_offset total_fetched carriers : Z) : progress :=
  mkProgress start_offset (start_offset / batch_size) 0 total_fetched carriers.

End Fetch.

(** The checkpoint file after a sequence of events: the last checkpoint
    written, if any. *)
Fixpoint checkpoint_file (before : option (Z * Z)) (events : list event)
  : option (Z * Z) :=
  match events with
  | [] => before
  | SavedCheckpoint o t :: events' => checkpoint_file (Some (o, t)) events'
  | _ :: events' => checkpoint_file before events'
  end.

(** The batches saved after the last checkpoint write: a run resumed from
    the checkpoint file fetches each of them again. *)
Fixpoint unconfirmed (pending : nat) (events : list event) : nat :=
  match events with
  | [] => pending
  | SavedCheckpoint _ _ :: events' => unconfirmed 0 events'
  | SavedBatch _ :: events' => unconfirmed (S pending) events'
  | Fetched _ :: events' => unconfirmed pending events'
  end.

(** A checkpoint is written right after batch [n] is saved exactly when
    [n] is a multiple of ten, and nowhere else. *)
Fixpoint every_tenth (events : list event) : bool :=
  match events with
  | [] => true
  | SavedBatch n :: SavedCheckpoint _ _ :: events' =>
      (n mod 10 =? 0) && every_tenth events'
  | SavedBatch n :: events' => negb (n mod 10 =? 0) && every_tenth events'
  | SavedCheckpoint _ _ :: _ => false
  | Fetched _ :: events' => every_tenth events'
  end.

(** The fetch that follows a checkpoint write asks for the offset the
    checkpoint holds. *)
Fixpoint resumable (events : list event) : bool :=
  match events with
  | [] => true
  | SavedCheckpoint o _ :: events' =>
      match events' with
      | [] => true
      | Fetched o' :: _ => o =? o'
      | _ => false
      end && resumable events'
  | _ :: events' => resumable events'
  end.

End BulkFMCSAFetcher.

(** ** [FMCSAClient.fetch_all] and [fetch_updates]: the pages of a query

    The generator is run to its end: the result lists the pages it
    yields, in order, then tells how it ended.  A consumer that leaves its
    loop early sees a prefix of the pages. *)

Module FMCSAClientPages.
Import Json FMCSAClient.

Definition MAX_RECORDS_PER_REQUEST : Z := 50000.

(** The query parameters of one GET; [$order] is always usdot_number. *)
Record params : Type := mkParams {
  limit : Z;
  offset : Z;
  where_ : option string;
  select : option string }.

(** The endpoint: the reply to the n-th request issued, by its
    parameters. *)
Definition endpoint : Type := params -> server.

(** [if where:] and [if select:] on an optional text. *)
Definition given (x : option string) : bool :=
  match x with
  | Some s => negb (s =? "")%string
  | None => false
  end.

(** A parameter is sent only when it is given. *)
Definition sent (x : option string) : option string :=
  if given x then x else None.

(** [ZeroDivisionError], by its message: no handler of the modelled code
    tells it from another exception. *)
Definition ZeroDivisionError : exn := Exception "division by zero".

(** [_log_statistics]: the average batch size divides the records by the
    requests counted.  The clock is taken to have advanced between start
    and end. *)
Definition _log_statistics (w : world) : result unit :=
  if total_requests w =? 0 then Raise ZeroDivisionError else Ok tt.

(** [int(count_data[0].get("count", estimated_total))] under
    [if count_data:]. *)
Definition count_of (count_data : list RawRecord) (estimated_total : Z) : result Z :=
  match count_data with
  | [] => Ok estimated_total
  | first :: _ =>
      int (match dict_get first "count" with
           | Some v => v
           | None => VInt estimated_total
           end)
  end.

Section Pages.
Variable c : client.
Variable api : endpoint.

(** [fetch_batch] with its parameters: the limit is capped, and the
    retry loop of the client runs against the replies to this query. *)
Definition fetch_batch (limit offset : Z) (where_ select : option string) (w : world)
  : result (list RawRecord) * world :=
  FMCSAClient.fetch_batch c
    (api (mkParams (Z.min limit MAX_RECORDS_PER_REQUEST) offset (sent where_) (sent select)))
    w.

Variable batch_size : Z.
Variable where_ : option string.
Variable select : option string.
Variable rate_limit_delay : Q.

(** The [while True] loop, with as many iterations as [fuel]; [None]
    when the fuel runs out.  The progress line, written when the offset
    is a multiple of 100000, divides by the estimated total.  The
    progress callback is taken to return. *)
Fixpoint pages_from (fuel : nat) (estimated_total offset : Z) (w : world)
  : option (list (list RawRecord) * result unit * world) :=
  match fuel with
  | O => None
  | S fuel' =>
      let (r, w) := fetch_batch batch_size offset where_ select w in
      match r with
      | Raise e => Some ([], Raise e, w)
      | Ok [] => Some ([], _log_statistics w, w)                     (* break *)
      | Ok batch =>
          (* yield batch *)
          let offset := offset + Z.of_nat (List.length batch) in
          if (offset mod 100000 =? 0) && (estimated_total =? 0)
          then Some ([batch], Raise ZeroDivisionError, w)
          else if Z.of_nat (List.length batch) <? batch_size
          then Some ([batch], _log_statistics w, w)                  (* break *)
          else
            match pages_from fuel' estimated_total offset (sleep rate_limit_delay w) with
            | Some (pages, r, w) => Some (batch :: pages, r, w)
            | None => None
            end
      end
  end.

Definition fetch_all (fuel : nat) (w : world)
  : option (list (list RawRecord) * result unit * world) :=
  let estimated_total := 2200000 in
  if given where_ then
    (* Get actual count if filtering *)
    let (r, w) := fetch_batch 1 0 where_ (Some "COUNT(*) as count") w in
    match r with
    | Raise e => Some ([], Raise e, w)
    | Ok count_data =>
        match count_of count_data estimated_total with
        | Raise e => Some ([], Raise e, w)
        | Ok estimated_total => pages_from fuel estimated_total 0 w
        end
    end
  else pages_from fuel estimated_total 0 w.

End Pages.

(** [fetch_updates]: the pages of the records whose mcs_150_date is
    after [date_str], the text [strftime] gives for [since_date]. *)
Definition fetch_updates (c : client) (api : endpoint) (date_str : string)
           (batch_size : Z) (fuel : nat) (w : world)
  : option (list (list RawRecord) * result unit * world) :=
  let where_clause := ("mcs_150_date > '" ++ date_str ++ "'")%string in
  fetch_all c api batch_size (Some where_clause) None (1 # 2) fuel w.

End FMCSAClientPages.


(** ** [BulkFMCSAFetcher]: one page

    [fetch_batch] of the bulk download catches every exception: a failure
    shows as an empty page. *)

Module BulkFMCSARequests.
Import Json.

(** What the fetcher has done so far on its session: the requests sent and
    the seconds slept, in order. *)
Record session : Type := mkSession {
  requests : nat;
  slept : list Z }.

Definition request_sent (s : session) : session :=
  mkSession (S (requests s)) (slept s).

Definition sleep (seconds : Z) (s : session) : session :=
  mkSession (requests s) (slept s ++ [seconds]).

Section Attempts.
Variable srv : FMCSAClient.server.

(** The body of [for attempt in range(max_retries)] with [remaining]
    iterations left; [return []] follows the loop.  A body that is not
    JSON makes [response.json()] raise, which [except Exception] answers
    like any other failure. *)
Fixpoint attempts (remaining : nat) (attempt : Z) (s : session)
  : list RawRecord * session :=
  match remaining with
  | O => ([], s)
  | S remaining' =>
      let answer := srv (requests s) in
      let s := request_sent s in
      match answer with
      | FMCSAClient.Response status _ body =>
          if status =? 200 then
            match body with
            | Some data => (data, s)
            | None => attempts remaining' (attempt + 1) (sleep 1 s)
            end
          else if status =? 429 then
            attempts remaining' (attempt + 1) (sleep (2 ^ attempt) s)
          else ([], s)
      | FMCSAClient.TimedOut => attempts remaining' (attempt + 1) (sleep 1 s)
      | FMCSAClient.Failed _ => attempts remaining' (attempt + 1) (sleep 1 s)
      end
  end.

Definition fetch_batch (s : session) : list RawRecord * session :=
  attempts 3 0 s.

End Attempts.

End BulkFMCSARequests.

(** ** [IngestionStats]: the figures of a report *)

Module IngestionStatsReport.
Import IngestionPipeline.

(** [success_rate]; the float is a rational here. *)
Definition success_rate (s : IngestionStats) : Q :=
  let total := total_fetched s in
  if total =? 0 then 0
  else (inject_Z (total - total_errors s) / inject_Z total) * 100.

Section Groups.
(** [type(e).__name__] *)
Variable type_name : exn -> string.

(** [_group_errors]: every error record of the pipeline carries its
    error type. *)
Definition _group_errors (s : IngestionStats) : dict Z :=
  fold_left
    (fun error_types error =>
       let error_type := type_name (snd error) in
       dict_set error_types error_type
                (match dict_get error_types error_type with
                 | Some n => n
                 | None => 0
                 end + 1))
    (error_records s) [].

End Groups.

End IngestionStatsReport.

(** ** [test_pipeline]: the first thousand records *)

Module TestPipeline.
Import Json.

(** [batch[:stop]] *)
Definition slice_to (stop : Z) (batch : list RawRecord) : list RawRecord :=
  if stop <? 0
  then firstn (List.length batch - Z.to_nat (- stop)) batch
  else firstn (Z.to_nat stop) batch.

(** [limited_fetch_all], on the pages the original generator yields. *)
Fixpoint limited_fetch_all (pages : list (list RawRecord)) (count : Z)
  : list (list RawRecord) :=
  match pages with
  | [] => []
  | batch :: rest =>
      let n := Z.of_nat (List.length batch) in
      let page := slice_to (Z.min n (1000 - count)) batch in
      let count := count + n in
      page :: (if 1000 <=? count then [] else limited_fetch_all rest count)
  end.

End TestPipeline.


(** * The vocabulary of the properties *)

(** ** Replies to the client *)

(** A reply the loop answers with a backoff and another attempt: a
    timeout or a 5xx status. *)
Definition transient (r : FMCSAClient.reply) : bool :=
  match r with
  | FMCSAClient.TimedOut => true
  | FMCSAClient.Response status_code _ _ => 500 <=? status_code
  | FMCSAClient.Failed _ => false
  end.

(** The number of seconds a 429 reply asks the client to wait. *)
Definition hint_of (r : FMCSAClient.reply) : option Z :=
  match r with
  | FMCSAClient.Response 429 header _ =>
      match FMCSAClient.retry_after_seconds header with
      | Ok seconds => Some seconds
      | Raise _ => None
      end
  | _ => None
  end.

(** The backoff delay after the attempt numbered [attempt]. *)
Definition delay (c : FMCSAClient.client) (attempt : Z) : Q :=
  FMCSAClient.retry_delay c * FMCSAClient.retry_backoff c ^ attempt.

(** ** Calls of the initial-load script *)

(** The call reaches the ingestion step: a limit is given, or the count
    was obtained and either is at most 100000 or the operator answered y. *)
Definition reaches_ingestion (limit : option Z) (env : InitialLoad.surroundings) : bool :=
  InitialLoad.given limit ||
  match InitialLoad.get_total_count env with
  | Ok total_count =>
      (total_count <=? 100000) || (lower (InitialLoad.input env) =? "y")%string
  | Raise _ => false
  end.

Definition unexpected_limit : exn :=
  TypeError
    "IngestionPipeline.run_full_ingestion() got an unexpected keyword argument 'limit'".

(** ** Pages and batches *)

(** The number of records in the pages. *)
Definition record_count (pages : list (list Json.RawRecord)) : nat :=
  List.length (List.concat pages).

(** A raw record without a natural key, and one with the key [n]. *)
Definition keyless : Json.RawRecord := [("legal_name", VStr "NO KEY")].
Definition carrier (n : Z) : Json.RawRecord := [("usdot_number", VInt n)].

(** The records of a batch the normalizer accepts, normalized. *)
Definition normalized (records : list Json.RawRecord)
  : list CarrierDataNormalizer.CanonicalRecord :=
  flat_map (fun r => match CarrierDataNormalizer.normalize r with
                     | Ok n => [n]
                     | Raise _ => []
                     end) records.

(** ** Raw records *)

(** The raw fields that hold monetary amounts. *)
Definition amount_fields : list string :=
  ["liability_required_amount"; "cargo_required_amount"; "bond_insurance_required_amount"].

(** A monetary amount [Decimal] can take: anything that is not text, and
    text that is empty, a null word, or a numeric string within the bounds
    of the module once the dollar signs and commas are gone. *)
Definition amount_well_formed (v : value) : bool :=
  match v with
  | VStr s =>
      let s1 := strip s in
      let s2 := CarrierDataNormalizer.drop_currency s1 in
      (s1 =? "")%string || str_in (upper s1) CarrierDataNormalizer.null_words ||
      (s2 =? "")%string ||
      match PyDecimal.of_str s2 with Some _ => true | None => false end
  | _ => true
  end.

(** The integers of a parsed reply convert to text: [json.loads] raises on
    a literal of more digits than the cap. *)
Definition value_prints (v : value) : bool :=
  match v with
  | VInt z => printable z
  | _ => true
  end.

Definition record_prints (r : Json.RawRecord) : bool :=
  forallb (fun field => value_prints (snd field)) r.

Definition amounts_well_formed (r : Json.RawRecord) : bool :=
  forallb (fun f => match dict_get r f with
                    | Some v => amount_well_formed v
                    | None => true
                    end) amount_fields.

(** The natural key is missing: absent, [None] or the empty string. *)
Definition key_missing (r : Json.RawRecord) : bool :=
  match dict_get r "usdot_number" with
  | Some v => negb (CarrierDataNormalizer.has_content v)
  | None => true
  end.

Definition missing_key : exn := ValueError "Missing required field: usdot_number".

(** ** The text of a record *)

(** What may follow a value in the text of a record: a comma or the
    closing brace. *)
Definition closes_value (rest : string) : Prop :=
  exists t, rest = String "," t \/ rest = String "}" t.

(** One member entered into a dictionary. *)
Definition enter (acc : Json.RawRecord) (kv : string * value) : Json.RawRecord :=
  dict_set acc (fst kv) (snd kv).

(** ** Columns of a normalized record *)

(** The raw field that feeds a column, by a mapping. *)
Definition feeding (mapping : list (string * string)) (column : string) : option string :=
  option_map fst (find (fun p => (snd p =? column)%string) mapping).

(** What the loop over a mapping stores in a column: the cleaned value of
    the raw field that feeds it, when that field has content. *)
Definition mapped (r : Json.RawRecord) (mapping : list (string * string))
           (column : string) : option CarrierDataNormalizer.cvalue :=
  match feeding mapping column with
  | Some raw_name =>
      match dict_get r raw_name with
      | Some v =>
          if CarrierDataNormalizer.has_content v
          then match CarrierDataNormalizer._clean_value column v with
               | Ok c => Some c
               | Raise _ => None
               end
          else None
      | None => None
      end
  | None => None
  end.

(** A column that no test of [_clean_value] singles out: its values are
    kept as text. *)
Definition plain_column (field_name : string) : bool :=
  negb (str_in field_name CarrierDataNormalizer.integer_fields) &&
  negb (str_in field_name CarrierDataNormalizer.decimal_fields) &&
  negb (endswith field_name "_date") &&
  negb (str_in field_name ["hazmat_flag"; "hazmat_placardable"]) &&
  negb (str_in field_name ["physical_state"; "mailing_state"]) &&
  negb (str_in field_name ["physical_zip"; "mailing_zip"]) &&
  negb ((field_name =? "telephone")%string || (field_name =? "fax")%string) &&
  negb (field_name =? "email")%string.

(** No text twice in a list. *)
Fixpoint distinct (l : list string) : bool :=
  match l with
  | [] => true
  | x :: l' => negb (str_in x l') && distinct l'
  end.

(** The characters [_clean_value] keeps in a telephone or fax number. *)
Definition phone_char (c : ascii) : bool :=
  isdigit c || isspace c || (c =? "-")%char || (c =? "(")%char ||
  (c =? ")")%char || (c =? "+")%char.

(** A raw field that [normalize] reads for a column or for the cargo. *)
Definition known_field (raw_name : string) : bool :=
  str_in raw_name (map fst CarrierDataNormalizer.FIELD_MAPPING) ||
  str_in raw_name CarrierDataNormalizer.cargo_fields.

(** The branch of [_clean_value] a field name selects: the first test of
    the chain that holds. *)
Inductive kind : Type :=
| Count | Amount | Day | Flag | State | Zip | Phone | Email | Text.

Definition kind_of (field_name : string) : kind :=
  if str_in field_name CarrierDataNormalizer.integer_fields then Count
  else if str_in field_name CarrierDataNormalizer.decimal_fields then Amount
  else if endswith field_name "_date" then Day
  else if str_in field_name ["hazmat_flag"; "hazmat_placardable"] then Flag
  else if str_in field_name ["physical_state"; "mailing_state"] then State
  else if str_in field_name ["physical_zip"; "mailing_zip"] then Zip
  else if (field_name =? "telephone")%string || (field_name =? "fax")%string then Phone
  else if (field_name =? "email")%string then Email
  else Text.

(** A cleaned value of the shape its kind of column takes: unknown, or an
    integer in a count, a decimal in an amount, a date in a day, a boolean
    in a flag, two capital letters in a state, five digits or five, a
    hyphen and four in a postal code, ten to twenty characters of a
    telephone number, at most 255 characters of an electronic address,
    text that is not empty elsewhere. *)
Definition fits (k : kind) (c : CarrierDataNormalizer.cvalue) : bool :=
  match c, k with
  | CarrierDataNormalizer.CNone, _ => true
  | CarrierDataNormalizer.CInt _, Count => true
  | CarrierDataNormalizer.CDecimal _, Amount => true
  | CarrierDataNormalizer.CDate _, Day => true
  | CarrierDataNormalizer.CBool _, Flag => true
  | CarrierDataNormalizer.CStr s, State =>
      (String.length s =? 2)%nat &&
      all_chars CarrierDataNormalizer.is_upper_letter s
  | CarrierDataNormalizer.CStr s, Zip =>
      all_chars (fun c => isdigit c || (c =? "-")%char) s &&
      ((String.length s =? 5)%nat || (String.length s =? 10)%nat)
  | CarrierDataNormalizer.CStr s, Phone =>
      all_chars phone_char s &&
      (10 <=? String.length s)%nat && (String.length s <=? 20)%nat
  | CarrierDataNormalizer.CStr s, Email =>
      (String.length s <=? 255)%nat && (lower s =? s)%string
  | CarrierDataNormalizer.CStr s, Text => negb (s =? "")%string
  | _, _ => false
  end.

(** The record [normalize] returns, empty when it raises. *)
Definition normal_form (r : Json.RawRecord) : CarrierDataNormalizer.CanonicalRecord :=
  match CarrierDataNormalizer.normalize r with
  | Ok n => n
  | Raise _ => []
  end.

(** ** The counters of the client *)

(** What a world may become in the course of one page fetch with
    [remaining] attempts left. *)
Definition fetch_account (remaining : nat) (w : FMCSAClient.world)
           (rw : result (list Json.RawRecord) * FMCSAClient.world) : Prop :=
  let (r, w') := rw in
  (FMCSAClient.requests w <= FMCSAClient.requests w' <=
   FMCSAClient.requests w + remaining)%nat /\
  (List.length (FMCSAClient.slept w') <=
   List.length (FMCSAClient.slept w) +
   (FMCSAClient.requests w' - FMCSAClient.requests w))%nat /\
  FMCSAClient.total_requests w <= FMCSAClient.total_requests w' /\
  FMCSAClient.failed_requests w <= FMCSAClient.failed_requests w' /\
  match r with
  | Ok data =>
      FMCSAClient.total_records w' =
        FMCSAClient.total_records w + Z.of_nat (List.length data) /\
      FMCSAClient.total_requests w + 1 <= FMCSAClient.total_requests w' /\
      (FMCSAClient.requests w < FMCSAClient.requests w')%nat
  | Raise _ =>
      FMCSAClient.total_records w' = FMCSAClient.total_records w /\
      FMCSAClient.failed_requests w + 1 <= FMCSAClient.failed_requests w'
  end.

(** ** Pages of a query *)

(** Every page but the last holds at least [batch_size] records. *)
Fixpoint full_but_last (batch_size : Z) (pages : list (list Json.RawRecord)) : bool :=
  match pages with
  | [] => true
  | page :: rest =>
      match rest with
      | [] => true
      | _ => (batch_size <=? Z.of_nat (List.length page)) && full_but_last batch_size rest
      end
  end.

(** An endpoint that serves a fixed data set: every request for the
    unfiltered rows with the selection [select] is answered with status
    200 and the rows from [offset] on, [limit] at most. *)
Definition serves (data : list Json.RawRecord) (select : option string)
           (api : FMCSAClientPages.endpoint) : Prop :=
  forall limit offset n,
    api (FMCSAClientPages.mkParams limit offset None (FMCSAClientPages.sent select)) n =
    FMCSAClient.Response 200 None
      (Some (firstn (Z.to_nat limit) (skipn (Z.to_nat offset) data))).

(** The endpoint that serves [data] whatever the filter and the
    selection. *)
Definition serving (data : list Json.RawRecord) : FMCSAClientPages.endpoint :=
  fun q _ =>
    FMCSAClient.Response 200 None
      (Some (firstn (Z.to_nat (FMCSAClientPages.limit q))
                    (skipn (Z.to_nat (FMCSAClientPages.offset q)) data))).

(** The reply to a count query: one row with the count as text. *)
Definition counted (text : string) : FMCSAClient.reply :=
  FMCSAClient.Response 200 None (Some [[("count", VStr text)]]).

(** ** Batch files and offsets of the bulk download *)

(** Every batch file is saved right after the fetch of the offset its
    number stands for, and every checkpoint right after a batch file, with
    the offset of the batch that follows. *)
Fixpoint aligned (batch_size : Z) (previous : option BulkFMCSAFetcher.event)
         (events : list BulkFMCSAFetcher.event) : bool :=
  match events with
  | [] => true
  | e :: events' =>
      match e, previous with
      | BulkFMCSAFetcher.Fetched _, _ => true
      | BulkFMCSAFetcher.SavedBatch n, Some (BulkFMCSAFetcher.Fetched o) =>
          o =? n * batch_size
      | BulkFMCSAFetcher.SavedCheckpoint o _, Some (BulkFMCSAFetcher.SavedBatch n) =>
          o =? (n + 1) * batch_size
      | _, _ => false
      end && aligned batch_size (Some e) events'
  end.

(** The offsets held by the checkpoints written. *)
Fixpoint checkpoint_offsets (events : list BulkFMCSAFetcher.event) : list Z :=
  match events with
  | [] => []
  | BulkFMCSAFetcher.SavedCheckpoint o _ :: events' => o :: checkpoint_offsets events'
  | _ :: events' => checkpoint_offsets events'
  end.

(** The number of calls of [fetch_batch]. *)
Fixpoint fetches (events : list BulkFMCSAFetcher.event) : nat :=
  match events with
  | [] => 0
  | BulkFMCSAFetcher.Fetched _ :: events' => S (fetches events')
  | _ :: events' => fetches events'
  end.

(** ** Sleeps of the bulk download *)

(** The seconds [fetch_batch] of the bulk download can sleep after the
    attempt numbered [attempt] or a later one of [remaining]: one second
    after a failure, a power of two after a 429. *)
Definition bulk_wait (attempt : Z) (remaining : nat) (seconds : Z) : Prop :=
  seconds = 1 \/
  exists i, attempt <= i < attempt + Z.of_nat remaining /\ seconds = 2 ^ i.

(** ** Error records by type *)

(** The number of error records whose exception has the type name
    [error_type]. *)
Definition errors_of_type (type_name : exn -> string) (error_type : string)
           (records : list (option value * exn)) : Z :=
  Z.of_nat (List.length
              (filter (fun error => (type_name (snd error) =? error_type)%string) records)).

(** The count a dictionary of counts holds for a key, 0 when absent. *)
Definition count_at (counts : dict Z) (k : string) : Z :=
  match dict_get counts k with
  | Some n => n
  | None => 0
  end.

(** * Properties *)

(** ** The source client: retries, backoff and rate limiting *)

Section ClientProperties.
Import Json FMCSAClient.

Variable c : client.
Variable srv : server.

Lemma transient_step remaining attempt w :
  transient (srv (requests w)) = true ->
  attempts c srv (S remaining) attempt w =
  attempts c srv remaining (attempt + 1) (backoff c attempt (request_sent w)).
Proof.
  intros Ht. cbn [attempts].
  destruct (srv (requests w)) as [code header body | | e]; cbn in Ht; try discriminate.
  - assert ((code =? 429) = false) as -> by lia.
    assert (is_success code = false) as -> by (unfold is_success; lia).
    rewrite Ht. reflexivity.
  - reflexivity.
Qed.

Lemma rate_limit_step remaining attempt w seconds :
  hint_of (srv (requests w)) = Some seconds ->
  attempts c srv (S remaining) attempt w =
  attempts c srv remaining (attempt + 1) (sleep (inject_Z seconds) (request_sent w)).
Proof.
  intros Hh. cbn [attempts].
  destruct (srv (requests w)) as [code header body | | e]; cbn in Hh; try discriminate.
  destruct (Z.eqb_spec code 429) as [-> | Hne].
  - destruct (retry_after_seconds header); [ | discriminate].
    injection Hh as ->. reflexivity.
  - exfalso. destruct code as [ | p | p]; try discriminate.
    do 9 (destruct p as [p | p | ]; try discriminate). now apply Hne.
Qed.

Lemma map_seq_shift {A} (f : nat -> A) n :
  map f (seq 1 n) = map (fun k => f (S k)) (seq 0 n).
Proof. now rewrite <- seq_shift, map_map. Qed.

(** Transient replies on every iteration that is left: the loop runs out
    after one backoff per attempt but the last. *)
Lemma attempts_all_transient remaining : forall attempt w,
  attempt + Z.of_nat remaining = max_retries c ->
  (forall i, (i < remaining)%nat -> transient (srv (requests w + i)%nat) = true) ->
  attempts c srv remaining attempt w =
  (Raise (terminal_error c),
   mkWorld (requests w + remaining)%nat
           (slept w ++ map (fun k => delay c (attempt + Z.of_nat k))
                           (seq 0 (remaining - 1)))
           (total_requests w) (total_records w) (failed_requests w + 1)).
Proof.
  induction remaining as [ | n IH]; intros attempt w Hsum Hall.
  - cbn. rewrite Nat.add_0_r, List.app_nil_r. reflexivity.
  - rewrite transient_step by (specialize (Hall 0%nat); rewrite Nat.add_0_r in Hall; apply Hall; lia).
    unfold backoff.
    destruct n as [ | m].
    + assert ((attempt <? max_retries c - 1) = false) as -> by lia.
      cbn. rewrite List.app_nil_r. unfold count_failure, request_sent. cbn.
      do 2 f_equal. lia.
    + assert ((attempt <? max_retries c - 1) = true) as -> by lia.
      rewrite IH.
      * cbn [requests slept sleep request_sent total_requests total_records failed_requests].
        f_equal. f_equal; [lia | ].
        rewrite <- List.app_assoc. f_equal.
        replace (S (S m) - 1)%nat with (S m) by lia.
        replace (S m - 1)%nat with m by lia.
        cbn [seq map app]. rewrite Z.add_0_r. fold (delay c attempt). f_equal.
        rewrite map_seq_shift. apply map_ext. intros k. f_equal. lia.
      * lia.
      * intros i Hi. cbn [requests sleep request_sent].
        replace (S (requests w) + i)%nat with (requests w + S i)%nat by lia.
        apply Hall. lia.
Qed.

(** Transient replies to the first [k] attempts, with attempts left after
    them: the client has slept the [k] backoff delays and goes on. *)
Lemma attempts_transient_prefix k : forall n attempt w,
  attempt + Z.of_nat (k + n) = max_retries c ->
  (1 <= n)%nat ->
  (forall i, (i < k)%nat -> transient (srv (requests w + i)%nat) = true) ->
  attempts c srv (k + n) attempt w =
  attempts c srv n (attempt + Z.of_nat k)
    (mkWorld (requests w + k)%nat
             (slept w ++ map (fun j => delay c (attempt + Z.of_nat j)) (seq 0 k))
             (total_requests w) (total_records w) (failed_requests w)).
Proof.
  induction k as [ | k IH]; intros n attempt w Hsum Hn Hall.
  - cbn [Nat.add seq map]. rewrite Z.add_0_r, Nat.add_0_r, List.app_nil_r.
    now destruct w.
  - cbn [Nat.add].
    rewrite transient_step
      by (specialize (Hall 0%nat); rewrite Nat.add_0_r in Hall; apply Hall; lia).
    unfold backoff.
    assert ((attempt <? max_retries c - 1) = true) as -> by lia.
    rewrite IH.
    + cbn [requests slept sleep request_sent total_requests total_records failed_requests].
      f_equal; [lia | ]. f_equal; [lia | ].
      rewrite <- List.app_assoc. f_equal.
      cbn [seq map app]. rewrite Z.add_0_r. fold (delay c attempt). f_equal.
      rewrite map_seq_shift. apply map_ext. intros j. f_equal. lia.
    + lia.
    + exact Hn.
    + intros i Hi. cbn [requests sleep request_sent].
      replace (S (requests w) + i)%nat with (requests w + S i)%nat by lia.
      apply Hall. lia.
Qed.

(** 429 replies to the first [k] iterations: each one has used up an
    iteration, the client has slept the hinted seconds and no backoff
    delay. *)
Lemma attempts_rate_limited_prefix (seconds : nat -> Z) k : forall n attempt w shift,
  (forall i, (i < k)%nat ->
             hint_of (srv (requests w + i)%nat) = Some (seconds (shift + i)%nat)) ->
  attempts c srv (k + n) attempt w =
  attempts c srv n (attempt + Z.of_nat k)
    (mkWorld (requests w + k)%nat
             (slept w ++ map (fun i => inject_Z (seconds (shift + i)%nat)) (seq 0 k))
             (total_requests w) (total_records w) (failed_requests w)).
Proof.
  induction k as [ | k IH]; intros n attempt w shift Hall.
  - cbn [Nat.add seq map]. rewrite Z.add_0_r, Nat.add_0_r, List.app_nil_r.
    now destruct w.
  - cbn [Nat.add].
    rewrite rate_limit_step with (seconds := seconds shift)
      by (specialize (Hall 0%nat); rewrite !Nat.add_0_r in Hall; apply Hall; lia).
    rewrite IH with (shift := S shift).
    + cbn [requests slept sleep request_sent total_requests total_records failed_requests].
      f_equal; [lia | ]. f_equal; [lia | ].
      rewrite <- List.app_assoc. f_equal.
      cbn [seq map app]. rewrite Nat.add_0_r. f_equal.
      rewrite map_seq_shift. apply map_ext. intros j. do 2 f_equal. lia.
    + intros i Hi. cbn [requests sleep request_sent].
      replace (S (requests w) + i)%nat with (requests w + S i)%nat by lia.
      rewrite Hall by lia. do 2 f_equal. lia.
Qed.

End ClientProperties.

(** C9.  When the first [k] attempts of a page fetch all meet a transient
    failure (a timeout or a 5xx status), the client has waited
    [retry_delay * retry_backoff ^ attempt] after each failed attempt
    [0, 1, ...] that is not the last one; with attempts left it goes on to
    attempt [k], and with all [max_retries] attempts used it raises the
    terminal fetch error. *)
Theorem transient_failures_back_off_exponentially
        (c : FMCSAClient.client) (srv : FMCSAClient.server)
        (w : FMCSAClient.world) (k : nat) :
  (k <= Z.to_nat (FMCSAClient.max_retries c))%nat ->
  (forall i, (i < k)%nat -> transient (srv (FMCSAClient.requests w + i)%nat) = true) ->
  FMCSAClient.fetch_batch c srv w =
  if (k <? Z.to_nat (FMCSAClient.max_retries c))%nat
  then
    FMCSAClient.attempts c srv (Z.to_nat (FMCSAClient.max_retries c) - k) (Z.of_nat k)
      (FMCSAClient.mkWorld
         (FMCSAClient.requests w + k)%nat
         (FMCSAClient.slept w ++ map (fun j => delay c (Z.of_nat j)) (seq 0 k))
         (FMCSAClient.total_requests w) (FMCSAClient.total_records w)
         (FMCSAClient.failed_requests w))
  else
    (Raise (FMCSAClient.terminal_error c),
     FMCSAClient.mkWorld
       (FMCSAClient.requests w + k)%nat
       (FMCSAClient.slept w ++ map (fun j => delay c (Z.of_nat j)) (seq 0 (k - 1)))
       (FMCSAClient.total_requests w) (FMCSAClient.total_records w)
       (FMCSAClient.failed_requests w + 1)).
Proof.
  intros Hk Hall. unfold FMCSAClient.fetch_batch.
  destruct (Nat.ltb_spec k (Z.to_nat (FMCSAClient.max_retries c))) as [Hlt | Hge].
  - replace (Z.to_nat (FMCSAClient.max_retries c))
      with (k + (Z.to_nat (FMCSAClient.max_retries c) - k))%nat at 1 by lia.
    rewrite attempts_transient_prefix; try assumption; try lia.
    reflexivity.
  - assert (k = Z.to_nat (FMCSAClient.max_retries c)) as Hk' by lia.
    rewrite <- Hk'.
    destruct (Z.le_gt_cases 0 (FMCSAClient.max_retries c)) as [Hpos | Hneg].
    + rewrite attempts_all_transient; try assumption; try lia. reflexivity.
    + assert (k = 0%nat) as -> by lia. cbn.
      rewrite Nat.add_0_r, List.app_nil_r. reflexivity.
Qed.

(** With the defaults (3 attempts, 1 second, factor 2.0) and a server that
    always times out, the client waits 1 second, then 2 seconds, and fails
    after the third request. *)
Lemma transient_failures_back_off_exponentially_witness :
  FMCSAClient.fetch_batch FMCSAClient.default_client
    (fun _ => FMCSAClient.TimedOut) FMCSAClient.start =
  (Raise (Exception "Failed to fetch data after 3 attempts"),
   FMCSAClient.mkWorld 3 [1%Q; 2%Q] 0 0 1).
Proof.
  rewrite (transient_failures_back_off_exponentially
             FMCSAClient.default_client (fun _ => FMCSAClient.TimedOut)
             FMCSAClient.start 3).
  - reflexivity.
  - vm_compute. lia.
  - intros i Hi. reflexivity.
Defined.

(** The claim C8 fails: with the default ceiling of three attempts, three
    429 replies in a row, each asking for 2 seconds, end the fetch with the
    terminal error.  Nothing else went wrong, and the client waited 2
    seconds three times. *)
Lemma rate_limit_alone_exhausts_retries :
  FMCSAClient.fetch_batch FMCSAClient.default_client
    (fun _ => FMCSAClient.Response 429 (Some "2") None) FMCSAClient.start =
  (Raise (Exception "Failed to fetch data after 3 attempts"),
   FMCSAClient.mkWorld 3 [2%Q; 2%Q; 2%Q] 0 0 1).
Proof. reflexivity. Qed.

(** C8, amended.  When the first [k] attempts of a page fetch are all
    answered by 429 with a Retry-After the client can read as an integer
    (60 when the header is absent), the client has slept exactly the hinted
    seconds before each next attempt and no backoff delay, and each 429 has
    used up one of the [max_retries] attempts: with attempts left it goes
    on to attempt [k], and when [k] reaches [max_retries] the fetch raises
    the terminal error. *)
Theorem rate_limited_attempts_use_the_retry_ceiling
        (c : FMCSAClient.client) (srv : FMCSAClient.server)
        (w : FMCSAClient.world) (seconds : nat -> Z) (k : nat) :
  (k <= Z.to_nat (FMCSAClient.max_retries c))%nat ->
  (forall i, (i < k)%nat ->
             hint_of (srv (FMCSAClient.requests w + i)%nat) = Some (seconds i)) ->
  let waited :=
    FMCSAClient.slept w ++ map (fun i => inject_Z (seconds i)) (seq 0 k) in
  FMCSAClient.fetch_batch c srv w =
  if (k <? Z.to_nat (FMCSAClient.max_retries c))%nat
  then
    FMCSAClient.attempts c srv (Z.to_nat (FMCSAClient.max_retries c) - k) (Z.of_nat k)
      (FMCSAClient.mkWorld
         (FMCSAClient.requests w + k)%nat waited
         (FMCSAClient.total_requests w) (FMCSAClient.total_records w)
         (FMCSAClient.failed_requests w))
  else
    (Raise (FMCSAClient.terminal_error c),
     FMCSAClient.mkWorld
       (FMCSAClient.requests w + k)%nat waited
       (FMCSAClient.total_requests w) (FMCSAClient.total_records w)
       (FMCSAClient.failed_requests w + 1)).
Proof.
  intros Hk Hall waited. unfold FMCSAClient.fetch_batch.
  replace (Z.to_nat (FMCSAClient.max_retries c))
    with (k + (Z.to_nat (FMCSAClient.max_retries c) - k))%nat at 1 by lia.
  rewrite (attempts_rate_limited_prefix c srv seconds k _ 0 w 0%nat) by exact Hall.
  destruct (Nat.ltb_spec k (Z.to_nat (FMCSAClient.max_retries c))) as [Hlt | Hge].
  - reflexivity.
  - replace (Z.to_nat (FMCSAClient.max_retries c) - k)%nat with 0%nat by lia.
    reflexivity.
Qed.

(** Two 429 replies asking for 2 and 5 seconds, then a page: the client
    sleeps 2 and 5 seconds and is left with its third and last attempt. *)
Lemma rate_limited_attempts_use_the_retry_ceiling_witness :
  FMCSAClient.fetch_batch FMCSAClient.default_client
    (fun n => match n with
              | 0%nat => FMCSAClient.Response 429 (Some "2") None
              | 1%nat => FMCSAClient.Response 429 (Some "5") None
              | _ => FMCSAClient.Response 200 None (Some [])
              end)
    FMCSAClient.start =
  (Ok [], FMCSAClient.mkWorld 3 [2%Q; 5%Q] 1 0 0).
Proof.
  rewrite (rate_limited_attempts_use_the_retry_ceiling
             FMCSAClient.default_client _ FMCSAClient.start
             (fun i => match i with 0%nat => 2 | _ => 5 end) 2).
  - reflexivity.
  - vm_compute. lia.
  - intros i Hi. destruct i as [ | [ | i]]; [reflexivity | reflexivity | lia].
Defined.

(** ** The initial-load script *)

(** The claim C5 fails: a call without a limit, told of 2.2 million
    carriers and answered n at the prompt, returns without raising
    anything. *)
Lemma run_initial_load_cancelled_returns :
  InitialLoad.run_initial_load (D := Postgres.postgres) None 1000
    (InitialLoad.mkSurroundings (Ok tt) (Ok 2200000) "n" (Ok tt))
    [[[("usdot_number", VInt 1)]]] [] =
  (Ok tt, []).
Proof. reflexivity. Qed.

(** C5, amended.  No call of [run_initial_load] changes the store,
    whatever its arguments and whatever the pages the endpoint would serve;
    every call that reaches the ingestion step, with a database that
    starts and shuts down without error, raises the [TypeError] for the
    keyword [limit], for every [limit] and [batch_size]; a call without a
    limit that is told of more than 100000 carriers and is answered at the
    prompt with anything but y returns normally, again with a database
    that starts and shuts down without error; and when the shutdown of
    the database raises, the call raises that exception, whatever came
    before. *)
Theorem run_initial_load_never_ingests
        {D : Store.Database} (limit : option Z) (batch_size : Z)
        (env : InitialLoad.surroundings) (pages : list (list Json.RawRecord))
        (d : Store.db) :
  snd (InitialLoad.run_initial_load limit batch_size env pages d) = d /\
  (InitialLoad.initialize_database env = Ok tt ->
   InitialLoad.close_database env = Ok tt ->
   reaches_ingestion limit env = true ->
   fst (InitialLoad.run_initial_load limit batch_size env pages d) =
   Raise unexpected_limit) /\
  (forall total_count,
      InitialLoad.initialize_database env = Ok tt ->
      InitialLoad.close_database env = Ok tt ->
      InitialLoad.given limit = false ->
      InitialLoad.get_total_count env = Ok total_count ->
      100000 < total_count ->
      lower (InitialLoad.input env) <> "y"%string ->
      InitialLoad.run_initial_load limit batch_size env pages d = (Ok tt, d)) /\
  (forall e,
      InitialLoad.close_database env = Raise e ->
      fst (InitialLoad.run_initial_load limit batch_size env pages d) = Raise e).
Proof.
  unfold InitialLoad.run_initial_load, InitialLoad.load, reaches_ingestion.
  split; [ | split; [ | split]].
  - destruct (InitialLoad.initialize_database env); [ | reflexivity].
    destruct limit as [n | ]; [destruct (n =? 0) | ]; cbn;
      try (destruct (InitialLoad.get_total_count env) as [total | e]; cbn;
           [ | reflexivity]);
      repeat match goal with
             | |- context [if ?b then _ else _] => destruct b; cbn
             end; reflexivity.
  - intros -> -> Hreach.
    destruct limit as [n | ]; cbn in *.
    + destruct (n =? 0); cbn in *; [ | reflexivity].
      destruct (InitialLoad.get_total_count env) as [total | e]; [ | discriminate].
      assert ((100000 <? total) && negb (lower (InitialLoad.input env) =? "y")%string = false)
        as -> by (destruct (lower (InitialLoad.input env) =? "y")%string; cbn in *; lia).
      reflexivity.
    + destruct (InitialLoad.get_total_count env) as [total | e]; [ | discriminate].
      assert ((100000 <? total) && negb (lower (InitialLoad.input env) =? "y")%string = false)
        as -> by (destruct (lower (InitialLoad.input env) =? "y")%string; cbn in *; lia).
      reflexivity.
  - intros total_count -> -> Hgiven Hcount Hlarge Hanswer.
    assert ((100000 <? total_count) = true) as Hlt by (apply Z.ltb_lt; exact Hlarge).
    assert ((lower (InitialLoad.input env) =? "y")%string = false) as Hno
        by (apply String.eqb_neq; exact Hanswer).
    destruct limit as [n | ]; cbn in Hgiven |- *.
    + destruct (n =? 0); [ | discriminate]. cbn.
      rewrite Hcount, Hlt, Hno. reflexivity.
    + rewrite Hcount, Hlt, Hno. reflexivity.
  - intros e ->.
    destruct (InitialLoad.initialize_database env); [ | reflexivity].
    destruct limit as [n | ]; [destruct (n =? 0) | ]; cbn;
      try (destruct (InitialLoad.get_total_count env) as [total | e']; cbn;
           [ | reflexivity]);
      repeat match goal with
             | |- context [if ?b then _ else _] => destruct b; cbn
             end; reflexivity.
Qed.

(** A limited load of 500 records on an empty table raises the
    [TypeError] and leaves the table empty. *)
Lemma run_initial_load_never_ingests_witness :
  InitialLoad.run_initial_load (D := Postgres.postgres) (Some 500) 1000
    (InitialLoad.mkSurroundings (Ok tt) (Ok 2200000) "y" (Ok tt))
    [[[("usdot_number", VInt 1)]]] [] =
  (Raise unexpected_limit, []).
Proof.
  pose proof (run_initial_load_never_ingests (D := Postgres.postgres) (Some 500) 1000
                (InitialLoad.mkSurroundings (Ok tt) (Ok 2200000) "y" (Ok tt))
                [[[("usdot_number", VInt 1)]]] []) as [Hstore [Hraise _]].
  specialize (Hraise eq_refl eq_refl eq_refl).
  destruct (InitialLoad.run_initial_load _ _ _ _ _) as [r d'].
  cbn in Hstore, Hraise. now subst.
Defined.

(** ** Checkpoints of the bulk fetcher *)

Section CheckpointProperties.
Import Json BulkFMCSAFetcher.

Variable batch_size : Z.
Variable total_count : Z.

Local Notation "'events_of' fetched p" := (fst (loop batch_size total_count fetched p))
  (at level 10, fetched at level 9, p at level 9).

(** The events of a run start with the fetch at the current offset. *)
Lemma loop_starts_with_fetch fetched p :
  match events_of fetched p with
  | [] => True
  | Fetched o :: _ => o = offset p
  | _ => False
  end.
Proof.
  destruct fetched as [ | batch rest]; cbn; [exact I | ].
  destruct (offset p <? total_count); [ | exact I].
  destruct batch as [ | r batch'].
  - destruct (3 <=? consecutive_empty p + 1); [reflexivity | ].
    destruct (loop batch_size total_count rest _). reflexivity.
  - destruct (loop batch_size total_count rest _). reflexivity.
Qed.

Lemma loop_every_tenth fetched : forall p,
  every_tenth (events_of fetched p) = true.
Proof.
  induction fetched as [ | batch rest IH]; intros p; cbn; [reflexivity | ].
  destruct (offset p <? total_count); [ | reflexivity].
  destruct batch as [ | r batch'].
  - destruct (3 <=? consecutive_empty p + 1); [reflexivity | ].
    match goal with
    | |- context [loop batch_size total_count rest ?q] =>
        specialize (IH q); destruct (loop batch_size total_count rest q) as [events q']
    end.
    exact IH.
  - match goal with
    | |- context [loop batch_size total_count rest ?q] =>
        specialize (IH q); pose proof (loop_starts_with_fetch rest q) as Hhead;
        destruct (loop batch_size total_count rest q) as [events q']
    end.
    cbn [fst] in *.
    destruct (batch_num p mod 10 =? 0) eqn:Hmod; cbn [app every_tenth].
    + rewrite Hmod, IH. reflexivity.
    + destruct events as [ | [o | n | o t] events'];
        [now rewrite Hmod | | contradiction | contradiction].
      rewrite Hmod. exact IH.
Qed.

Lemma loop_resumable fetched : forall p,
  resumable (events_of fetched p) = true.
Proof.
  induction fetched as [ | batch rest IH]; intros p; cbn; [reflexivity | ].
  destruct (offset p <? total_count); [ | reflexivity].
  destruct batch as [ | r batch'].
  - destruct (3 <=? consecutive_empty p + 1); [reflexivity | ].
    match goal with
    | |- context [loop batch_size total_count rest ?q] =>
        specialize (IH q); destruct (loop batch_size total_count rest q) as [events q']
    end.
    exact IH.
  - match goal with
    | |- context [loop batch_size total_count rest ?q] =>
        specialize (IH q); pose proof (loop_starts_with_fetch rest q) as Hhead;
        destruct (loop batch_size total_count rest q) as [events q']
    end.
    cbn [fst offset] in *.
    destruct (batch_num p mod 10 =? 0); cbn [app resumable]; [ | exact IH].
    rewrite IH.
    destruct events as [ | [o | n | o t] events']; try contradiction; [reflexivity | ].
    subst o. now rewrite Z.eqb_refl.
Qed.

(** Before batch [b] is fetched, the batches saved since the last
    checkpoint are at most those numbered after the last multiple of ten
    below [b]; so at most ten are ever waiting for a checkpoint. *)
Lemma loop_unconfirmed fetched : forall p pending n,
  Z.of_nat pending <= (batch_num p - 1) mod 10 ->
  (unconfirmed pending (firstn n (events_of fetched p)) <= 10)%nat.
Proof.
  induction fetched as [ | batch rest IH]; intros p pending n Hpending.
  - cbn. rewrite firstn_nil. cbn.
    pose proof (Z.mod_pos_bound (batch_num p - 1) 10). lia.
  - assert (pending <= 9)%nat as Hnine
        by (pose proof (Z.mod_pos_bound (batch_num p - 1) 10); lia).
    cbn [loop].
    destruct (offset p <? total_count);
      [ | cbn; rewrite firstn_nil; cbn; lia].
    destruct batch as [ | r batch'].
    + cbn [consecutive_empty].
      destruct (3 <=? consecutive_empty p + 1).
      * destruct n as [ | n]; cbn; [lia | ]. rewrite firstn_nil. cbn. lia.
      * match goal with
        | |- context [loop batch_size total_count rest ?q] =>
            pose proof (fun pending n => IH q pending n) as IH';
            destruct (loop batch_size total_count rest q) as [events q']
        end.
        cbn [fst batch_num] in *.
        destruct n as [ | n]; [cbn; lia | ].
        cbn [firstn unconfirmed]. now apply IH'.
    + match goal with
      | |- context [loop batch_size total_count rest ?q] =>
          pose proof (fun pending n => IH q pending n) as IH';
          destruct (loop batch_size total_count rest q) as [events q']
      end.
      cbn [fst batch_num] in *.
      destruct n as [ | n]; [cbn; lia | ].
      destruct n as [ | n]; [cbn; lia | ].
      destruct (batch_num p mod 10 =? 0) eqn:Hmod; cbn [app firstn unconfirmed].
      * destruct n as [ | n]; [cbn; lia | ].
        cbn [firstn unconfirmed]. apply IH'.
        replace (batch_num p + 1 - 1) with (batch_num p) by lia.
        apply Z.eqb_eq in Hmod. rewrite Hmod. cbn. lia.
      * apply IH'.
        replace (batch_num p + 1 - 1) with (batch_num p) by lia.
        apply Z.eqb_neq in Hmod.
        revert Hpending Hmod. generalize (batch_num p). intros b.
        Z.div_mod_to_equations. lia.
Qed.

End CheckpointProperties.

(** The bound of ten is reached: in a fresh run cut short right after the
    eleventh batch is saved, the ten batches 1 to 10 have no checkpoint
    after them. *)
Example ten_batches_wait_for_a_checkpoint :
  let page := [[("usdot_number", VInt 1)]] in
  let events :=
    fst (BulkFMCSAFetcher.loop 50000 2200000 (repeat page 11)
           (BulkFMCSAFetcher.resume 50000 0 0 0)) in
  BulkFMCSAFetcher.unconfirmed 0 (firstn 23 events) = 10%nat /\
  BulkFMCSAFetcher.checkpoint_file None (firstn 23 events) = Some (50000, 1) /\
  BulkFMCSAFetcher.checkpoint_file None events = Some (550000, 11).
Proof. repeat split. Qed.

(** The claim C7 fails: after three pages of a fresh run, the checkpoint
    file still holds the checkpoint written after the first one (offset
    50000), and the two batches saved since would be fetched again on
    resume. *)
Lemma two_batches_without_checkpoint :
  let page := [[("usdot_number", VInt 1)]] in
  let events :=
    fst (BulkFMCSAFetcher.loop 50000 2200000 [page; page; page]
           (BulkFMCSAFetcher.resume 50000 0 0 0)) in
  events = [BulkFMCSAFetcher.Fetched 0;
            BulkFMCSAFetcher.SavedBatch 0; BulkFMCSAFetcher.SavedCheckpoint 50000 1;
            BulkFMCSAFetcher.Fetched 50000; BulkFMCSAFetcher.SavedBatch 1;
            BulkFMCSAFetcher.Fetched 100000; BulkFMCSAFetcher.SavedBatch 2] /\
  BulkFMCSAFetcher.checkpoint_file None events = Some (50000, 1) /\
  BulkFMCSAFetcher.unconfirmed 0 events = 2%nat.
Proof. repeat split. Qed.

(** C7, amended.  Whatever the batch size, the count, the pages fetched and
    the point a run starts from: a checkpoint is written right after a
    batch is saved exactly for the batch numbers that are multiples of ten,
    and nowhere else; the fetch that follows a checkpoint write asks for
    the offset the checkpoint holds; and wherever the run is cut short, at
    most ten saved batches have no checkpoint after them, so at most ten
    are fetched again on resume. *)
Theorem checkpoint_every_tenth_batch
        (batch_size total_count : Z) (fetched : list (list Json.RawRecord))
        (p : BulkFMCSAFetcher.progress) :
  let events := fst (BulkFMCSAFetcher.loop batch_size total_count fetched p) in
  BulkFMCSAFetcher.every_tenth events = true /\
  BulkFMCSAFetcher.resumable events = true /\
  forall n, (BulkFMCSAFetcher.unconfirmed 0 (firstn n events) <= 10)%nat.
Proof.
  split; [ | split].
  - apply loop_every_tenth.
  - apply loop_resumable.
  - intros n. apply loop_unconfirmed.
    pose proof (Z.mod_pos_bound (BulkFMCSAFetcher.batch_num p - 1) 10). lia.
Qed.

(** ** The loader and the error budget *)

Section PipelineProperties.
Import Json CarrierDataNormalizer Store IngestionPipeline.

Context {D : Database}.
Variable batch_size : Z.
Variable max_errors : Z.

(** The status text moves at most one of the two counters, and leaves the
    error count alone. *)
Lemma count_result_cases status s s' :
  count_result status s = Ok s' ->
  s' = s \/ (exists n, s' = add_inserted n s) \/ (exists n, s' = add_updated n s).
Proof.
  unfold count_result.
  destruct (status =? "")%string; [intros H; injection H as <-; now left | ].
  destruct (index (split status) 0) as [word | e]; cbn [bind]; [ | discriminate].
  destruct (word =? "INSERT")%string.
  - destruct (index (split status) 2) as [text | e]; cbn [bind]; [ | discriminate].
    destruct (int (VStr text)) as [n | e]; cbn [bind]; [ | discriminate].
    intros H; injection H as <-. right; left. now exists n.
  - destruct (word =? "UPDATE")%string; [ | intros H; injection H as <-; now left].
    destruct (index (split status) 1) as [text | e]; cbn [bind]; [ | discriminate].
    destruct (int (VStr text)) as [n | e]; cbn [bind]; [ | discriminate].
    intros H; injection H as <-. right; right. now exists n.
Qed.

Lemma count_result_errors status s s' :
  count_result status s = Ok s' -> total_errors s' = total_errors s.
Proof.
  intros H. destruct (count_result_cases _ _ _ H) as [-> | [[n ->] | [n ->]]];
    reflexivity.
Qed.

(** [_process_batch] never reads [is_update]. *)
Lemma process_batch_ignores_is_update records st :
  _process_batch records true st = _process_batch records false st.
Proof. reflexivity. Qed.

(** The write is chosen by the size of the batch alone. *)
Lemma process_batch_path records is_update st :
  records <> [] ->
  paths (snd (_process_batch records is_update st)) =
  paths st ++ [if 100 <? Z.of_nat (List.length records) then Copy else Upsert].
Proof.
  intros Hne. unfold _process_batch.
  destruct records as [ | r records']; [contradiction | ].
  set (n := Z.of_nat (List.length (r :: records'))).
  destruct (100 <? n).
  - destruct (copy_records_to_table _ _) as [[ [] | e] d]; reflexivity.
  - destruct (execute_upsert _ _) as [[status | e] d]; [ | reflexivity].
    cbn. destruct (count_result status (stats st)); reflexivity.
Qed.

Lemma process_batch_processed records is_update st :
  processed (snd (_process_batch records is_update st)) = processed st.
Proof.
  unfold _process_batch.
  destruct records as [ | r records']; [reflexivity | ].
  set (n := Z.of_nat (List.length (r :: records'))).
  destruct (100 <? n).
  - destruct (copy_records_to_table _ _) as [[ [] | e] d]; reflexivity.
  - destruct (execute_upsert _ _) as [[status | e] d]; [ | reflexivity].
    cbn. destruct (count_result status (stats st)); reflexivity.
Qed.

(** A write that does not raise leaves the error count as it was; one that
    raises can only increase it. *)
Lemma process_batch_errors records is_update st :
  match _process_batch records is_update st with
  | (Ok _, st') => total_errors (stats st') = total_errors (stats st)
  | (Raise _, st') => total_errors (stats st) <= total_errors (stats st')
  end.
Proof.
  unfold _process_batch.
  destruct records as [ | r records']; [reflexivity | ].
  set (n := Z.of_nat (List.length (r :: records'))).
  assert (0 <= n) by (subst n; lia).
  destruct (100 <? n).
  - destruct (copy_records_to_table _ _) as [[ [] | e] d]; cbn; lia.
  - destruct (execute_upsert _ _) as [[status | e] d]; cbn; [ | lia].
    destruct (count_result status (stats st)) eqn:Hc; cbn; [ | lia].
    now apply count_result_errors in Hc.
Qed.

Lemma full_record_processed record buffer st :
  processed (snd (snd (full_record batch_size max_errors record buffer st))) =
  S (processed st).
Proof.
  unfold full_record, buffer_record.
  destruct (normalize record) as [normalized | e]; [ | reflexivity].
  destruct (batch_size <=? _); [ | reflexivity].
  pose proof (process_batch_processed (buffer ++ [normalized]) false (count_processed st)) as Hp.
  destruct (_process_batch _ _ _) as [[ [] | e] st']; cbn in *; exact Hp.
Qed.

(** The inner loop is left through [break] only with the error count at
    or above [max_errors]. *)
Lemma full_record_break record buffer st bs :
  full_record batch_size max_errors record buffer st = (true, bs) ->
  max_errors <= total_errors (stats (snd bs)).
Proof.
  unfold full_record.
  destruct (buffer_record _ _ _ _ _) as [[ [] | e] [buffer' st']].
  - discriminate.
  - intros H. injection H as Hle <-. cbn in *. lia.
Qed.

(** A page that leaves the error count below [max_errors] was processed
    to its last record. *)
Lemma full_page_processed api_batch : forall buffer st,
  let st' := snd (full_page batch_size max_errors api_batch buffer st) in
  total_errors (stats st') < max_errors ->
  processed st' = (processed st + List.length api_batch)%nat.
Proof.
  induction api_batch as [ | record rest IH]; intros buffer st; cbn.
  - lia.
  - pose proof (full_record_processed record buffer st) as Hp.
    destruct (full_record batch_size max_errors record buffer st) as [[ | ] [buffer' st1]] eqn:Hr.
    + apply full_record_break in Hr. cbn in *. lia.
    + cbn in Hp. intros Hlt. specialize (IH buffer' st1 Hlt). cbn in IH. lia.
Qed.

Lemma full_pages_stopped pages : forall buffer st bs,
  full_pages batch_size max_errors pages buffer st = (true, bs) ->
  max_errors <= total_errors (stats (snd bs)).
Proof.
  induction pages as [ | api_batch rest IH]; intros buffer st bs; cbn.
  - discriminate.
  - destruct (full_page _ _ _ _ _) as [buffer' st'].
    destruct (max_errors <=? total_errors (stats st')) eqn:Hle.
    + intros H. injection H as <-. cbn. lia.
    + apply IH.
Qed.

Lemma full_pages_completed pages : forall buffer st bs,
  full_pages batch_size max_errors pages buffer st = (false, bs) ->
  processed (snd bs) = (processed st + record_count pages)%nat /\
  (pages <> [] -> total_errors (stats (snd bs)) < max_errors).
Proof.
  unfold record_count.
  induction pages as [ | api_batch rest IH]; intros buffer st bs; cbn.
  - intros H. injection H as <-. cbn. split; [lia | congruence].
  - pose proof (full_page_processed api_batch buffer
                  (with_stats (add_fetched (Z.of_nat (List.length api_batch))) st)) as Hp.
    destruct (full_page _ _ _ _ _) as [buffer' st'].
    cbn in Hp.
    destruct (max_errors <=? total_errors (stats st')) eqn:Hle; [discriminate | ].
    intros H. destruct (IH _ _ _ H) as [Hcount Herr].
    rewrite length_app. split.
    + rewrite Hcount, Hp by lia. lia.
    + intros _. destruct rest as [ | page' rest'].
      * cbn in H. injection H as <-. cbn. lia.
      * apply Herr. discriminate.
Qed.

(** Once the loop has been left early, pages that would follow are never
    fetched. *)
Lemma full_pages_extend pages more : forall buffer st bs,
  full_pages batch_size max_errors pages buffer st = (true, bs) ->
  full_pages batch_size max_errors (pages ++ more) buffer st = (true, bs).
Proof.
  induction pages as [ | api_batch rest IH]; intros buffer st bs; cbn.
  - discriminate.
  - destruct (full_page _ _ _ _ _) as [buffer' st'].
    destruct (max_errors <=? total_errors (stats st')); [trivial | apply IH].
Qed.

(** A record leaves the inner loop exactly when its handling raised and
    the error count, the new error included, is at or above
    [max_errors]. *)
Lemma full_record_leaves record buffer st :
  fst (full_record batch_size max_errors record buffer st) = true <->
  is_ok (fst (buffer_record batch_size false record buffer st)) = false /\
  max_errors <=
  total_errors (stats (snd (snd (full_record batch_size max_errors record buffer st)))).
Proof.
  unfold full_record.
  destruct (buffer_record batch_size false record buffer st)
    as [[ [] | e] [buffer' st']]; cbn.
  - split; [discriminate | intros [Hno _]; discriminate].
  - rewrite Z.leb_le. split; [intros H; now split | intros [_ H]; exact H].
Qed.

(** Records that follow a [break] in their page are not read: a page
    whose first part ends below [max_errors] and whose next record leaves
    the loop ends in the state of that record, whatever follows it. *)
Lemma full_page_skips_the_rest before : forall record rest buffer st bs,
  total_errors (stats (snd (full_page batch_size max_errors before buffer st))) <
  max_errors ->
  full_record batch_size max_errors record
    (fst (full_page batch_size max_errors before buffer st))
    (snd (full_page batch_size max_errors before buffer st)) = (true, bs) ->
  full_page batch_size max_errors (before ++ record :: rest) buffer st = bs.
Proof.
  induction before as [ | first before' IH]; intros record rest buffer st bs; cbn.
  - intros _ Hbreak. now rewrite Hbreak.
  - destruct (full_record batch_size max_errors first buffer st)
      as [[ | ] [buffer' st']] eqn:Hfirst.
    + apply full_record_break in Hfirst. cbn in *. lia.
    + apply IH.
Qed.

(** The write after the loop: what [finish] returns is the result of one
    more [_process_batch], on the records left in the buffer. *)
Lemma finish_writes_the_rest stopped buffer st :
  let r := finish stopped (buffer, st) in
  (buffer = [] -> outcome r = Ok (stats st) /\ final r = st) /\
  (buffer <> [] ->
   final r = snd (_process_batch buffer false st) /\
   outcome r = (_ <- fst (_process_batch buffer false st) ;; Ok (stats (final r))) /\
   paths (final r) =
   paths st ++ [if 100 <? Z.of_nat (List.length buffer) then Copy else Upsert]).
Proof.
  cbn zeta. split.
  - intros ->. now split.
  - intros Hne.
    pose proof (process_batch_path buffer false st Hne) as Hpath.
    unfold finish. destruct buffer as [ | n buffer']; [contradiction | ].
    destruct (_process_batch (n :: buffer') false st) as [[ [] | e] st'];
      cbn in Hpath |- *; now repeat split.
Qed.

Lemma finish_ok stopped bs s :
  outcome (finish stopped bs) = Ok s ->
  s = stats (final (finish stopped bs)) /\
  total_errors s = total_errors (stats (snd bs)).
Proof.
  unfold finish. destruct bs as [buffer st].
  destruct buffer as [ | n buffer'].
  - cbn. intros H. injection H as <-. now split.
  - pose proof (process_batch_errors (n :: buffer') false st) as He.
    destruct (_process_batch _ _ _) as [[ [] | e] st']; cbn; [ | discriminate].
    intros H. injection H as <-. now split.
Qed.

Lemma finish_errors stopped bs :
  total_errors (stats (snd bs)) <= total_errors (stats (final (finish stopped bs))).
Proof.
  unfold finish. destruct bs as [buffer st].
  destruct buffer as [ | n buffer']; [cbn; lia | ].
  pose proof (process_batch_errors (n :: buffer') false st) as He.
  destruct (_process_batch _ _ _) as [[ [] | e] st']; cbn; lia.
Qed.

Lemma finish_processed stopped bs :
  processed (final (finish stopped bs)) = processed (snd bs) /\
  IngestionPipeline.stopped (finish stopped bs) = stopped.
Proof.
  unfold finish. destruct bs as [buffer st].
  destruct buffer as [ | n buffer']; [now split | ].
  pose proof (process_batch_processed (n :: buffer') false st) as Hp.
  destruct (_process_batch _ _ _) as [[ [] | e] st']; cbn in *; now split.
Qed.

End PipelineProperties.

(** The claim C2 fails: with the default budget of 100, a page of 100
    records without a key followed by one good record makes exactly 100
    errors, and the run stops there: the loop is left early after 100 of
    the 101 records and the good record is never loaded.  The incremental
    run on a page with 101 such records and the good one does not stop at
    all. *)
Lemma run_stops_at_exactly_the_budget :
  let full :=
    IngestionPipeline.run_full_ingestion (D := Postgres.postgres) 1000 100
      [repeat keyless 100 ++ [carrier 1]] [] in
  let incremental :=
    IngestionPipeline.run_incremental_update (D := Postgres.postgres) 1000
      [repeat keyless 101 ++ [carrier 1]] [] in
  (option_map IngestionPipeline.total_errors
     (match IngestionPipeline.outcome full with Ok s => Some s | Raise _ => None end)
   = Some 100 /\
   IngestionPipeline.stopped full = true /\
   IngestionPipeline.processed (IngestionPipeline.final full) = 100%nat /\
   IngestionPipeline.database (IngestionPipeline.final full) = []) /\
  (option_map IngestionPipeline.total_errors
     (match IngestionPipeline.outcome incremental with Ok s => Some s | Raise _ => None end)
   = Some 101 /\
   IngestionPipeline.processed (IngestionPipeline.final incremental) = 102%nat /\
   List.length (IngestionPipeline.database (IngestionPipeline.final incremental)) = 1%nat).
Proof. vm_compute. repeat split. Qed.

(** A run that was stopped can also end in an exception.  With batches of
    2 and a budget of 3, a page with carrier 7 twice fills the buffer; the
    insert-or-update of the two rows fails, which counts 2 errors for the
    batch and 1 for the record, and the loop is left with the buffer still
    full; the write after the loop fails again on the same two rows, and
    the run raises with 5 errors and no row stored. *)
Lemma stopped_run_can_end_in_an_exception :
  let r :=
    IngestionPipeline.run_full_ingestion (D := Postgres.postgres) 2 3
      [[carrier 7; carrier 7]; [carrier 8]] [] in
  IngestionPipeline.stopped r = true /\
  is_ok (IngestionPipeline.outcome r) = false /\
  IngestionPipeline.total_errors (IngestionPipeline.stats (IngestionPipeline.final r)) = 5 /\
  IngestionPipeline.paths (IngestionPipeline.final r) =
  [IngestionPipeline.Upsert; IngestionPipeline.Upsert] /\
  IngestionPipeline.processed (IngestionPipeline.final r) = 2%nat /\
  IngestionPipeline.database (IngestionPipeline.final r) = [].
Proof. vm_compute. repeat split. Qed.

(** C2, amended.  In a full-ingestion run, for every store, batch size,
    error budget and sequence of pages: the page loop is left early only
    with the error count at or above [max_errors]; a run whose loop is not
    left early has handed every fetched record to the normalizer; a run
    over at least one page that returns its statistics was stopped exactly
    when its error count is [max_errors] or more; and pages after the point
    where a run stopped change nothing.  Inside a page, a record leaves the
    loop exactly when its handling raised and the error count, that error
    included, is [max_errors] or more, and the records after it in the
    page are not read.  A run over at least one page leaves the page loop
    early exactly when the error count at the end of the loop is
    [max_errors] or more, whatever its outcome.  After the loop, stopped or
    not, an empty buffer makes the run return the statistics as they are;
    otherwise the buffer is written once more, by the size of the buffer
    like any batch, and the run returns its statistics if that write
    succeeds and raises the exception of the write if it does not. *)
Theorem full_ingestion_stops_when_errors_reach_budget
        {D : Store.Database} (batch_size max_errors : Z)
        (pages : list (list Json.RawRecord)) (d : Store.db) :
  let r := IngestionPipeline.run_full_ingestion batch_size max_errors pages d in
  (IngestionPipeline.stopped r = true ->
   max_errors <=
   IngestionPipeline.total_errors (IngestionPipeline.stats (IngestionPipeline.final r))) /\
  (IngestionPipeline.stopped r = false ->
   IngestionPipeline.processed (IngestionPipeline.final r) = record_count pages) /\
  (forall s, pages <> [] -> IngestionPipeline.outcome r = Ok s ->
             (IngestionPipeline.stopped r = true <->
              max_errors <= IngestionPipeline.total_errors s)) /\
  (IngestionPipeline.stopped r = true ->
   forall more,
     IngestionPipeline.run_full_ingestion batch_size max_errors (pages ++ more) d = r) /\
  (forall record buffer st,
     fst (IngestionPipeline.full_record batch_size max_errors record buffer st) = true <->
     is_ok (fst (IngestionPipeline.buffer_record batch_size false record buffer st)) = false /\
     max_errors <=
     IngestionPipeline.total_errors
       (IngestionPipeline.stats
          (snd (snd (IngestionPipeline.full_record batch_size max_errors record buffer st))))) /\
  (forall before record rest buffer st bs,
     IngestionPipeline.total_errors
       (IngestionPipeline.stats
          (snd (IngestionPipeline.full_page batch_size max_errors before buffer st))) <
     max_errors ->
     IngestionPipeline.full_record batch_size max_errors record
       (fst (IngestionPipeline.full_page batch_size max_errors before buffer st))
       (snd (IngestionPipeline.full_page batch_size max_errors before buffer st)) =
     (true, bs) ->
     IngestionPipeline.full_page batch_size max_errors (before ++ record :: rest) buffer st =
     bs) /\
  (exists buffer st,
     IngestionPipeline.full_pages batch_size max_errors pages []
       (IngestionPipeline.mkState IngestionPipeline.new_stats d [] 0) =
     (IngestionPipeline.stopped r, (buffer, st)) /\
     (pages <> [] ->
      (IngestionPipeline.stopped r = true <->
       max_errors <= IngestionPipeline.total_errors (IngestionPipeline.stats st))) /\
     (buffer = [] ->
      IngestionPipeline.outcome r = Ok (IngestionPipeline.stats st) /\
      IngestionPipeline.final r = st) /\
     (buffer <> [] ->
      IngestionPipeline.final r =
      snd (IngestionPipeline._process_batch buffer false st) /\
      IngestionPipeline.outcome r =
      (_ <- fst (IngestionPipeline._process_batch buffer false st) ;;
       Ok (IngestionPipeline.stats (IngestionPipeline.final r))) /\
      IngestionPipeline.paths (IngestionPipeline.final r) =
      IngestionPipeline.paths st ++
      [if 100 <? Z.of_nat (List.length buffer)
       then IngestionPipeline.Copy else IngestionPipeline.Upsert])).
Proof.
  unfold IngestionPipeline.run_full_ingestion.
  destruct (IngestionPipeline.full_pages batch_size max_errors pages []
              (IngestionPipeline.mkState IngestionPipeline.new_stats d [] 0))
    as [stopped bs] eqn:Hloop.
  cbn zeta.
  destruct (finish_processed stopped bs) as [Hproc Hstop].
  pose proof (finish_errors stopped bs) as Hmono.
  rewrite Hstop.
  split; [ | split; [ | split; [ | split; [ | split; [ | split]]]]].
  - intros ->. apply full_pages_stopped in Hloop. lia.
  - intros ->. apply full_pages_completed in Hloop. destruct Hloop as [Hcount _].
    rewrite Hproc, Hcount. reflexivity.
  - intros s Hpages Hs. split.
    + intros ->. apply full_pages_stopped in Hloop.
      apply finish_ok in Hs. lia.
    + intros Hle. destruct stopped; [reflexivity | ].
      apply full_pages_completed in Hloop. destruct Hloop as [_ Herr].
      apply finish_ok in Hs. specialize (Herr Hpages). lia.
  - intros -> more. now rewrite (full_pages_extend _ _ _ _ _ _ _ Hloop).
  - intros record buffer st. apply full_record_leaves.
  - intros before record rest buffer st bs'. apply full_page_skips_the_rest.
  - destruct bs as [buffer st]. exists buffer, st.
    split; [reflexivity | split].
    + intros Hpages. destruct stopped.
      * apply full_pages_stopped in Hloop. cbn in Hloop. now split.
      * apply full_pages_completed in Hloop. destruct Hloop as [_ Herr].
        specialize (Herr Hpages). cbn in Herr. split; [discriminate | lia].
    + exact (finish_writes_the_rest stopped buffer st).
Qed.

(** With a budget of 2: two records without a key stop the run before the
    third record, and a page that would follow changes nothing; one record
    without a key does not stop it, and both records are processed. *)
Lemma full_ingestion_stops_when_errors_reach_budget_witness :
  let stopped_run :=
    IngestionPipeline.run_full_ingestion (D := Postgres.postgres) 1000 2
      [[keyless; keyless; carrier 1]] [] in
  let complete_run :=
    IngestionPipeline.run_full_ingestion (D := Postgres.postgres) 1000 2
      [[keyless; carrier 1]] [] in
  (2 <= IngestionPipeline.total_errors
          (IngestionPipeline.stats (IngestionPipeline.final stopped_run)) /\
   IngestionPipeline.run_full_ingestion (D := Postgres.postgres) 1000 2
     ([[keyless; keyless; carrier 1]] ++ [[carrier 2]]) [] = stopped_run) /\
  IngestionPipeline.processed (IngestionPipeline.final complete_run) = 2%nat.
Proof.
  intros stopped_run complete_run.
  destruct (full_ingestion_stops_when_errors_reach_budget (D := Postgres.postgres)
              1000 2 [[keyless; keyless; carrier 1]] [])
    as [Hstop [_ [_ [Hextend _]]]].
  destruct (full_ingestion_stops_when_errors_reach_budget (D := Postgres.postgres)
              1000 2 [[keyless; carrier 1]] [])
    as [_ [Hcomplete _]].
  split; [split | ].
  - apply Hstop. reflexivity.
  - apply Hextend. reflexivity.
  - apply Hcomplete. reflexivity.
Defined.

(** The claim C3 fails on the code: after a first incremental run has
    stored carrier 5 through the upsert, a second incremental run with a
    batch of 101 records, carrier 5 among them, writes the batch with COPY,
    both when the buffer fills and when the rest is flushed, and ends with a
    unique violation.  In general [_process_batch] takes the same path
    whatever [is_update] says: COPY exactly for more than 100 records. *)
Theorem incremental_batch_takes_copy_path :
  (forall (D : Store.Database) records is_update st,
     records <> [] ->
     IngestionPipeline.paths
       (snd (IngestionPipeline._process_batch records is_update st)) =
     IngestionPipeline.paths st ++
     [if 100 <? Z.of_nat (List.length records)
      then IngestionPipeline.Copy else IngestionPipeline.Upsert]) /\
  let first :=
    IngestionPipeline.run_incremental_update (D := Postgres.postgres) 101
      [[carrier 5]] [] in
  let second :=
    IngestionPipeline.run_incremental_update (D := Postgres.postgres) 101
      [map (fun i => carrier (Z.of_nat i)) (seq 1 101)]
      (IngestionPipeline.database (IngestionPipeline.final first)) in
  IngestionPipeline.paths (IngestionPipeline.final first) = [IngestionPipeline.Upsert] /\
  IngestionPipeline.paths (IngestionPipeline.final second) =
    [IngestionPipeline.Copy; IngestionPipeline.Copy] /\
  IngestionPipeline.outcome second = Raise Postgres.unique_violation.
Proof.
  split.
  - intros D records is_update st Hne. now apply process_batch_path.
  - vm_compute. repeat split.
Qed.

(** The claim C6 fails on the code: the status text adds its number to one
    counter at most, so a batch of new and known rows cannot be split
    between the two; and the same batch of one carrier loaded twice through
    the upsert is counted as one row inserted each time, none updated, while
    the table holds one row. *)
Theorem second_load_is_counted_as_inserted :
  (forall status s s',
     IngestionPipeline.count_result status s = Ok s' ->
     IngestionPipeline.total_inserted s' = IngestionPipeline.total_inserted s \/
     IngestionPipeline.total_updated s' = IngestionPipeline.total_updated s) /\
  let batch := normalized [carrier 7] in
  let first :=
    IngestionPipeline._process_batch (D := Postgres.postgres) batch false
      (IngestionPipeline.mkState (D := Postgres.postgres)
         IngestionPipeline.new_stats ([] : Postgres.table) [] 0) in
  let second :=
    IngestionPipeline._process_batch (D := Postgres.postgres) batch false (snd first) in
  List.length batch = 1%nat /\
  fst first = Ok tt /\
  fst second = Ok tt /\
  IngestionPipeline.paths (snd second) =
    [IngestionPipeline.Upsert; IngestionPipeline.Upsert] /\
  IngestionPipeline.total_inserted (IngestionPipeline.stats (snd first)) = 1 /\
  IngestionPipeline.total_inserted (IngestionPipeline.stats (snd second)) = 2 /\
  IngestionPipeline.total_updated (IngestionPipeline.stats (snd second)) = 0 /\
  List.length (IngestionPipeline.database (snd second)) = 1%nat.
Proof.
  split.
  - intros status s s' H.
    destruct (count_result_cases _ _ _ H) as [-> | [[n ->] | [n ->]]]; cbn; auto.
  - vm_compute. repeat split.
Qed.

(** ** The normalizer *)

Section NormalizerProperties.
Import Json CarrierDataNormalizer.

Lemma dict_get_set_same {V} (d : dict V) k v :
  dict_get (dict_set d k v) k = Some v.
Proof.
  induction d as [ | [k' v'] d IH]; cbn.
  - now rewrite String.eqb_refl.
  - destruct (k' =? k)%string eqn:E; cbn; now rewrite E.
Qed.

Lemma dict_get_set_other {V} (d : dict V) k k' v :
  (k =? k')%string = false ->
  dict_get (dict_set d k v) k' = dict_get d k'.
Proof.
  intros Hne. induction d as [ | [k0 v0] d IH]; cbn.
  - now rewrite Hne.
  - destruct (k0 =? k)%string eqn:E; cbn.
    + apply String.eqb_eq in E. subst k0. now rewrite Hne.
    + destruct (k0 =? k')%string; [reflexivity | exact IH].
Qed.

(** Outside the monetary columns [_clean_value] never raises. *)
Lemma clean_value_total field_name v :
  str_in field_name decimal_fields = false ->
  exists c, _clean_value field_name v = Ok c.
Proof.
  intros Hdec. unfold _clean_value. rewrite Hdec.
  destruct v as [ | b | z | s]; [eexists; reflexivity | | | ].
  all: cbv zeta.
  all: repeat match goal with
         | |- exists c, (if ?b then _ else _) = Ok c => destruct b
         | |- exists c, Ok _ = Ok c => eexists; reflexivity
         end.
  all: try (unfold except_value_or_type, int; cbn;
            repeat match goal with
              | |- context [if ?b then _ else _] => destruct b; cbn
              | |- context [match int_of_str ?s with _ => _ end] =>
                  destruct (int_of_str s); cbn
              end; eexists; reflexivity).
Qed.

(** In a monetary column it raises only for text [Decimal] rejects. *)
Lemma clean_value_amount field_name v :
  amount_well_formed v = true ->
  exists c, _clean_value field_name v = Ok c.
Proof.
  intros Hwf.
  destruct (str_in field_name decimal_fields) eqn:Hdec;
    [ | now apply clean_value_total].
  unfold _clean_value. rewrite Hdec.
  destruct v as [ | b | z | s]; [eexists; reflexivity | | | ]; cbv zeta.
  - destruct (str_in field_name integer_fields); destruct b; cbn; eexists; reflexivity.
  - destruct (str_in field_name integer_fields); cbn; destruct (z =? 0); cbn;
      eexists; reflexivity.
  - unfold amount_well_formed in Hwf.
    destruct ((strip s =? "")%string || str_in (upper (strip s)) null_words) eqn:Hnull;
      [eexists; reflexivity | ].
    cbn [orb] in Hwf.
    destruct (str_in field_name integer_fields).
    + unfold except_value_or_type, int. cbn.
      destruct (strip s =? "")%string; cbn; [eexists; reflexivity | ].
      destruct (int_of_str (strip s)); cbn; eexists; reflexivity.
    + unfold except_value_or_type, PyDecimal.Decimal. cbn [truthy].
      destruct (drop_currency (strip s) =? "")%string; cbn [negb orb] in *;
        [eexists; reflexivity | ].
      destruct (PyDecimal.of_str (drop_currency (strip s))); cbn;
        [eexists; reflexivity | discriminate].
Qed.

(** Every column of the mapping that holds a decimal is fed by one of the
    amount fields. *)
Lemma decimal_columns_are_amounts raw_name column :
  In (raw_name, column) FIELD_MAPPING ->
  str_in column decimal_fields = true ->
  In raw_name amount_fields.
Proof.
  intros Hin Hdec. cbn in Hin.
  repeat (destruct Hin as [Heq | Hin];
          [injection Heq as <- <-; first [discriminate Hdec | cbn; tauto] | ]).
  contradiction.
Qed.

Lemma amounts_well_formed_get r raw_name v :
  amounts_well_formed r = true ->
  In raw_name amount_fields ->
  dict_get r raw_name = Some v ->
  amount_well_formed v = true.
Proof.
  unfold amounts_well_formed. rewrite forallb_forall.
  intros Hall Hin Hget. specialize (Hall _ Hin). now rewrite Hget in Hall.
Qed.

(** The loop over a mapping does not raise on well-formed amounts, and it
    leaves alone every column the mapping does not name. *)
Lemma map_fields_ok r : forall mapping acc,
  amounts_well_formed r = true ->
  (forall raw_name column, In (raw_name, column) mapping ->
                           In (raw_name, column) FIELD_MAPPING) ->
  exists n, map_fields r mapping acc = Ok n /\
            forall k, (forall raw_name, ~ In (raw_name, k) mapping) ->
                      dict_get n k = dict_get acc k.
Proof.
  intros mapping. induction mapping as [ | [raw_name column] rest IH]; intros acc Hwf Hsub.
  - exists acc. now split.
  - assert (forall a b, In (a, b) rest -> In (a, b) FIELD_MAPPING) as Hsub'
        by (intros a b Hin; apply Hsub; now right).
    assert (forall n acc',
              map_fields r rest acc' = Ok n /\
              (forall k, (forall a, ~ In (a, k) rest) -> dict_get n k = dict_get acc' k) ->
              acc' = acc ->
              map_fields r rest acc' = Ok n /\
              forall k, (forall a, ~ In (a, k) ((raw_name, column) :: rest)) ->
                        dict_get n k = dict_get acc k) as Hskip.
    { intros n acc' [Hrun Hkeep] ->. split; [exact Hrun | ].
      intros k Hk. apply Hkeep. intros a Ha. apply (Hk a). now right. }
    cbn [map_fields].
    destruct (dict_get r raw_name) as [v | ] eqn:Hget.
    + destruct (has_content v).
      * assert (exists c, _clean_value column v = Ok c) as [c Hc].
        { destruct (str_in column decimal_fields) eqn:Hdec.
          - apply clean_value_amount.
            apply (amounts_well_formed_get r raw_name); try assumption.
            apply (decimal_columns_are_amounts raw_name column); [ | assumption].
            apply Hsub. now left.
          - now apply clean_value_total. }
        rewrite Hc. cbn [bind].
        destruct (IH (dict_set acc column c) Hwf Hsub') as [n [Hrun Hkeep]].
        exists n. split; [exact Hrun | ].
        intros k Hk. rewrite Hkeep by (intros a Ha; apply (Hk a); now right).
        apply dict_get_set_other.
        apply String.eqb_neq. intros ->. apply (Hk raw_name). now left.
      * destruct (IH acc Hwf Hsub') as [n Hn]. exists n. now apply (Hskip n acc).
    + destruct (IH acc Hwf Hsub') as [n Hn]. exists n. now apply (Hskip n acc).
Qed.

End NormalizerProperties.

Section NormalizeKey.
Import Json CarrierDataNormalizer.

Lemma key_column_is_mapped_once raw_name :
  ~ In (raw_name, "usdot_number") (tl FIELD_MAPPING).
Proof.
  cbn. intros H.
  repeat (destruct H as [H | H]; [discriminate H | ]). exact H.
Qed.

Lemma tail_of_mapping raw_name column :
  In (raw_name, column) (tl FIELD_MAPPING) -> In (raw_name, column) FIELD_MAPPING.
Proof. intros H. now right. Qed.

Lemma map_fields_key_first r rest :
  amounts_well_formed r = true ->
  (forall raw_name column, In (raw_name, column) rest ->
                           In (raw_name, column) FIELD_MAPPING) ->
  (forall raw_name, ~ In (raw_name, "usdot_number") rest) ->
  exists n,
    map_fields r (("usdot_number", "usdot_number") :: rest) [] = Ok n /\
    dict_get n "usdot_number" =
    match dict_get r "usdot_number" with
    | Some v =>
        if has_content v
        then match _clean_value "usdot_number" v with
             | Ok c => Some c
             | Raise _ => None
             end
        else None
    | None => None
    end.
Proof.
  intros Hwf Hsub Hfresh.
  assert (forall acc, exists n,
             map_fields r rest acc = Ok n /\
             dict_get n "usdot_number" = dict_get acc "usdot_number") as Hrun.
  { intros acc.
    destruct (map_fields_ok r rest acc Hwf Hsub) as [n [Hn Hkeep]].
    exists n. split; [exact Hn | ]. now apply Hkeep. }
  cbn [map_fields].
  destruct (dict_get r "usdot_number") as [v | ]; [ | apply Hrun].
  destruct (has_content v); [ | apply Hrun].
  destruct (clean_value_total "usdot_number" v eq_refl) as [c Hc].
  rewrite Hc. cbn [bind].
  destruct (Hrun (dict_set [] "usdot_number" c)) as [n [Hn Hkey]].
  exists n. split; [exact Hn | ]. rewrite Hkey. reflexivity.
Qed.

(** After the loop over the mapping the key column holds the cleaned raw
    key, when the raw key has content, and is absent otherwise. *)
Lemma map_fields_key r :
  amounts_well_formed r = true ->
  exists n,
    map_fields r FIELD_MAPPING [] = Ok n /\
    dict_get n "usdot_number" =
    match dict_get r "usdot_number" with
    | Some v =>
        if has_content v
        then match _clean_value "usdot_number" v with
             | Ok c => Some c
             | Raise _ => None
             end
        else None
    | None => None
    end.
Proof.
  intros Hwf.
  exact (map_fields_key_first r (tl FIELD_MAPPING) Hwf
           tail_of_mapping key_column_is_mapped_once).
Qed.

End NormalizeKey.

(** The claim C1 fails: a record whose natural key is the integer -5, and
    one whose key is the text 0, are normalized without any exception. *)
Lemma normalize_accepts_non_positive_key :
  CarrierDataNormalizer.normalize [("usdot_number", VInt (-5))] =
  Ok [("usdot_number", CarrierDataNormalizer.CInt (-5));
      ("legal_name", CarrierDataNormalizer.CStr "Unknown Carrier #-5");
      ("raw_data",
       CarrierDataNormalizer.CStr (Json.dumps [("usdot_number", VInt (-5))]))] /\
  CarrierDataNormalizer.normalize [("usdot_number", VStr "0")] =
  Ok [("usdot_number", CarrierDataNormalizer.CInt 0);
      ("legal_name", CarrierDataNormalizer.CStr "Unknown Carrier #0");
      ("raw_data",
       CarrierDataNormalizer.CStr (Json.dumps [("usdot_number", VStr "0")]))].
Proof. split; reflexivity. Qed.

(** C1, amended.  For every raw record of values that are [None],
    booleans, text or integers that convert to text (4300 digits at most)
    and whose monetary amounts are well formed: when [usdot_number] is
    absent, [None] or the empty string, [normalize] raises the
    [ValueError] for the missing field; when [usdot_number] cleans to an
    integer, positive or not, [normalize] returns a record that carries
    this integer as its natural key.  The first hypothesis keeps the
    statement to the integers on which [str_of_int] is the conversion of
    the code. *)
Theorem normalize_requires_a_present_key (r : Json.RawRecord) :
  record_prints r = true ->
  amounts_well_formed r = true ->
  (key_missing r = true -> CarrierDataNormalizer.normalize r = Raise missing_key) /\
  (forall v z,
     dict_get r "usdot_number" = Some v ->
     CarrierDataNormalizer.has_content v = true ->
     CarrierDataNormalizer._clean_value "usdot_number" v =
       Ok (CarrierDataNormalizer.CInt z) ->
     exists n,
       CarrierDataNormalizer.normalize r = Ok n /\
       dict_get n "usdot_number" = Some (CarrierDataNormalizer.CInt z)).
Proof.
  intros _ Hwf.
  destruct (map_fields_key r Hwf) as [n [Hrun Hkey]].
  unfold CarrierDataNormalizer.normalize. rewrite Hrun. cbn [bind].
  set (n1 := match CarrierDataNormalizer._extract_cargo_carried r with
             | Some cargo_carried =>
                 dict_set n "cargo_carried" (CarrierDataNormalizer.CList cargo_carried)
             | None => n
             end).
  assert (dict_get n1 "usdot_number" = dict_get n "usdot_number") as Hcargo.
  { subst n1. destruct (CarrierDataNormalizer._extract_cargo_carried r);
      [now apply dict_get_set_other | reflexivity]. }
  rewrite Hcargo, Hkey.
  split.
  - unfold key_missing. intros Hmiss.
    destruct (dict_get r "usdot_number") as [v | ]; [ | reflexivity].
    destruct (CarrierDataNormalizer.has_content v); [discriminate | reflexivity].
  - intros v z Hget Hcontent Hclean.
    rewrite Hget, Hcontent, Hclean in Hkey |- *.
    eexists. split; [reflexivity | ].
    rewrite (dict_get_set_other _ "raw_data" "usdot_number") by reflexivity.
    destruct (dict_get n1 "legal_name") as [name | ];
      [destruct (CarrierDataNormalizer.ctruthy name) | ].
    + rewrite Hcargo. exact Hkey.
    + rewrite (dict_get_set_other _ "legal_name" "usdot_number") by reflexivity.
      rewrite Hcargo. exact Hkey.
    + rewrite (dict_get_set_other _ "legal_name" "usdot_number") by reflexivity.
      rewrite Hcargo. exact Hkey.
Qed.

(** A record with the key -5 and an amount of 1,000 dollars is normalized
    with the key -5. *)
Lemma normalize_requires_a_present_key_witness :
  exists n,
    CarrierDataNormalizer.normalize
      [("usdot_number", VStr "-5"); ("liability_required_amount", VStr "$1,000")] = Ok n /\
    dict_get n "usdot_number" = Some (CarrierDataNormalizer.CInt (-5)).
Proof.
  destruct (normalize_requires_a_present_key
              [("usdot_number", VStr "-5"); ("liability_required_amount", VStr "$1,000")]
              eq_refl eq_refl) as [_ Hkey].
  apply (Hkey (VStr "-5") (-5)); reflexivity.
Defined.

(** The claim C4 fails on the code.  Outside the three monetary columns
    [_clean_value] does not raise on a value that is [None], a boolean,
    text or an integer that converts to text: a malformed date, count,
    state code or postal code becomes unknown and the record is kept.  A
    malformed monetary amount makes [normalize] raise [InvalidOperation],
    which the handler for [ValueError] and [TypeError] in [_clean_value]
    does not catch, and the record is lost.  Numbers with a fraction or
    an exponent, arrays and objects are not among the values. *)
Theorem malformed_amount_rejects_the_record :
  (forall field_name v,
     value_prints v = true ->
     str_in field_name CarrierDataNormalizer.decimal_fields = false ->
     exists c, CarrierDataNormalizer._clean_value field_name v = Ok c) /\
  CarrierDataNormalizer.normalize
    [("usdot_number", VStr "123456");
     ("mcs_150_date", VStr "13/40/2024");
     ("power_units", VStr "many");
     ("phy_state", VStr "T1");
     ("phy_zip", VStr "7700")] =
  Ok [("usdot_number", CarrierDataNormalizer.CInt 123456);
      ("physical_state", CarrierDataNormalizer.CNone);
      ("physical_zip", CarrierDataNormalizer.CNone);
      ("mcs_150_date", CarrierDataNormalizer.CNone);
      ("power_units", CarrierDataNormalizer.CNone);
      ("legal_name", CarrierDataNormalizer.CStr "Unknown Carrier #123456");
      ("raw_data",
       CarrierDataNormalizer.CStr
         (Json.dumps [("usdot_number", VStr "123456");
                      ("mcs_150_date", VStr "13/40/2024");
                      ("power_units", VStr "many");
                      ("phy_state", VStr "T1");
                      ("phy_zip", VStr "7700")]))] /\
  CarrierDataNormalizer._clean_value "liability_insurance_amount" (VStr "abc") =
    Raise InvalidOperation /\
  CarrierDataNormalizer.normalize
    [("usdot_number", VStr "123456"); ("liability_required_amount", VStr "abc")] =
    Raise InvalidOperation.
Proof.
  split; [intros field_name v _; apply clean_value_total | ].
  repeat split; vm_compute; reflexivity.
Qed.

(** ** The raw payload read back *)

Section JsonRoundTrip.
Import Json.

Lemma append_assoc (a b c : string) : ((a ++ b) ++ c = a ++ (b ++ c))%string.
Proof. induction a as [ | x a IH]; cbn; [reflexivity | now rewrite IH]. Qed.

Lemma append_length (a b : string) :
  String.length (a ++ b) = (String.length a + String.length b)%nat.
Proof. induction a as [ | x a IH]; cbn; [reflexivity | now rewrite IH]. Qed.

(** The scanner undoes the replacement of one character. *)
Lemma scan_encoded_char (c : ascii) (t : string) :
  scan_string (encode_char c ++ t) = prepend c (scan_string t).
Proof.
  destruct c as [[ | ] [ | ] [ | ] [ | ] [ | ] [ | ] [ | ] [ | ]]; reflexivity.
Qed.

Lemma scan_encoded_chars (s rest : string) :
  scan_string (encode_chars s ++ String quote rest) = Some (s, rest).
Proof.
  induction s as [ | c s IH].
  - reflexivity.
  - cbn [encode_chars]. rewrite append_assoc, scan_encoded_char, IH. reflexivity.
Qed.

Lemma scan_digits_step (c : ascii) (d : Decimal.uint -> Decimal.uint) (s : string) :
  digit_of_char c = Some d ->
  scan_digits (String c s) = (d (fst (scan_digits s)), snd (scan_digits s)).
Proof.
  intros H. cbn [scan_digits]. rewrite H. now destruct (scan_digits s).
Qed.

Lemma scan_digits_of_uint (u : Decimal.uint) (rest : string) :
  closes_value rest ->
  scan_digits (NilEmpty.string_of_uint u ++ rest) = (u, rest).
Proof.
  intros Hrest.
  induction u; cbn [NilEmpty.string_of_uint append];
    [destruct Hrest as [t [-> | ->]]; reflexivity | ..];
    (erewrite scan_digits_step by reflexivity); now rewrite IHu.
Qed.

(** The numeral of a positive number has no leading zero. *)
Lemma to_uint_head (p : positive) :
  match Pos.to_uint p with
  | Decimal.Nil | Decimal.D0 _ => False
  | _ => True
  end.
Proof.
  pose proof (DecimalPos.Unsigned.to_of (Pos.to_uint p)) as Hnorm.
  rewrite DecimalPos.Unsigned.of_to in Hnorm. cbn [N.to_uint] in Hnorm.
  pose proof (DecimalPos.Unsigned.to_uint_nonnil p) as Hnil.
  destruct (Pos.to_uint p) as [ | u | u | u | u | u | u | u | u | u | u] eqn:E;
    try exact I; [now apply Hnil | ].
  rewrite unorm_D0 in Hnorm.
  unfold Decimal.unorm in Hnorm.
  pose proof (nzhead_nonzero u u) as Hnz.
  destruct (Decimal.nzhead u) eqn:Eh; try discriminate Hnorm.
  - injection Hnorm as ->.
    pose proof (DecimalPos.Unsigned.to_uint_nonzero p) as Hzero.
    now rewrite E in Hzero.
  - now apply Hnz.
Qed.

Lemma scan_unsigned_of_pos (p : positive) (rest : string) :
  closes_value rest ->
  scan_unsigned (NilEmpty.string_of_uint (Pos.to_uint p) ++ rest) =
  Some (Pos.to_uint p, rest).
Proof.
  intros Hrest. unfold scan_unsigned.
  rewrite scan_digits_of_uint by exact Hrest.
  pose proof (to_uint_head p) as Hhead.
  destruct Hrest as [t [-> | ->]];
    destruct (Pos.to_uint p); try contradiction; reflexivity.
Qed.

Lemma string_of_pos (p : positive) :
  NilZero.string_of_uint (Pos.to_uint p) = NilEmpty.string_of_uint (Pos.to_uint p).
Proof.
  pose proof (to_uint_head p) as Hhead.
  destruct (Pos.to_uint p); try contradiction; reflexivity.
Qed.

(** The first character of the numeral of a positive number is a digit
    from 1 to 9: none of the characters that start another kind of value. *)
Lemma scan_value_of_pos (p : positive) (rest : string) :
  closes_value rest ->
  scan_value (NilEmpty.string_of_uint (Pos.to_uint p) ++ rest) =
  Some (VInt (Z.pos p), rest).
Proof.
  intros Hrest.
  pose proof (scan_unsigned_of_pos p rest Hrest) as Hscan.
  pose proof (to_uint_head p) as Hhead.
  pose proof (DecimalZ.of_to (Z.pos p)) as Hval. cbn [Z.to_int] in Hval.
  destruct (Pos.to_uint p) as [ | u | u | u | u | u | u | u | u | u | u] eqn:E;
    try contradiction;
    cbn [NilEmpty.string_of_uint append] in *;
    unfold scan_value;
    match goal with
    | |- context [scan_unsigned ?s] =>
        change (scan_unsigned s) with (scan_unsigned s) in Hscan |- *
    end;
    cbn [Ascii.eqb Bool.eqb quote ascii_of_N ascii_of_pos];
    cbv beta iota;
    rewrite Hscan; cbn [option_map fst snd]; now rewrite Hval.
Qed.

Lemma closes_value_head (rest : string) :
  closes_value rest -> skip_ws rest = rest.
Proof. intros [t [-> | ->]]; reflexivity. Qed.

(** A value is read back from its text, and its text starts with no white
    space. *)
Lemma scan_encoded_value (v : value) (rest : string) :
  closes_value rest ->
  scan_value (encode_value v ++ rest) = Some (v, rest) /\
  skip_ws (encode_value v ++ rest) = (encode_value v ++ rest)%string.
Proof.
  intros Hrest. destruct v as [ | [ | ] | z | s]; try (split; reflexivity).
  - unfold encode_value, str_of_int.
    destruct z as [ | p | p]; cbn [Z.to_int NilZero.string_of_int].
    + destruct Hrest as [t [-> | ->]]; split; reflexivity.
    + rewrite string_of_pos. split; [now apply scan_value_of_pos | ].
      pose proof (to_uint_head p) as Hhead.
      destruct (Pos.to_uint p); try contradiction; reflexivity.
    + rewrite string_of_pos. split; [ | reflexivity].
      cbn [append]. unfold scan_value.
      cbn [Ascii.eqb Bool.eqb quote ascii_of_N ascii_of_pos]. cbv beta iota.
      rewrite scan_unsigned_of_pos by exact Hrest. cbn [option_map fst snd].
      pose proof (DecimalZ.of_to (Z.neg p)) as Hval. cbn [Z.to_int] in Hval.
      now rewrite Hval.
  - split; [ | reflexivity].
    unfold encode_value, encode_string. cbn [append].
    rewrite append_assoc. cbn [append]. unfold scan_value.
    rewrite Ascii.eqb_refl, scan_encoded_chars. reflexivity.
Qed.

(** The text of a member followed by more text, laid out character by
    character up to the value. *)
Lemma encode_member_app (k : string) (v : value) (t : string) :
  (encode_member (k, v) ++ t)%string =
  String quote (encode_chars k ++
                String quote (String ":" (String " " (encode_value v ++ t)))).
Proof.
  unfold encode_member, encode_string. cbn [fst snd append].
  rewrite !append_assoc. reflexivity.
Qed.

(** The members of a record that is not empty are read back in order. *)
Lemma scan_encoded_members (d : RawRecord) : forall acc fuel rest,
  d <> [] ->
  (List.length d <= fuel)%nat ->
  scan_members fuel (encode_members d ++ String "}" rest) acc =
  Some (fold_left enter d acc, rest).
Proof.
  induction d as [ | [k v] d IH]; intros acc fuel rest Hne Hfuel; [contradiction | ].
  destruct fuel as [ | fuel]; [cbn in Hfuel; lia | ].
  destruct d as [ | kv' d'].
  - cbn [encode_members]. rewrite encode_member_app.
    cbn [scan_members]. rewrite Ascii.eqb_refl, scan_encoded_chars.
    cbn [skip_ws is_json_space code N_of_ascii N_of_digits N.eqb Pos.eqb orb
         N.add N.mul Pos.add Pos.mul Pos.succ].
    destruct (scan_encoded_value v (String "}" rest)) as [Hscan Hskip];
      [exists rest; now right | ].
    rewrite Hskip, Hscan. reflexivity.
  - change (encode_members ((k, v) :: kv' :: d'))
      with (encode_member (k, v) ++ ", " ++ encode_members (kv' :: d'))%string.
    rewrite append_assoc, encode_member_app.
    cbn [scan_members]. rewrite Ascii.eqb_refl, scan_encoded_chars.
    cbn [skip_ws is_json_space code N_of_ascii N_of_digits N.eqb Pos.eqb orb
         N.add N.mul Pos.add Pos.mul Pos.succ].
    rewrite append_assoc. cbn [append].
    destruct (scan_encoded_value v
                (String "," (String " " (encode_members (kv' :: d') ++ String "}" rest))))
      as [Hscan Hskip]; [eexists; now left | ].
    rewrite Hskip, Hscan.
    cbn [skip_ws is_json_space code N_of_ascii N_of_digits N.eqb Pos.eqb orb
         N.add N.mul Pos.add Pos.mul Pos.succ].
    assert (skip_ws (encode_members (kv' :: d') ++ String "}" rest) =
            (encode_members (kv' :: d') ++ String "}" rest)%string) as ->.
    { destruct kv' as [k' v']. destruct d'; cbn [encode_members];
        [ | rewrite append_assoc]; rewrite encode_member_app; reflexivity. }
    rewrite IH; [reflexivity | discriminate | cbn in *; lia].
Qed.

(** Entering the members of a dictionary one by one rebuilds it. *)
Lemma enter_all (d : RawRecord) : forall acc,
  NoDup (keys (acc ++ d)) -> fold_left enter d acc = acc ++ d.
Proof.
  induction d as [ | [k v] d IH]; intros acc Hnd; cbn [fold_left].
  - now rewrite List.app_nil_r.
  - assert (enter acc (k, v) = acc ++ [(k, v)]) as ->.
    { unfold enter. cbn [fst snd].
      assert (~ In k (keys acc)) as Hfresh.
      { unfold keys in *. rewrite map_app in Hnd. cbn in Hnd.
        apply NoDup_remove_2 in Hnd. intros Hin. apply Hnd.
        apply in_or_app. now left. }
      clear -Hfresh. induction acc as [ | [k' v'] acc IHacc]; cbn; [reflexivity | ].
      destruct (k' =? k)%string eqn:E.
      - apply String.eqb_eq in E. subst. exfalso. apply Hfresh. now left.
      - rewrite IHacc; [reflexivity | ]. intros Hin. apply Hfresh. now right. }
    rewrite IH; rewrite <- List.app_assoc; [reflexivity | exact Hnd].
Qed.

Lemma encode_members_length (d : RawRecord) :
  (List.length d <= String.length (encode_members d))%nat.
Proof.
  induction d as [ | [k v] d IH]; [cbn; lia | ].
  destruct d as [ | kv' d'].
  - cbn. lia.
  - change (encode_members ((k, v) :: kv' :: d'))
      with (encode_member (k, v) ++ ", " ++ encode_members (kv' :: d'))%string.
    rewrite !append_length. unfold encode_member, encode_string.
    cbn [fst String.length List.length append] in *. lia.
Qed.

Lemma loads_members (text t : string) :
  skip_ws text = String "{" (String quote t) ->
  loads text =
  match scan_members (String.length text) (String quote t) [] with
  | Some (d, rest) =>
      match skip_ws rest with
      | EmptyString => Some d
      | _ => None
      end
  | None => None
  end.
Proof. unfold loads. intros ->. reflexivity. Qed.

(** [json.loads(json.dumps(d)) == d] for every dictionary of scalars. *)
Lemma loads_dumps (d : RawRecord) :
  NoDup (keys d) -> loads (dumps d) = Some d.
Proof.
  intros Hnd. destruct d as [ | kv d'] eqn:E; [reflexivity | ].
  rewrite <- E in *.
  assert (d <> []) as Hne by (subst; discriminate).
  pose proof (encode_members_length d) as Hlen.
  assert (exists t, (encode_members d ++ "}")%string = String quote t) as [t Ht].
  { subst d. destruct kv as [k v]. destruct d'; cbn [encode_members];
      [ | rewrite append_assoc]; rewrite encode_member_app; eexists; reflexivity. }
  rewrite (loads_members (dumps d) t)
    by (unfold dumps; cbn [append]; rewrite Ht; reflexivity).
  rewrite <- Ht.
  rewrite (scan_encoded_members d [] _ "" Hne).
  - cbn [skip_ws]. rewrite enter_all by exact Hnd. reflexivity.
  - unfold dumps. cbn [append String.length]. rewrite append_length. lia.
Qed.

End JsonRoundTrip.

(** C10.  For every raw record (a dictionary: no key twice) that
    [normalize] accepts, the canonical record holds under [raw_data] a text
    that [json.loads] reads back as the raw record itself. *)
Theorem raw_data_round_trip
        (r : Json.RawRecord) (n : CarrierDataNormalizer.CanonicalRecord) :
  NoDup (keys r) ->
  CarrierDataNormalizer.normalize r = Ok n ->
  exists text,
    dict_get n "raw_data" = Some (CarrierDataNormalizer.CStr text) /\
    Json.loads text = Some r.
Proof.
  intros Hnd. unfold CarrierDataNormalizer.normalize.
  destruct (CarrierDataNormalizer.map_fields r CarrierDataNormalizer.FIELD_MAPPING [])
    as [fields | e]; cbn [bind]; [ | discriminate].
  match goal with
  | |- match dict_get ?d "usdot_number" with _ => _ end = _ -> _ =>
      destruct (dict_get d "usdot_number") as [usdot | ]; [ | discriminate]
  end.
  intros H. injection H as <-.
  exists (Json.dumps r). split.
  - apply dict_get_set_same.
  - now apply loads_dumps.
Qed.

(** A record with text that needs escaping, an integer, a boolean and a
    null is read back from its [raw_data]. *)
Lemma raw_data_round_trip_witness :
  let r := [("usdot_number", VStr "123456");
            ("legal_name", VStr (String Json.quote "A&B" ++ String Json.quote " \ LLC"));
            ("power_units", VInt (-25));
            ("hazmat_flag", VBool true);
            ("fax", VNone)] in
  exists n text,
    CarrierDataNormalizer.normalize r = Ok n /\
    dict_get n "raw_data" = Some (CarrierDataNormalizer.CStr text) /\
    Json.loads text = Some r.
Proof.
  intros r.
  assert (NoDup (keys r)) as Hnd.
  { repeat constructor; cbn; intuition discriminate. }
  pose proof (raw_data_round_trip r) as Hround.
  destruct (CarrierDataNormalizer.normalize r) as [n | e] eqn:Hn.
  - destruct (Hround n Hnd eq_refl) as [text [Hget Hloads]].
    exists n, text. repeat split; assumption.
  - vm_compute in Hn. discriminate Hn.
Defined.

(** ** More on the normalizer *)

Section NormalizerColumns.
Import Json CarrierDataNormalizer.

Lemma str_in_In (x : string) (l : list string) : str_in x l = true <-> In x l.
Proof.
  unfold str_in. rewrite existsb_exists. split.
  - intros [y [Hin Heq]]. apply String.eqb_eq in Heq. now subst.
  - intros Hin. exists x. split; [exact Hin | apply String.eqb_refl].
Qed.

Lemma str_in_false (x : string) (l : list string) : str_in x l = false -> ~ In x l.
Proof. intros H Hin. apply str_in_In in Hin. congruence. Qed.

Lemma distinct_NoDup (l : list string) : distinct l = true -> NoDup l.
Proof.
  induction l as [ | x l IH]; cbn; intros H; constructor.
  - apply andb_prop in H. destruct H as [H _].
    apply str_in_false. now destruct (str_in x l).
  - apply IH. now apply andb_prop in H.
Qed.

Lemma columns_fed_once : NoDup (map snd FIELD_MAPPING).
Proof. apply distinct_NoDup. vm_compute. reflexivity. Qed.

Lemma feeding_none (mapping : list (string * string)) (column : string) :
  ~ In column (map snd mapping) -> feeding mapping column = None.
Proof.
  unfold feeding. induction mapping as [ | [f db] rest IH]; cbn; [reflexivity | ].
  intros Hnot. destruct (db =? column)%string eqn:E.
  - apply String.eqb_eq in E. exfalso. apply Hnot. now left.
  - apply IH. intros Hin. apply Hnot. now right.
Qed.

(** After the loop over a mapping that feeds each column once, a column
    holds its mapped value if it has one and what it held before if not. *)
Lemma map_fields_get (r : RawRecord) (mapping : list (string * string)) :
  forall acc n,
    map_fields r mapping acc = Ok n ->
    NoDup (map snd mapping) ->
    forall column,
      dict_get n column =
      match mapped r mapping column with
      | Some c => Some c
      | None => dict_get acc column
      end.
Proof.
  induction mapping as [ | [f db] rest IH]; intros acc n Hrun Hnd column.
  - cbn in Hrun. injection Hrun as <-. reflexivity.
  - cbn [map] in Hnd. apply NoDup_cons_iff in Hnd. destruct Hnd as [Hfresh Hnd].
    cbn [snd] in Hfresh.
    assert (forall acc', map_fields r rest acc' = Ok n ->
                         dict_get n db = dict_get acc' db) as Hdb.
    { intros acc' Hrest. rewrite (IH acc' n Hrest Hnd db).
      unfold mapped. now rewrite feeding_none. }
    assert (mapped r ((f, db) :: rest) column =
            if (db =? column)%string
            then match dict_get r f with
                 | Some v =>
                     if has_content v
                     then match _clean_value column v with
                          | Ok c => Some c
                          | Raise _ => None
                          end
                     else None
                 | None => None
                 end
            else mapped r rest column) as Hmapped.
    { unfold mapped, feeding. cbn [find snd].
      destruct (db =? column)%string; reflexivity. }
    rewrite Hmapped. cbn [map_fields] in Hrun.
    destruct (db =? column)%string eqn:E.
    + apply String.eqb_eq in E. subst column.
      destruct (dict_get r f) as [v | ]; [ | now apply Hdb].
      destruct (has_content v); [ | now apply Hdb].
      destruct (_clean_value db v) as [c | e]; cbn [bind] in Hrun; [ | discriminate].
      rewrite (Hdb _ Hrun). apply dict_get_set_same.
    + assert (forall acc', dict_get acc' column = dict_get acc column ->
                           map_fields r rest acc' = Ok n ->
                           dict_get n column =
                           match mapped r rest column with
                           | Some c => Some c
                           | None => dict_get acc column
                           end) as Hother.
      { intros acc' Hsame Hrest. rewrite (IH acc' n Hrest Hnd column).
        now rewrite Hsame. }
      destruct (dict_get r f) as [v | ]; [ | now apply (Hother acc)].
      destruct (has_content v); [ | now apply (Hother acc)].
      destruct (_clean_value db v) as [c | e]; cbn [bind] in Hrun; [ | discriminate].
      apply (Hother (dict_set acc db c)); [ | exact Hrun].
      now apply dict_get_set_other.
Qed.

Lemma keys_dict_set {V} (d : dict V) (k k' : string) (v : V) :
  In k (keys (dict_set d k' v)) -> k = k' \/ In k (keys d).
Proof.
  unfold keys. induction d as [ | [k0 v0] d IH]; cbn.
  - intros [H | []]. now left.
  - destruct (k0 =? k')%string eqn:E; cbn.
    + intros [H | H]; right; [now left | now right].
    + intros [H | H]; [right; now left | ].
      destruct (IH H) as [Heq | Hin]; [now left | right; now right].
Qed.

Lemma map_fields_keys (r : RawRecord) (mapping : list (string * string)) :
  forall acc n k,
    map_fields r mapping acc = Ok n ->
    In k (keys n) -> In k (keys acc) \/ In k (map snd mapping).
Proof.
  induction mapping as [ | [f db] rest IH]; intros acc n k Hrun Hin.
  - cbn in Hrun. injection Hrun as <-. now left.
  - cbn [map_fields] in Hrun. cbn [map snd].
    assert (forall acc', map_fields r rest acc' = Ok n ->
                         (In k (keys acc') -> db = k \/ In k (keys acc)) ->
                         In k (keys acc) \/ db = k \/ In k (map snd rest)) as Hstep.
    { intros acc' Hrest Hacc. destruct (IH acc' n k Hrest Hin) as [H | H].
      - destruct (Hacc H) as [Heq | Hold]; [right; now left | now left].
      - right; now right. }
    destruct (dict_get r f) as [v | ]; [ | apply (Hstep acc Hrun); now right].
    destruct (has_content v); [ | apply (Hstep acc Hrun); now right].
    destruct (_clean_value db v) as [c | e]; cbn [bind] in Hrun; [ | discriminate].
    apply (Hstep _ Hrun). intros Hk.
    destruct (keys_dict_set _ _ _ _ Hk) as [-> | Hold]; [now left | now right].
Qed.

(** What [normalize] does after the loop over the mapping. *)
Lemma normalize_inversion (r : RawRecord) (n : CanonicalRecord) :
  normalize r = Ok n ->
  exists fields with_cargo named usdot,
    map_fields r FIELD_MAPPING [] = Ok fields /\
    with_cargo = match _extract_cargo_carried r with
                 | Some cargo_carried => dict_set fields "cargo_carried" (CList cargo_carried)
                 | None => fields
                 end /\
    dict_get with_cargo "usdot_number" = Some usdot /\
    (named = with_cargo /\
     (exists name, dict_get with_cargo "legal_name" = Some name /\ ctruthy name = true)
     \/
     named = dict_set with_cargo "legal_name" (CStr ("Unknown Carrier #" ++ format_key usdot)) /\
     match dict_get with_cargo "legal_name" with
     | Some name => ctruthy name = false
     | None => True
     end) /\
    n = dict_set named "raw_data" (CStr (dumps r)).
Proof.
  unfold normalize.
  destruct (map_fields r FIELD_MAPPING []) as [fields | e]; cbn [bind]; [ | discriminate].
  set (with_cargo := match _extract_cargo_carried r with
                     | Some cargo_carried =>
                         dict_set fields "cargo_carried" (CList cargo_carried)
                     | None => fields
                     end).
  destruct (dict_get with_cargo "usdot_number") as [usdot | ] eqn:Hkey; [ | discriminate].
  intros H. injection H as <-.
  destruct (dict_get with_cargo "legal_name") as [name | ] eqn:Hname.
  - destruct (ctruthy name) eqn:Ht.
    + exists fields, with_cargo, with_cargo, usdot.
      repeat split; try assumption. left. split; [reflexivity | ]. now exists name.
    + eexists fields, with_cargo, _, usdot.
      repeat split; try assumption. right. split; [reflexivity | ].
      now rewrite Hname.
  - eexists fields, with_cargo, _, usdot.
    repeat split; try assumption. right. split; [reflexivity | ].
    now rewrite Hname.
Qed.

End NormalizerColumns.

Section NormalizerOutput.
Import Json CarrierDataNormalizer.

Lemma str_of_int_not_empty (z : Z) : str_of_int z <> "".
Proof.
  unfold str_of_int. destruct z as [ | p | p]; cbn [Z.to_int NilZero.string_of_int].
  - discriminate.
  - rewrite string_of_pos. pose proof (to_uint_head p) as Hhead.
    destruct (Pos.to_uint p); try contradiction; discriminate.
  - discriminate.
Qed.

Lemma str_not_empty (v : value) : truthy v = true -> str v <> "".
Proof.
  destruct v as [ | [ | ] | z | s]; cbn; try discriminate.
  - intros _. apply str_of_int_not_empty.
  - intros H Hs. rewrite Hs in H. discriminate.
Qed.

(** In a plain column a value is unknown or kept as text that is not
    empty. *)
Lemma clean_plain_column (field_name : string) (v : value) (c : cvalue) :
  plain_column field_name = true ->
  _clean_value field_name v = Ok c ->
  c = CNone \/ exists s, c = CStr s /\ s <> "".
Proof.
  intros Hplain. unfold plain_column in Hplain.
  repeat (apply andb_prop in Hplain; destruct Hplain as [Hplain ?]).
  repeat match goal with
         | H : negb _ = true |- _ => apply negb_true_iff in H
         end.
  assert (forall w : value,
            (if truthy w then Ok (CStr (str w)) else Ok CNone) = Ok c ->
            c = CNone \/ exists s, c = CStr s /\ s <> "") as Hdefault.
  { intros w. destruct (truthy w) eqn:Ht; intros E; injection E as <-.
    - right. eexists. split; [reflexivity | now apply str_not_empty].
    - now left. }
  unfold _clean_value.
  destruct v as [ | b | z | s]; cbv beta iota zeta.
  - intros E. injection E as <-. now left.
  - repeat match goal with
           | H : ?t = false |- context [if ?t then _ else _] => rewrite H
           end.
    apply Hdefault.
  - repeat match goal with
           | H : ?t = false |- context [if ?t then _ else _] => rewrite H
           end.
    apply Hdefault.
  - destruct ((strip s =? "")%string || str_in (upper (strip s)) null_words).
    + intros E. injection E as <-. now left.
    + repeat match goal with
             | H : ?t = false |- context [if ?t then _ else _] => rewrite H
             end.
      apply Hdefault.
Qed.

Lemma mapped_is_cleaned (r : RawRecord) (mapping : list (string * string))
      (column : string) (c : cvalue) :
  mapped r mapping column = Some c ->
  exists v, _clean_value column v = Ok c.
Proof.
  unfold mapped. destruct (feeding mapping column) as [f | ]; [ | discriminate].
  destruct (dict_get r f) as [v | ]; [ | discriminate].
  destruct (has_content v); [ | discriminate].
  destruct (_clean_value column v) as [c' | e] eqn:E; [ | discriminate].
  intros H. injection H as <-. now exists v.
Qed.

End NormalizerOutput.

(** X1.  Every record [normalize] returns has a legal name that is text
    and not empty: the cleaned raw name when there is one, and otherwise
    the placeholder made of "Unknown Carrier #" and the natural key. *)
Theorem normalize_always_names_the_carrier
        (r : Json.RawRecord) (n : CarrierDataNormalizer.CanonicalRecord) :
  CarrierDataNormalizer.normalize r = Ok n ->
  exists name usdot,
    dict_get n "legal_name" = Some (CarrierDataNormalizer.CStr name) /\
    name <> "" /\
    dict_get n "usdot_number" = Some usdot /\
    (mapped r CarrierDataNormalizer.FIELD_MAPPING "legal_name" =
       Some (CarrierDataNormalizer.CStr name)
     \/
     (mapped r CarrierDataNormalizer.FIELD_MAPPING "legal_name" = None \/
      mapped r CarrierDataNormalizer.FIELD_MAPPING "legal_name" =
        Some CarrierDataNormalizer.CNone) /\
     name = ("Unknown Carrier #" ++ CarrierDataNormalizer.format_key usdot)%string).
Proof.
  intros Hn.
  destruct (normalize_inversion r n Hn)
    as [fields [with_cargo [named [usdot [Hrun [Hcargo [Hkey [Hname ->]]]]]]]].
  pose proof (map_fields_get r _ _ _ Hrun columns_fed_once "legal_name") as Hget.
  assert (dict_get with_cargo "legal_name" =
          mapped r CarrierDataNormalizer.FIELD_MAPPING "legal_name") as Hraw.
  { rewrite Hcargo.
    destruct (CarrierDataNormalizer._extract_cargo_carried r);
      [rewrite (dict_get_set_other _ "cargo_carried" "legal_name") by reflexivity | ];
      rewrite Hget;
      now destruct (mapped r CarrierDataNormalizer.FIELD_MAPPING "legal_name"). }
  destruct Hname as [[-> [name [Hsome Htruthy]]] | [-> Hunknown]].
  - rewrite Hraw in Hsome.
    destruct (mapped_is_cleaned _ _ _ _ Hsome) as [v Hv].
    destruct (clean_plain_column "legal_name" v name eq_refl Hv) as [-> | [s [-> Hs]]];
      [discriminate Htruthy | ].
    exists s, usdot. repeat split.
    + rewrite (dict_get_set_other _ "raw_data" "legal_name") by reflexivity.
      now rewrite Hraw.
    + exact Hs.
    + now rewrite (dict_get_set_other _ "raw_data" "usdot_number") by reflexivity.
    + now left.
  - eexists _, usdot. repeat split.
    + rewrite (dict_get_set_other _ "raw_data" "legal_name") by reflexivity.
      apply dict_get_set_same.
    + discriminate.
    + rewrite (dict_get_set_other _ "raw_data" "usdot_number") by reflexivity.
      now rewrite (dict_get_set_other _ "legal_name" "usdot_number") by reflexivity.
    + right. split; [ | reflexivity].
      rewrite Hraw in Hunknown.
      destruct (mapped r CarrierDataNormalizer.FIELD_MAPPING "legal_name") as [c | ] eqn:Hm;
        [ | now left].
      destruct (mapped_is_cleaned _ _ _ _ Hm) as [v Hv].
      destruct (clean_plain_column "legal_name" v c eq_refl Hv) as [-> | [s [-> Hs]]];
        [now right | ].
      cbn in Hunknown. destruct (String.eqb_spec s ""); [contradiction | discriminate].
Qed.

(** A record whose name is white space gets the placeholder. *)
Lemma normalize_always_names_the_carrier_witness :
  exists name usdot,
    dict_get (normal_form [("usdot_number", VStr "77"); ("legal_name", VStr "  ")])
             "legal_name" = Some (CarrierDataNormalizer.CStr name) /\
    name <> "" /\
    dict_get (normal_form [("usdot_number", VStr "77"); ("legal_name", VStr "  ")])
             "usdot_number" = Some usdot /\
    (mapped [("usdot_number", VStr "77"); ("legal_name", VStr "  ")]
            CarrierDataNormalizer.FIELD_MAPPING "legal_name" =
       Some (CarrierDataNormalizer.CStr name)
     \/
     (mapped [("usdot_number", VStr "77"); ("legal_name", VStr "  ")]
             CarrierDataNormalizer.FIELD_MAPPING "legal_name" = None \/
      mapped [("usdot_number", VStr "77"); ("legal_name", VStr "  ")]
             CarrierDataNormalizer.FIELD_MAPPING "legal_name" =
        Some CarrierDataNormalizer.CNone) /\
     name = ("Unknown Carrier #" ++ CarrierDataNormalizer.format_key usdot)%string).
Proof.
  exact (normalize_always_names_the_carrier
           [("usdot_number", VStr "77"); ("legal_name", VStr "  ")]
           (normal_form [("usdot_number", VStr "77"); ("legal_name", VStr "  ")])
           eq_refl).
Defined.

Section NormalizerShapes.
Import Json CarrierDataNormalizer.

Lemma fits_none (k : kind) : fits k CNone = true.
Proof. now destruct k. Qed.

Lemma count_branch (w : value) (c : cvalue) :
  except_value_or_type
    (if truthy w then z <- int w ;; Ok (CInt z) else Ok CNone) (Ok CNone) = Ok c ->
  fits Count c = true.
Proof.
  destruct (truthy w); [ | intros E; injection E as <-; reflexivity].
  destruct (int w) as [z | e]; cbn [bind except_value_or_type].
  - intros E. injection E as <-. reflexivity.
  - destruct (is_value_or_type_error e); [ | discriminate].
    intros E. injection E as <-. reflexivity.
Qed.

Lemma amount_branch (w : value) (c : cvalue) :
  except_value_or_type
    (if truthy w then d <- PyDecimal.Decimal w ;; Ok (CDecimal d) else Ok CNone)
    (Ok CNone) = Ok c ->
  fits Amount c = true.
Proof.
  destruct (truthy w); [ | intros E; injection E as <-; reflexivity].
  destruct (PyDecimal.Decimal w) as [d | e]; cbn [bind except_value_or_type].
  - intros E. injection E as <-. reflexivity.
  - destruct (is_value_or_type_error e); [ | discriminate].
    intros E. injection E as <-. reflexivity.
Qed.

Lemma try_formats_fits (text : string) (fmts : list (list PyDatetime.item)) :
  fits Day (try_formats text fmts) = true.
Proof.
  induction fmts as [ | fmt fmts IH]; cbn; [reflexivity | ].
  now destruct (PyDatetime.strptime_date text fmt).
Qed.

Lemma day_branch (w : value) : fits Day (_parse_date w) = true.
Proof.
  unfold _parse_date. destruct (negb (truthy w)); [reflexivity | ].
  destruct w; try reflexivity. apply try_formats_fits.
Qed.

Lemma all_chars_filter (keep : ascii -> bool) (s : string) :
  all_chars keep (filter_chars keep s) = true.
Proof.
  induction s as [ | a s IH]; cbn; [reflexivity | ].
  destruct (keep a) eqn:E; cbn; [now rewrite E | exact IH].
Qed.

Lemma all_chars_take (p : ascii -> bool) (n : nat) : forall s,
  all_chars p s = true -> all_chars p (take n s) = true.
Proof.
  induction n as [ | n IH]; intros [ | a s]; cbn; try reflexivity.
  intros H. apply andb_prop in H. destruct H as [Ha Hs].
  now rewrite Ha, (IH s Hs).
Qed.

Lemma length_take (n : nat) : forall s,
  String.length (take n s) = Nat.min n (String.length s).
Proof.
  induction n as [ | n IH]; intros [ | a s]; cbn; try reflexivity.
  now rewrite IH.
Qed.

Lemma span_digits_length (s : string) :
  String.length s =
  (String.length (fst (PyDecimal.span_digits s)) +
   String.length (snd (PyDecimal.span_digits s)))%nat.
Proof.
  induction s as [ | a s IH]; cbn; [reflexivity | ].
  destruct (isdigit a); [ | reflexivity].
  destruct (PyDecimal.span_digits s) as [d r]. cbn in *. now rewrite IH.
Qed.

Lemma zip_ok_length (zip_code : string) :
  zip_ok zip_code = true ->
  ((String.length zip_code =? 5)%nat || (String.length zip_code =? 10)%nat) = true.
Proof.
  unfold zip_ok. pose proof (span_digits_length zip_code) as Hlen.
  destruct (PyDecimal.span_digits zip_code) as [digits rest]. cbn [fst snd] in Hlen.
  intros H. apply andb_prop in H. destruct H as [Hfive Hrest].
  apply Nat.eqb_eq in Hfive. rewrite Hlen, Hfive.
  destruct rest as [ | a r]; [reflexivity | ].
  destruct (Ascii.eqb_spec a "-"); [subst a | ].
  - apply andb_prop in Hrest. destruct Hrest as [Hfour _].
    apply Nat.eqb_eq in Hfour. cbn [String.length]. now rewrite Hfour.
  - exfalso. revert Hrest.
    destruct a as [[ | ] [ | ] [ | ] [ | ] [ | ] [ | ] [ | ] [ | ]];
      try discriminate. now contradiction n.
Qed.

Lemma lower_char_twice (a : ascii) : lower_char (lower_char a) = lower_char a.
Proof.
  destruct a as [[ | ] [ | ] [ | ] [ | ] [ | ] [ | ] [ | ] [ | ]]; vm_compute; reflexivity.
Qed.

Lemma lower_twice (s : string) : lower (lower s) = lower s.
Proof.
  induction s as [ | a s IH]; cbn; [reflexivity | ].
  now rewrite lower_char_twice, IH.
Qed.

Lemma lower_take (n : nat) : forall s, lower (take n s) = take n (lower s).
Proof.
  induction n as [ | n IH]; intros [ | a s]; cbn; try reflexivity.
  now rewrite IH.
Qed.

Lemma text_branch (w : value) (c : cvalue) :
  (if truthy w then Ok (CStr (str w)) else Ok CNone) = Ok c ->
  fits Text c = true.
Proof.
  destruct (truthy w) eqn:Ht; intros E; injection E as <-; [ | reflexivity].
  cbn [fits]. apply str_not_empty in Ht.
  now destruct (String.eqb_spec (str w) "").
Qed.

Lemma phone_shape (p : string) :
  all_chars phone_char p = true ->
  (10 <= String.length p)%nat ->
  fits Phone (CStr (take 20 p)) = true.
Proof.
  intros Hall Hlong. unfold fits.
  rewrite length_take, (all_chars_take phone_char 20 p Hall). cbn [andb].
  apply andb_true_intro. split; apply Nat.leb_le; lia.
Qed.

Lemma email_shape (s : string) : fits Email (CStr (take 255 (lower s))) = true.
Proof.
  unfold fits. rewrite length_take, <- lower_take, lower_twice, String.eqb_refl.
  apply andb_true_intro. split; [apply Nat.leb_le; lia | reflexivity].
Qed.

(** A value [_clean_value] returns has the shape of its kind of column,
    whatever the raw value. *)
Lemma clean_value_fits
      (field_name : string) (v : value) (c : CarrierDataNormalizer.cvalue) :
  CarrierDataNormalizer._clean_value field_name v = Ok c ->
  fits (kind_of field_name) c = true.
Proof.
  unfold CarrierDataNormalizer._clean_value, kind_of.
  destruct v as [ | b | z | s]; cbv beta iota zeta;
    [intros E; injection E as <-; apply fits_none | | | ].
  3: destruct ((strip s =? "")%string ||
               str_in (upper (strip s)) CarrierDataNormalizer.null_words);
       [intros E; injection E as <-; apply fits_none | ].
  all: repeat match goal with
              | |- (if str_in ?f CarrierDataNormalizer.integer_fields
                    then _ else _) = _ -> _ =>
                  destruct (str_in f CarrierDataNormalizer.integer_fields);
                  [apply count_branch | ]
              | |- (if str_in ?f CarrierDataNormalizer.decimal_fields
                    then _ else _) = _ -> _ =>
                  destruct (str_in f CarrierDataNormalizer.decimal_fields);
                  [apply amount_branch | ]
              | |- (if endswith ?f "_date" then _ else _) = _ -> _ =>
                  destruct (endswith f "_date");
                  [intros E; injection E as <-; apply day_branch | ]
              | |- (if str_in ?f ?names then _ else _) = _ -> _ =>
                  destruct (str_in f names);
                  [try (intros E; injection E as <-; reflexivity) | ]
              | |- (if (?f =? "telephone")%string || ?g then _ else _) = _ -> _ =>
                  destruct ((f =? "telephone")%string || g);
                  [try (intros E; injection E as <-; reflexivity) | ]
              | |- (if (?f =? "email")%string then _ else _) = _ -> _ =>
                  destruct (f =? "email")%string;
                  [try (intros E; injection E as <-; reflexivity) | ]
              end.
  all: try apply text_branch.
  - (* state *)
    destruct (CarrierDataNormalizer.state_ok (take 2 (upper (strip s)))) eqn:Hok;
      intros E; injection E as <-; [exact Hok | reflexivity].
  - (* postal code *)
    match goal with
    | |- (if CarrierDataNormalizer.zip_ok ?zip then _ else _) = _ -> _ =>
        destruct (CarrierDataNormalizer.zip_ok zip) eqn:Hok;
        intros E; injection E as <-; [ | reflexivity]
    end.
    unfold fits. rewrite all_chars_filter. now apply zip_ok_length.
  - (* telephone *)
    match goal with
    | |- (if ?test then Ok (CarrierDataNormalizer.CStr ?cut) else _) = _ -> _ =>
        destruct test eqn:Hok; intros E;
        [replace c with (CarrierDataNormalizer.CStr cut) by congruence
        | injection E as <-; reflexivity]
    end.
    apply andb_prop in Hok. destruct Hok as [_ Hlong]. apply Nat.leb_le in Hlong.
    apply phone_shape; [apply (all_chars_filter phone_char) | exact Hlong].
  - (* electronic address *)
    match goal with
    | |- (if ?test then Ok (CarrierDataNormalizer.CStr ?cut) else _) = _ -> _ =>
        destruct test; intros E;
        [replace c with (CarrierDataNormalizer.CStr cut) by congruence
        | injection E as <-; reflexivity]
    end.
    apply email_shape.
Qed.

End NormalizerShapes.

Section NormalizerRecord.
Import Json CarrierDataNormalizer.

Lemma mapped_is_fed (r : RawRecord) (mapping : list (string * string))
      (column : string) (c : cvalue) :
  mapped r mapping column = Some c -> In column (map snd mapping).
Proof.
  intros Hm. destruct (in_dec string_dec column (map snd mapping)) as [Hin | Hnot];
    [exact Hin | ].
  unfold mapped in Hm. rewrite (feeding_none _ _ Hnot) in Hm. discriminate.
Qed.

Lemma fed_columns_are_loaded (column : string) :
  In column (map snd FIELD_MAPPING) -> In column IngestionPipeline.columns.
Proof.
  intros Hin. apply str_in_In.
  assert (forallb (fun k => str_in k IngestionPipeline.columns)
                  (map snd FIELD_MAPPING) = true) as Hall
    by (vm_compute; reflexivity).
  rewrite forallb_forall in Hall. now apply Hall.
Qed.

End NormalizerRecord.

(** X2.  Every entry of a record [normalize] returns is a column the loader
    writes, and its value has the shape of its kind of column: the list of
    cargo types under cargo_carried, the text of the raw record under
    raw_data, and under a mapped column a value that is unknown or an
    integer in a count, a decimal in an amount, a date in a day, a boolean
    in a flag, two capital letters in a state, five or ten digits and
    hyphens in a postal code, ten to twenty telephone characters, at most
    255 characters in lower case in an electronic address, and text that
    is not empty elsewhere. *)
Theorem normalized_entries_fit_their_columns
        (r : Json.RawRecord) (n : CarrierDataNormalizer.CanonicalRecord)
        (column : string) (c : CarrierDataNormalizer.cvalue) :
  CarrierDataNormalizer.normalize r = Ok n ->
  dict_get n column = Some c ->
  In column IngestionPipeline.columns /\
  (column = "raw_data" /\ c = CarrierDataNormalizer.CStr (Json.dumps r) \/
   column = "cargo_carried" /\
   (exists cargo, CarrierDataNormalizer._extract_cargo_carried r = Some cargo /\
                  c = CarrierDataNormalizer.CList cargo) \/
   In column (map snd CarrierDataNormalizer.FIELD_MAPPING) /\
   fits (kind_of column) c = true).
Proof.
  intros Hn Hget.
  destruct (normalize_inversion r n Hn)
    as [fields [with_cargo [named [usdot [Hrun [Hcargo [Hkey [Hname ->]]]]]]]].
  clear Hn.
  pose proof (map_fields_get r _ _ _ Hrun columns_fed_once column) as Hfed.
  clear Hrun. cbn [dict_get] in Hfed.
  destruct (String.eqb_spec "raw_data" column) as [<- | Hraw].
  { rewrite dict_get_set_same in Hget. injection Hget as <-.
    split; [apply str_in_In; reflexivity | left; split; reflexivity]. }
  rewrite dict_get_set_other in Hget by (apply String.eqb_neq; exact Hraw).
  assert (dict_get with_cargo column = Some c \/
          column = "legal_name" /\
          c = CarrierDataNormalizer.CStr
                ("Unknown Carrier #" ++ CarrierDataNormalizer.format_key usdot))
    as [Hwith | [-> ->]].
  { destruct Hname as [[-> _] | [-> _]]; [left; exact Hget | ].
    destruct (String.eqb_spec "legal_name" column) as [<- | Hother].
    - rewrite dict_get_set_same in Hget. injection Hget as <-.
      right. split; reflexivity.
    - rewrite dict_get_set_other in Hget by (apply String.eqb_neq; exact Hother).
      left. exact Hget. }
  2: { split; [apply str_in_In; reflexivity | ].
       right. right. split; [apply str_in_In; reflexivity | reflexivity]. }
  assert (dict_get fields column = Some c \/
          column = "cargo_carried" /\
          exists cargo, CarrierDataNormalizer._extract_cargo_carried r = Some cargo /\
                        c = CarrierDataNormalizer.CList cargo)
    as [Hfields | Hcarried].
  { rewrite Hcargo in Hwith.
    destruct (CarrierDataNormalizer._extract_cargo_carried r) as [cargo | ];
      [ | left; exact Hwith].
    destruct (String.eqb_spec "cargo_carried" column) as [<- | Hother].
    - rewrite dict_get_set_same in Hwith. injection Hwith as <-.
      right. split; [reflexivity | ]. exists cargo. split; reflexivity.
    - rewrite dict_get_set_other in Hwith by (apply String.eqb_neq; exact Hother).
      left. exact Hwith. }
  2: { destruct Hcarried as [-> Hc].
       split; [apply str_in_In; reflexivity | right; left; split; [reflexivity | exact Hc]]. }
  rewrite Hfed in Hfields.
  destruct (mapped r CarrierDataNormalizer.FIELD_MAPPING column) as [c' | ] eqn:Hm;
    [ | discriminate Hfields].
  injection Hfields as ->.
  pose proof (mapped_is_fed _ _ _ _ Hm) as Hin.
  destruct (mapped_is_cleaned _ _ _ _ Hm) as [v Hv].
  split; [apply fed_columns_are_loaded; exact Hin | ].
  right. right. split; [exact Hin | exact (clean_value_fits column v c Hv)].
Qed.

(** A state given in lower case with its full name is kept as its first
    two letters in capitals. *)
Lemma normalized_entries_fit_their_columns_witness :
  In "physical_state" IngestionPipeline.columns /\
  fits State (CarrierDataNormalizer.CStr "TE") = true.
Proof.
  destruct (normalized_entries_fit_their_columns
              [("usdot_number", VInt 7); ("phy_state", VStr " texas ")]
              (normal_form [("usdot_number", VInt 7); ("phy_state", VStr " texas ")])
              "physical_state" (CarrierDataNormalizer.CStr "TE")
              eq_refl eq_refl) as [Hcolumn [[Hraw _] | [[Hcargo _] | [_ Hfits]]]].
  - discriminate Hraw.
  - discriminate Hcargo.
  - split; [exact Hcolumn | exact Hfits].
Defined.

(** X3.  A column of a normalized record other than the legal name, the
    cargo list and the raw text holds the cleaned value of the one raw
    field that feeds it when that field has content, and is absent
    otherwise: no column is computed from another one. *)
Theorem normalize_column_by_column
        (r : Json.RawRecord) (n : CarrierDataNormalizer.CanonicalRecord)
        (column : string) :
  CarrierDataNormalizer.normalize r = Ok n ->
  column <> "legal_name" -> column <> "cargo_carried" -> column <> "raw_data" ->
  dict_get n column = mapped r CarrierDataNormalizer.FIELD_MAPPING column.
Proof.
  intros Hn Hname' Hcarried Hraw.
  destruct (normalize_inversion r n Hn)
    as [fields [with_cargo [named [usdot [Hrun [Hcargo [Hkey [Hname ->]]]]]]]].
  clear Hn.
  pose proof (map_fields_get r _ _ _ Hrun columns_fed_once column) as Hfed.
  clear Hrun. cbn [dict_get] in Hfed.
  rewrite dict_get_set_other
    by (apply String.eqb_neq; intros E; apply Hraw; symmetry; exact E).
  assert (dict_get named column = dict_get with_cargo column) as ->.
  { destruct Hname as [[-> _] | [-> _]]; [reflexivity | ].
    apply dict_get_set_other. apply String.eqb_neq.
    intros E. apply Hname'. symmetry. exact E. }
  assert (dict_get with_cargo column = dict_get fields column) as ->.
  { rewrite Hcargo.
    destruct (CarrierDataNormalizer._extract_cargo_carried r); [ | reflexivity].
    apply dict_get_set_other. apply String.eqb_neq.
    intros E. apply Hcarried. symmetry. exact E. }
  rewrite Hfed.
  destruct (mapped r CarrierDataNormalizer.FIELD_MAPPING column); reflexivity.
Qed.

(** The column email is the raw field email_address in lower case; the
    column fax, whose raw field is empty, is absent. *)
Lemma normalize_column_by_column_witness :
  dict_get
    (normal_form [("usdot_number", VInt 7); ("email_address", VStr "Ops@Carrier.COM ");
                  ("fax", VStr "")]) "email" =
    Some (CarrierDataNormalizer.CStr "ops@carrier.com") /\
  dict_get
    (normal_form [("usdot_number", VInt 7); ("email_address", VStr "Ops@Carrier.COM ");
                  ("fax", VStr "")]) "fax" = None.
Proof.
  split.
  - rewrite (normalize_column_by_column
               [("usdot_number", VInt 7); ("email_address", VStr "Ops@Carrier.COM ");
                ("fax", VStr "")]
               (normal_form [("usdot_number", VInt 7);
                             ("email_address", VStr "Ops@Carrier.COM ");
                             ("fax", VStr "")]) "email" eq_refl);
      [reflexivity | discriminate | discriminate | discriminate].
  - rewrite (normalize_column_by_column
               [("usdot_number", VInt 7); ("email_address", VStr "Ops@Carrier.COM ");
                ("fax", VStr "")]
               (normal_form [("usdot_number", VInt 7);
                             ("email_address", VStr "Ops@Carrier.COM ");
                             ("fax", VStr "")]) "fax" eq_refl);
      [reflexivity | discriminate | discriminate | discriminate].
Defined.

Section NormalizerInputs.
Import Json CarrierDataNormalizer.

Lemma lstrip_head (s : string) :
  match lstrip s with
  | EmptyString => True
  | String c _ => isspace c = false
  end.
Proof.
  induction s as [ | a s IH]; cbn; [exact I | ].
  destruct (isspace a) eqn:E; [exact IH | exact E].
Qed.

Lemma rstrip_head (c : ascii) (s : string) :
  isspace c = false -> exists t, rstrip (String c s) = String c t.
Proof.
  intros Hc. cbn. destruct (rstrip s) as [ | d u].
  - rewrite Hc. now exists "".
  - now exists (String d u).
Qed.

Lemma rstrip_cons (a : ascii) (s : string) :
  rstrip (String a s) =
  match rstrip s with
  | EmptyString => if isspace a then EmptyString else String a EmptyString
  | t => String a t
  end.
Proof. reflexivity. Qed.

Lemma rstrip_twice (s : string) : rstrip (rstrip s) = rstrip s.
Proof.
  induction s as [ | a s IH]; [reflexivity | ].
  rewrite rstrip_cons. destruct (rstrip s) as [ | d u] eqn:E.
  - destruct (isspace a) eqn:Ha; [reflexivity | ].
    rewrite rstrip_cons. cbn [rstrip]. rewrite Ha. reflexivity.
  - rewrite rstrip_cons, IH. reflexivity.
Qed.

Lemma strip_twice (s : string) : strip (strip s) = strip s.
Proof.
  unfold strip. pose proof (lstrip_head s) as Hhead.
  destruct (lstrip s) as [ | c t]; [reflexivity | ].
  destruct (rstrip_head c t Hhead) as [u Hu]. rewrite Hu.
  cbn [lstrip]. rewrite Hhead, <- Hu. apply rstrip_twice.
Qed.

(** The cargo types read from a list of fields: at most one for each
    field, each one stripped, not empty and not a null word. *)
Lemma cargo_types_of (record : RawRecord) (fields : list string) :
  let cargo_types :=
    flat_map
      (fun field =>
         match dict_get record field with
         | Some v =>
             if truthy v then
               let cargo := strip (str v) in
               if negb (cargo =? "")%string && negb (str_in (upper cargo) null_words)
               then [cargo] else []
             else []
         | None => []
         end) fields in
  (List.length cargo_types <= List.length fields)%nat /\
  Forall (fun t => t <> "" /\ strip t = t /\ str_in (upper t) null_words = false)
         cargo_types.
Proof.
  cbv zeta. induction fields as [ | f fields [IHlen IHall]]; cbn [flat_map].
  - split; [apply Nat.le_refl | constructor].
  - rewrite List.length_app, Forall_app. cbn [List.length].
    destruct (dict_get record f) as [v | ]; [ | split; [cbn [List.length Nat.add]; lia | split; [constructor | exact IHall]]].
    destruct (truthy v); [ | split; [cbn [List.length Nat.add]; lia | split; [constructor | exact IHall]]].
    destruct (negb (strip (str v) =? "")%string &&
              negb (str_in (upper (strip (str v))) null_words)) eqn:E;
      [ | split; [cbn [List.length Nat.add]; lia | split; [constructor | exact IHall]]].
    apply andb_prop in E. destruct E as [Hne Hnull].
    apply negb_true_iff in Hne, Hnull. apply String.eqb_neq in Hne.
    split; [cbn [List.length Nat.add]; lia | ]. split; [ | exact IHall].
    constructor; [ | constructor].
    split; [exact Hne | split; [apply strip_twice | exact Hnull]].
Qed.

Lemma map_fields_agree (r1 r2 : RawRecord) (mapping : list (string * string)) :
  (forall f, In f (map fst mapping) -> dict_get r1 f = dict_get r2 f) ->
  forall acc, map_fields r1 mapping acc = map_fields r2 mapping acc.
Proof.
  induction mapping as [ | [f db] rest IH]; intros Hsame acc; [reflexivity | ].
  cbn [map_fields]. rewrite <- (Hsame f) by (left; reflexivity).
  assert (forall acc', map_fields r1 rest acc' = map_fields r2 rest acc') as Hrest
    by (apply IH; intros g Hg; apply Hsame; right; exact Hg).
  destruct (dict_get r1 f) as [v | ]; [ | apply Hrest].
  destruct (has_content v); [ | apply Hrest].
  destruct (_clean_value db v) as [c | e]; cbn [bind]; [apply Hrest | reflexivity].
Qed.

Lemma cargo_agree (r1 r2 : RawRecord) :
  (forall f, In f cargo_fields -> dict_get r1 f = dict_get r2 f) ->
  _extract_cargo_carried r1 = _extract_cargo_carried r2.
Proof.
  intros Hsame. unfold _extract_cargo_carried.
  assert (forall fields,
             (forall f, In f fields -> dict_get r1 f = dict_get r2 f) ->
             forall g1 g2, (forall v, g1 v = g2 v) ->
             flat_map (fun field => match dict_get r1 field with
                                    | Some v => g1 v
                                    | None => []
                                    end) fields =
             flat_map (fun field => match dict_get r2 field with
                                    | Some v => g2 v
                                    | None => @nil string
                                    end) fields) as Hflat.
  { induction fields as [ | f fields IH]; intros Hf g1 g2 Hg; [reflexivity | ].
    cbn [flat_map]. rewrite (Hf f) by (left; reflexivity).
    rewrite (IH (fun g Hin => Hf g (or_intror Hin)) g1 g2 Hg).
    destruct (dict_get r2 f); [rewrite Hg | ]; reflexivity. }
  cbv zeta.
  rewrite (Hflat cargo_fields Hsame _ _ (fun v => eq_refl)). reflexivity.
Qed.

End NormalizerInputs.

(** X4.  White space around a raw text never matters to its cleaned value:
    [_clean_value] strips the text before any test, and stripping twice is
    stripping once. *)
Theorem clean_value_ignores_surrounding_space (field_name : string) (s : string) :
  CarrierDataNormalizer._clean_value field_name (VStr (strip s)) =
  CarrierDataNormalizer._clean_value field_name (VStr s).
Proof.
  unfold CarrierDataNormalizer._clean_value. cbv zeta.
  rewrite strip_twice. reflexivity.
Qed.

(** X5.  The cargo list [_extract_cargo_carried] returns is never empty,
    has at most one entry for each of the eight cargo fields, in the order
    of the fields, and every entry is stripped, not empty and not a null
    word. *)
Theorem cargo_list_is_clean (record : Json.RawRecord) (cargo : list string) :
  CarrierDataNormalizer._extract_cargo_carried record = Some cargo ->
  cargo <> [] /\ (List.length cargo <= 8)%nat /\
  Forall (fun t => t <> "" /\ strip t = t /\
                   str_in (upper t) CarrierDataNormalizer.null_words = false) cargo.
Proof.
  unfold CarrierDataNormalizer._extract_cargo_carried. cbv zeta.
  pose proof (cargo_types_of record CarrierDataNormalizer.cargo_fields) as [Hlen Hall].
  destruct (flat_map _ CarrierDataNormalizer.cargo_fields) as [ | t rest];
    [discriminate | ].
  intros E. injection E as <-. split; [discriminate | ]. split; [exact Hlen | exact Hall].
Qed.

(** Of three cargo fields, one a null word, two entries are kept. *)
Lemma cargo_list_is_clean_witness :
  ["General Freight"; "Metal"] <> [] /\
  (List.length ["General Freight"; "Metal"] <= 8)%nat /\
  Forall (fun t => t <> "" /\ strip t = t /\
                   str_in (upper t) CarrierDataNormalizer.null_words = false)
         ["General Freight"; "Metal"].
Proof.
  apply (cargo_list_is_clean
           [("cargo_carried_1", VStr " General Freight ");
            ("cargo_carried_2", VStr "n/a");
            ("cargo_carried_5", VStr "Metal")]).
  reflexivity.
Defined.

(** X6.  Two raw records that agree on the fields [normalize] reads (the
    fields of the mapping and the eight cargo fields) are both rejected
    with the same exception, or both normalized to records that agree on
    every column but the raw text. *)
Theorem normalize_reads_known_fields_only (r1 r2 : Json.RawRecord) :
  (forall f, known_field f = true -> dict_get r1 f = dict_get r2 f) ->
  match CarrierDataNormalizer.normalize r1, CarrierDataNormalizer.normalize r2 with
  | Ok n1, Ok n2 =>
      forall column, column <> "raw_data" -> dict_get n1 column = dict_get n2 column
  | Raise e1, Raise e2 => e1 = e2
  | _, _ => False
  end.
Proof.
  intros Hsame. unfold CarrierDataNormalizer.normalize.
  rewrite (map_fields_agree r1 r2 CarrierDataNormalizer.FIELD_MAPPING).
  2: { intros f Hf. apply Hsame. unfold known_field.
       apply str_in_In in Hf. rewrite Hf. reflexivity. }
  rewrite (cargo_agree r1 r2).
  2: { intros f Hf. apply Hsame. unfold known_field.
       apply str_in_In in Hf. rewrite Hf. apply orb_true_r. }
  destruct (CarrierDataNormalizer.map_fields r2 CarrierDataNormalizer.FIELD_MAPPING [])
    as [fields | e]; cbn [bind]; [ | reflexivity].
  cbv zeta.
  destruct (dict_get _ "usdot_number") as [usdot | ]; [ | reflexivity].
  intros column Hcolumn.
  rewrite !(dict_get_set_other _ "raw_data" column)
    by (apply String.eqb_neq; intros E; apply Hcolumn; symmetry; exact E).
  reflexivity.
Qed.

(** A field the normalizer does not know changes the raw text only: the
    legal name is the same with and without it. *)
Lemma normalize_reads_known_fields_only_witness :
  dict_get (normal_form [("usdot_number", VInt 7); ("legal_name", VStr "A")])
           "legal_name" =
  dict_get (normal_form [("usdot_number", VInt 7); ("legal_name", VStr "A");
                         ("fleet_size", VStr "12")]) "legal_name".
Proof.
  refine (normalize_reads_known_fields_only
            [("usdot_number", VInt 7); ("legal_name", VStr "A")]
            [("usdot_number", VInt 7); ("legal_name", VStr "A"); ("fleet_size", VStr "12")]
            _ "legal_name" _).
  - intros f Hf. cbn [dict_get].
    destruct (String.eqb_spec "fleet_size" f) as [<- | Hne];
      [discriminate Hf | reflexivity].
  - discriminate.
Defined.

Section PipelineAccounts.
Import Json CarrierDataNormalizer Store IngestionPipeline.
Context {D : Database}.
Variables batch_size max_errors : Z.

Lemma count_result_keeps status s s' :
  count_result status s = Ok s' ->
  total_fetched s' = total_fetched s /\ total_errors s' = total_errors s /\
  error_records s' = error_records s.
Proof.
  intros H. destruct (count_result_cases _ _ _ H) as [-> | [[n ->] | [n ->]]];
    repeat split.
Qed.

(** What a write does to the counters: one that does not raise leaves the
    errors alone; one that raises counts every record of the batch as an
    error and changes nothing else. *)
Lemma process_batch_account records is_update st :
  match _process_batch records is_update st with
  | (Ok _, st') =>
      total_errors (stats st') = total_errors (stats st) /\
      total_fetched (stats st') = total_fetched (stats st) /\
      error_records (stats st') = error_records (stats st)
  | (Raise _, st') =>
      total_errors (stats st') =
        total_errors (stats st) + Z.of_nat (List.length records) /\
      total_fetched (stats st') = total_fetched (stats st) /\
      error_records (stats st') = error_records (stats st) /\
      total_inserted (stats st') = total_inserted (stats st) /\
      total_updated (stats st') = total_updated (stats st)
  end.
Proof.
  unfold _process_batch.
  destruct records as [ | r records']; [repeat split | ].
  set (n := Z.of_nat (List.length (r :: records'))).
  destruct (100 <? n).
  - destruct (copy_records_to_table _ _) as [[ [] | e] d]; cbn; repeat split.
  - destruct (execute_upsert _ _) as [[status | e] d]; cbn; [ | repeat split].
    destruct (count_result status (stats st)) eqn:Hc; cbn; [ | repeat split].
    now apply count_result_keeps in Hc.
Qed.

(** The [try] body for one record hands the record to the normalizer,
    and neither counts fetched records nor logs an error. *)
Lemma buffer_record_account is_update record buffer st :
  let st' := snd (snd (buffer_record batch_size is_update record buffer st)) in
  processed st' = S (processed st) /\
  total_fetched (stats st') = total_fetched (stats st) /\
  error_records (stats st') = error_records (stats st) /\
  total_errors (stats st) <= total_errors (stats st').
Proof.
  unfold buffer_record.
  destruct (normalize record) as [normalized | e]; [ | cbn; repeat split; lia].
  destruct (batch_size <=? _); [ | cbn; repeat split; lia].
  pose proof (process_batch_processed (buffer ++ [normalized]) is_update
                                      (count_processed st)) as Hp.
  pose proof (process_batch_account (buffer ++ [normalized]) is_update
                                    (count_processed st)) as Ha.
  destruct (_process_batch _ _ _) as [[ [] | e] st']; cbn in *.
  - destruct Ha as [He [Hf Hr]]. repeat split; try assumption. lia.
  - destruct Ha as [He [Hf [Hr _]]]. repeat split; try assumption. lia.
Qed.

Lemma incremental_page_account api_batch : forall buffer st,
  let st' := snd (incremental_page batch_size api_batch buffer st) in
  processed st' = (processed st + List.length api_batch)%nat /\
  total_fetched (stats st') = total_fetched (stats st) /\
  error_records (stats st') = error_records (stats st).
Proof.
  induction api_batch as [ | record rest IH]; intros buffer st; cbn.
  - repeat split. lia.
  - unfold incremental_record.
    pose proof (buffer_record_account true record buffer st) as Hb.
    destruct (buffer_record batch_size true record buffer st)
      as [[ [] | e] [buffer' st1]]; cbn in Hb; destruct Hb as [Hp [Hf [Hr _]]].
    + destruct (IH buffer' st1) as [Hp' [Hf' Hr']]. cbn in *.
      repeat split; [lia | congruence | congruence].
    + destruct (IH buffer' (with_stats (add_errors 1) st1)) as [Hp' [Hf' Hr']].
      cbn in *. repeat split; [lia | congruence | congruence].
Qed.

Lemma incremental_pages_account pages : forall buffer st,
  let st' := snd (incremental_pages batch_size pages buffer st) in
  processed st' = (processed st + record_count pages)%nat /\
  total_fetched (stats st') = total_fetched (stats st) + Z.of_nat (record_count pages) /\
  error_records (stats st') = error_records (stats st).
Proof.
  unfold record_count.
  induction pages as [ | api_batch rest IH]; intros buffer st; cbn.
  - repeat split; lia.
  - pose proof (incremental_page_account api_batch buffer
                  (with_stats (add_fetched (Z.of_nat (List.length api_batch))) st)) as Hp.
    destruct (incremental_page _ _ _ _) as [buffer' st1].
    cbn in Hp. destruct Hp as [Hp [Hf Hr]].
    destruct (IH buffer' st1) as [Hp' [Hf' Hr']]. cbn in *.
    rewrite List.length_app. repeat split; [lia | lia | congruence].
Qed.

(** One record of the full run: the errors logged never outnumber the
    errors counted. *)
Lemma full_record_account record buffer st :
  let st' := snd (snd (full_record batch_size max_errors record buffer st)) in
  total_fetched (stats st') = total_fetched (stats st) /\
  (Z.of_nat (List.length (error_records (stats st))) <= total_errors (stats st) ->
   Z.of_nat (List.length (error_records (stats st'))) <= total_errors (stats st')).
Proof.
  unfold full_record.
  pose proof (buffer_record_account false record buffer st) as Hb.
  destruct (buffer_record batch_size false record buffer st)
    as [[ [] | e] [buffer' st1]]; cbn in Hb |- *; destruct Hb as [_ [Hf [Hr He]]].
  - split; [exact Hf | ]. rewrite Hr. lia.
  - split; [exact Hf | ]. rewrite Hr, List.length_app. cbn [List.length]. lia.
Qed.

Lemma full_page_account api_batch : forall buffer st,
  let st' := snd (full_page batch_size max_errors api_batch buffer st) in
  (processed st' <= processed st + List.length api_batch)%nat /\
  total_fetched (stats st') = total_fetched (stats st) /\
  (Z.of_nat (List.length (error_records (stats st))) <= total_errors (stats st) ->
   Z.of_nat (List.length (error_records (stats st'))) <= total_errors (stats st')).
Proof.
  induction api_batch as [ | record rest IH]; intros buffer st; cbn.
  - repeat split; [lia | trivial].
  - pose proof (full_record_processed batch_size max_errors record buffer st) as Hp.
    pose proof (full_record_account record buffer st) as Ha.
    destruct (full_record batch_size max_errors record buffer st)
      as [[ | ] [buffer' st1]]; cbn in Hp, Ha |- *; destruct Ha as [Hf Hr].
    + repeat split; [lia | exact Hf | exact Hr].
    + destruct (IH buffer' st1) as [Hp' [Hf' Hr']]. cbn in *.
      repeat split; [lia | congruence | auto].
Qed.

Lemma full_pages_account pages : forall buffer st,
  let st' := snd (snd (full_pages batch_size max_errors pages buffer st)) in
  (processed st' - processed st <= record_count pages)%nat /\
  Z.of_nat (processed st' - processed st) <=
    total_fetched (stats st') - total_fetched (stats st) <=
    Z.of_nat (record_count pages) /\
  (Z.of_nat (List.length (error_records (stats st))) <= total_errors (stats st) ->
   Z.of_nat (List.length (error_records (stats st'))) <= total_errors (stats st')).
Proof.
  unfold record_count.
  induction pages as [ | api_batch rest IH]; intros buffer st; cbn.
  - repeat split; [lia | lia | lia | trivial].
  - pose proof (full_page_account api_batch buffer
                  (with_stats (add_fetched (Z.of_nat (List.length api_batch))) st)) as Hp.
    destruct (full_page _ _ _ _ _) as [buffer' st1].
    cbn in Hp. destruct Hp as [Hp [Hf Hr]]. rewrite List.length_app.
    destruct (max_errors <=? total_errors (stats st1)); cbn.
    + repeat split; [lia | lia | lia | exact Hr].
    + destruct (IH buffer' st1) as [Hp' [Hf' Hr']]. cbn in *.
      repeat split; [lia | lia | lia | auto].
Qed.

End PipelineAccounts.

(** X7.  An incremental update, for every store, batch size and sequence
    of pages, hands every record of every page to the normalizer: no error
    ends its loop.  It counts every fetched record and logs no error
    record, whatever the number of errors. *)
Theorem incremental_update_reads_every_record
        {D : Store.Database} (batch_size : Z)
        (pages : list (list Json.RawRecord)) (d : Store.db) :
  let r := IngestionPipeline.run_incremental_update batch_size pages d in
  IngestionPipeline.processed (IngestionPipeline.final r) = record_count pages /\
  IngestionPipeline.total_fetched (IngestionPipeline.stats (IngestionPipeline.final r)) =
    Z.of_nat (record_count pages) /\
  IngestionPipeline.error_records (IngestionPipeline.stats (IngestionPipeline.final r)) = [] /\
  IngestionPipeline.stopped r = false.
Proof.
  unfold IngestionPipeline.run_incremental_update.
  pose proof (incremental_pages_account batch_size pages []
                (IngestionPipeline.mkState IngestionPipeline.new_stats d [] 0)) as Hloop.
  destruct (IngestionPipeline.incremental_pages batch_size pages []
              (IngestionPipeline.mkState IngestionPipeline.new_stats d [] 0))
    as [buffer st].
  cbn in Hloop. destruct Hloop as [Hp [Hf Hr]]. cbv zeta.
  destruct buffer as [ | n buffer']; [cbn; repeat split; assumption | ].
  pose proof (process_batch_processed (n :: buffer') true st) as Hp'.
  pose proof (process_batch_account (n :: buffer') true st) as Ha.
  destruct (IngestionPipeline._process_batch (n :: buffer') true st)
    as [[ [] | e] st']; cbn in Hp', Ha |- *.
  - destruct Ha as [_ [Hf' Hr']]. repeat split; congruence.
  - destruct Ha as [_ [Hf' [Hr' _]]]. repeat split; congruence.
Qed.

(** X8.  The counters of a full ingestion, for every store, batch size,
    budget and sequence of pages: the records handed to the normalizer
    are no more than the records counted as fetched, since a page is
    counted whole when the loop enters it, and these are no more than the
    records of the pages; the error records logged are no more than the
    errors counted. *)
Theorem full_ingestion_counters
        {D : Store.Database} (batch_size max_errors : Z)
        (pages : list (list Json.RawRecord)) (d : Store.db) :
  let s := IngestionPipeline.final
             (IngestionPipeline.run_full_ingestion batch_size max_errors pages d) in
  Z.of_nat (IngestionPipeline.processed s) <=
    IngestionPipeline.total_fetched (IngestionPipeline.stats s) <=
    Z.of_nat (record_count pages) /\
  Z.of_nat (List.length (IngestionPipeline.error_records (IngestionPipeline.stats s))) <=
    IngestionPipeline.total_errors (IngestionPipeline.stats s).
Proof.
  unfold IngestionPipeline.run_full_ingestion.
  pose proof (full_pages_account batch_size max_errors pages []
                (IngestionPipeline.mkState IngestionPipeline.new_stats d [] 0)) as Hloop.
  destruct (IngestionPipeline.full_pages batch_size max_errors pages []
              (IngestionPipeline.mkState IngestionPipeline.new_stats d [] 0))
    as [stopped [buffer st]].
  cbn in Hloop. destruct Hloop as [Hp [Hf Hr]]. specialize (Hr ltac:(lia)).
  unfold IngestionPipeline.finish.
  destruct buffer as [ | n buffer']; [cbn; lia | ].
  pose proof (process_batch_processed (n :: buffer') false st) as Hp'.
  pose proof (process_batch_account (n :: buffer') false st) as Ha.
  destruct (IngestionPipeline._process_batch (n :: buffer') false st)
    as [[ [] | e] st']; cbn in Hp', Ha |- *.
  - destruct Ha as [He [Hf' Hr']]. rewrite Hp', Hf', Hr', He. lia.
  - destruct Ha as [He [Hf' [Hr' _]]]. rewrite Hp', Hf', Hr', He. lia.
Qed.

(** X9.  When a record fills the buffer and the write of the buffer
    raises, the full run counts every record of the batch as an error and
    one error more for the record at hand, logs one error record with the
    key of that record, and keeps the whole batch in the buffer, so that
    the next record writes it again. *)
Theorem failed_write_counts_the_batch_and_one
        {D : Store.Database} (batch_size max_errors : Z)
        (record : Json.RawRecord) (normalized : CarrierDataNormalizer.CanonicalRecord)
        (buffer : list CarrierDataNormalizer.CanonicalRecord)
        (st : IngestionPipeline.state) (e : exn) :
  CarrierDataNormalizer.normalize record = Ok normalized ->
  batch_size <= Z.of_nat (List.length buffer) + 1 ->
  fst (IngestionPipeline._process_batch
         (buffer ++ [normalized]) false (IngestionPipeline.count_processed st)) = Raise e ->
  let (_, bs) := IngestionPipeline.full_record batch_size max_errors record buffer st in
  fst bs = buffer ++ [normalized] /\
  IngestionPipeline.total_errors (IngestionPipeline.stats (snd bs)) =
    IngestionPipeline.total_errors (IngestionPipeline.stats st) +
    Z.of_nat (List.length buffer) + 2 /\
  IngestionPipeline.error_records (IngestionPipeline.stats (snd bs)) =
    IngestionPipeline.error_records (IngestionPipeline.stats st) ++
    [(dict_get record "usdot_number", e)] /\
  IngestionPipeline.total_inserted (IngestionPipeline.stats (snd bs)) =
    IngestionPipeline.total_inserted (IngestionPipeline.stats st) /\
  IngestionPipeline.total_updated (IngestionPipeline.stats (snd bs)) =
    IngestionPipeline.total_updated (IngestionPipeline.stats st).
Proof.
  intros Hnorm Hfull Hraise.
  unfold IngestionPipeline.full_record, IngestionPipeline.buffer_record.
  rewrite Hnorm.
  assert ((batch_size <=? Z.of_nat (List.length (buffer ++ [normalized]))) = true) as ->.
  { apply Z.leb_le. rewrite List.length_app. cbn [List.length]. lia. }
  pose proof (process_batch_account (buffer ++ [normalized]) false
                (IngestionPipeline.count_processed st)) as Ha.
  destruct (IngestionPipeline._process_batch (buffer ++ [normalized]) false
              (IngestionPipeline.count_processed st)) as [[ [] | e'] st'];
    cbn in Hraise; [discriminate Hraise | ].
  injection Hraise as ->. destruct Ha as [He [_ [Hr [Hi Hu]]]].
  rewrite List.length_app in He. cbn in He |- *.
  rewrite He, Hr, Hi, Hu. repeat split. lia.
Qed.

(** Two records with the same key and a batch size of two: the one
    statement touches the key twice and raises, and two records make
    three errors. *)
Lemma failed_write_counts_the_batch_and_one_witness :
  let (_, bs) :=
    IngestionPipeline.full_record (D := Postgres.postgres) 2 100
      (carrier 7) (normalized [carrier 7])
      (IngestionPipeline.mkState (D := Postgres.postgres)
         IngestionPipeline.new_stats ([] : Postgres.table) [] 0) in
  fst bs = normalized [carrier 7] ++ [normal_form (carrier 7)] /\
  IngestionPipeline.total_errors (IngestionPipeline.stats (snd bs)) = 0 + 1 + 2 /\
  IngestionPipeline.error_records (IngestionPipeline.stats (snd bs)) =
    [] ++ [(Some (VInt 7), Postgres.cardinality_violation)] /\
  IngestionPipeline.total_inserted (IngestionPipeline.stats (snd bs)) = 0 /\
  IngestionPipeline.total_updated (IngestionPipeline.stats (snd bs)) = 0.
Proof.
  exact (failed_write_counts_the_batch_and_one
           (D := Postgres.postgres) 2 100
           (carrier 7) (normal_form (carrier 7)) (normalized [carrier 7])
           (IngestionPipeline.mkState (D := Postgres.postgres)
              IngestionPipeline.new_stats ([] : Postgres.table) [] 0)
           Postgres.cardinality_violation
           eq_refl ltac:(vm_compute; discriminate) eq_refl).
Defined.

Section ClientAccounts.
Import Json FMCSAClient.
Variable c : client.
Variable srv : server.

Lemma fetch_account_step (remaining : nat) (w w1 : world)
      (rw : result (list RawRecord) * world) :
  requests w1 = S (requests w) ->
  (List.length (slept w1) <= S (List.length (slept w)))%nat ->
  total_requests w <= total_requests w1 ->
  failed_requests w <= failed_requests w1 ->
  total_records w1 = total_records w ->
  (forall data, fst rw = Ok data -> total_requests w + 1 <= total_requests (snd rw)) ->
  fetch_account remaining w1 rw ->
  fetch_account (S remaining) w rw.
Proof.
  unfold fetch_account. destruct rw as [r w'].
  intros Hreq Hslept Htotal Hfailed Hrecords Hok [Hr [Hs [Ht [Hf Hcase]]]].
  repeat split; try lia.
  destruct r as [data | e].
  - destruct Hcase as [Hrec [Hone Hlt]]. specialize (Hok data eq_refl). cbn in Hok.
    repeat split; lia.
  - destruct Hcase as [Hrec Hfail]. split; lia.
Qed.

Lemma backoff_slept (attempt : Z) (w : world) :
  requests (backoff c attempt w) = requests w /\
  (List.length (slept (backoff c attempt w)) <= S (List.length (slept w)))%nat /\
  total_requests (backoff c attempt w) = total_requests w /\
  failed_requests (backoff c attempt w) = failed_requests w /\
  total_records (backoff c attempt w) = total_records w.
Proof.
  unfold backoff. destruct (attempt <? max_retries c - 1); cbn; repeat split; try lia.
  rewrite List.length_app. cbn. lia.
Qed.

Lemma attempts_account (remaining : nat) : forall attempt w,
  fetch_account remaining w (attempts c srv remaining attempt w).
Proof.
  induction remaining as [ | n IH]; intros attempt w.
  - cbn. repeat split; lia.
  - assert (forall w1,
               requests w1 = S (requests w) ->
               (List.length (slept w1) <= S (List.length (slept w)))%nat ->
               total_requests w <= total_requests w1 ->
               failed_requests w <= failed_requests w1 ->
               total_records w1 = total_records w ->
               fetch_account (S n) w (attempts c srv n (attempt + 1) w1)) as Hnext.
    { intros w1 Hreq Hslept Htotal Hfailed Hrecords.
      apply (fetch_account_step n w w1); try assumption; [ | apply IH].
      intros data Hdata. pose proof (IH (attempt + 1) w1) as Hacc.
      unfold fetch_account in Hacc.
      destruct (attempts c srv n (attempt + 1) w1) as [r w']. cbn in Hdata |- *.
      subst r. destruct Hacc as [_ [_ [_ [_ [_ [Hone _]]]]]]. lia. }
    assert (forall e w1,
               requests w1 = S (requests w) ->
               slept w1 = slept w ->
               total_requests w <= total_requests w1 ->
               failed_requests w <= failed_requests w1 ->
               total_records w1 = total_records w ->
               fetch_account (S n) w
                 (let w2 := count_failure w1 in
                  if attempt =? max_retries c - 1 then (Raise e, w2)
                  else attempts c srv n (attempt + 1) (backoff c attempt w2))) as Hunexpected.
    { intros e w1 Hreq Hslept Htotal Hfailed Hrecords. cbv zeta.
      destruct (attempt =? max_retries c - 1).
      - cbn. rewrite Hreq, Hslept, Hrecords. repeat split; lia.
      - destruct (backoff_slept attempt (count_failure w1)) as [Hb1 [Hb2 [Hb3 [Hb4 Hb5]]]].
        cbn in Hb1, Hb2, Hb3, Hb4, Hb5.
        apply Hnext; [congruence | rewrite <- Hslept; exact Hb2 | lia | lia | congruence]. }
    cbn [attempts].
    destruct (srv (requests w)) as [status_code header body | | e].
    + destruct (status_code =? 429).
      * destruct (retry_after_seconds header) as [retry_after | e].
        -- apply Hnext; cbn; try lia. rewrite List.length_app. cbn. lia.
        -- apply Hunexpected; cbn; try reflexivity; lia.
      * destruct (is_success status_code).
        -- destruct body as [data | ].
           ++ cbn. repeat split; lia.
           ++ apply Hunexpected; cbn; try reflexivity; lia.
        -- destruct (500 <=? status_code).
           ++ destruct (backoff_slept attempt (request_sent w)) as [Hb1 [Hb2 [Hb3 [Hb4 Hb5]]]].
              cbn in Hb1, Hb2, Hb3, Hb4, Hb5.
              apply Hnext; [exact Hb1 | exact Hb2 | lia | lia | exact Hb5].
           ++ cbn. repeat split; lia.
    + destruct (backoff_slept attempt (request_sent w)) as [Hb1 [Hb2 [Hb3 [Hb4 Hb5]]]].
      cbn in Hb1, Hb2, Hb3, Hb4, Hb5.
      apply Hnext; [exact Hb1 | exact Hb2 | lia | lia | exact Hb5].
    + apply Hunexpected; cbn; try reflexivity; lia.
Qed.

End ClientAccounts.

(** X10.  One page fetch sends at most [max_retries] requests and sleeps at
    most once after each request, whatever the endpoint answers; a client
    with no retries allowed sends nothing and raises the terminal
    exception at once. *)
Theorem fetch_batch_effort_is_bounded
        (c : FMCSAClient.client) (srv : FMCSAClient.server) (w : FMCSAClient.world) :
  let (r, w') := FMCSAClient.fetch_batch c srv w in
  (FMCSAClient.requests w <= FMCSAClient.requests w' <=
   FMCSAClient.requests w + Z.to_nat (FMCSAClient.max_retries c))%nat /\
  (List.length (FMCSAClient.slept w') <=
   List.length (FMCSAClient.slept w) +
   (FMCSAClient.requests w' - FMCSAClient.requests w))%nat /\
  (FMCSAClient.max_retries c <= 0 ->
   r = Raise (FMCSAClient.terminal_error c) /\
   FMCSAClient.requests w' = FMCSAClient.requests w /\
   FMCSAClient.slept w' = FMCSAClient.slept w).
Proof.
  unfold FMCSAClient.fetch_batch.
  pose proof (attempts_account c srv (Z.to_nat (FMCSAClient.max_retries c)) 0 w) as Hacc.
  unfold fetch_account in Hacc.
  destruct (FMCSAClient.attempts c srv (Z.to_nat (FMCSAClient.max_retries c)) 0 w)
    as [r w'] eqn:Hrun.
  destruct Hacc as [Hreq [Hslept _]].
  split; [exact Hreq | ]. split; [exact Hslept | ].
  intros Hnone. replace (Z.to_nat (FMCSAClient.max_retries c)) with 0%nat in Hrun by lia.
  cbn in Hrun. injection Hrun as <- <-. repeat split.
Qed.

(** A client with no retries allowed sends nothing. *)
Lemma fetch_batch_effort_is_bounded_witness :
  let (r, w') :=
    FMCSAClient.fetch_batch (FMCSAClient.mkClient 0 1 2)
      (fun _ => FMCSAClient.Response 200 None (Some [])) FMCSAClient.start in
  r = Raise (FMCSAClient.terminal_error (FMCSAClient.mkClient 0 1 2)) /\
  FMCSAClient.requests w' = 0%nat /\
  FMCSAClient.slept w' = [].
Proof.
  pose proof (fetch_batch_effort_is_bounded
                (FMCSAClient.mkClient 0 1 2)
                (fun _ => FMCSAClient.Response 200 None (Some []))
                FMCSAClient.start) as H.
  cbn in H |- *. destruct H as [_ [_ H]]. apply H. lia.
Defined.

(** X11.  The counters after one page fetch, whatever the endpoint
    answers: a fetch that returns a page adds the length of the page to
    the records counted and at least one to the requests counted; a fetch
    that raises counts no record and at least one failed request.  No
    counter ever decreases. *)
Theorem fetch_batch_counters
        (c : FMCSAClient.client) (srv : FMCSAClient.server) (w : FMCSAClient.world) :
  let (r, w') := FMCSAClient.fetch_batch c srv w in
  FMCSAClient.total_requests w <= FMCSAClient.total_requests w' /\
  FMCSAClient.failed_requests w <= FMCSAClient.failed_requests w' /\
  match r with
  | Ok data =>
      FMCSAClient.total_records w' =
        FMCSAClient.total_records w + Z.of_nat (List.length data) /\
      FMCSAClient.total_requests w + 1 <= FMCSAClient.total_requests w'
  | Raise _ =>
      FMCSAClient.total_records w' = FMCSAClient.total_records w /\
      FMCSAClient.failed_requests w + 1 <= FMCSAClient.failed_requests w'
  end.
Proof.
  unfold FMCSAClient.fetch_batch.
  pose proof (attempts_account c srv (Z.to_nat (FMCSAClient.max_retries c)) 0 w) as Hacc.
  unfold fetch_account in Hacc.
  destruct (FMCSAClient.attempts c srv (Z.to_nat (FMCSAClient.max_retries c)) 0 w)
    as [r w'].
  destruct Hacc as [_ [_ [Htotal [Hfailed Hcase]]]].
  split; [exact Htotal | ]. split; [exact Hfailed | ].
  destruct r as [data | e]; [ | exact Hcase].
  destruct Hcase as [Hrec [Hone _]]. split; assumption.
Qed.

Section ClientDecisions.
Import Json FMCSAClient.
Variable c : client.
Variable srv : server.

(** After [k] transient failures with attempts left, the loop is at
    attempt [k] with one backoff slept for each failure. *)
Lemma fetch_batch_after_transient (w : world) (k : nat) :
  Z.of_nat k < max_retries c ->
  (forall i, (i < k)%nat -> transient (srv (requests w + i)%nat) = true) ->
  exists n,
    fetch_batch c srv w =
    attempts c srv (S n) (Z.of_nat k)
      (mkWorld (requests w + k)%nat
               (slept w ++ map (fun j => delay c (Z.of_nat j)) (seq 0 k))
               (total_requests w) (total_records w) (failed_requests w)).
Proof.
  intros Hk Hall. exists (Z.to_nat (max_retries c) - k - 1)%nat.
  unfold fetch_batch.
  replace (Z.to_nat (max_retries c))
    with (k + S (Z.to_nat (max_retries c) - k - 1))%nat at 1 by lia.
  rewrite attempts_transient_prefix; try assumption; try lia.
  reflexivity.
Qed.

End ClientDecisions.

(** X12.  A page fetch whose first [k] attempts meet transient failures
    and whose next attempt, still within [max_retries], is answered with
    a 2xx status and a JSON body returns that body after [k + 1] requests
    and the [k] backoff delays; it counts one request and the records of
    the body, and no failed request. *)
Theorem page_is_returned_after_transient_failures
        (c : FMCSAClient.client) (srv : FMCSAClient.server)
        (w : FMCSAClient.world) (k : nat)
        (status_code : Z) (header : option string) (data : list Json.RawRecord) :
  Z.of_nat k < FMCSAClient.max_retries c ->
  (forall i, (i < k)%nat -> transient (srv (FMCSAClient.requests w + i)%nat) = true) ->
  srv (FMCSAClient.requests w + k)%nat =
    FMCSAClient.Response status_code header (Some data) ->
  FMCSAClient.is_success status_code = true ->
  FMCSAClient.fetch_batch c srv w =
  (Ok data,
   FMCSAClient.mkWorld
     (S (FMCSAClient.requests w + k))
     (FMCSAClient.slept w ++ map (fun j => delay c (Z.of_nat j)) (seq 0 k))
     (FMCSAClient.total_requests w + 1)
     (FMCSAClient.total_records w + Z.of_nat (List.length data))
     (FMCSAClient.failed_requests w)).
Proof.
  intros Hk Hall Hreply Hok.
  destruct (fetch_batch_after_transient c srv w k Hk Hall) as [n ->].
  cbn [FMCSAClient.attempts FMCSAClient.requests]. rewrite Hreply.
  assert ((status_code =? 429) = false) as ->
    by (unfold FMCSAClient.is_success in Hok; lia).
  rewrite Hok. reflexivity.
Qed.

(** With the defaults, a timeout and a 503 followed by a page of one
    record: three requests, delays of 1 and 2 seconds. *)
Lemma page_is_returned_after_transient_failures_witness :
  FMCSAClient.fetch_batch FMCSAClient.default_client
    (fun n => match n with
              | 0%nat => FMCSAClient.TimedOut
              | 1%nat => FMCSAClient.Response 503 None None
              | _ => FMCSAClient.Response 200 None (Some [carrier 7])
              end) FMCSAClient.start =
  (Ok [carrier 7], FMCSAClient.mkWorld 3 [1%Q; 2%Q] 1 1 0).
Proof.
  rewrite (page_is_returned_after_transient_failures
             FMCSAClient.default_client _ FMCSAClient.start 2
             200 None [carrier 7]).
  - reflexivity.
  - reflexivity.
  - intros [ | [ | i]] Hi; [reflexivity | reflexivity | lia].
  - reflexivity.
  - reflexivity.
Defined.

(** X13.  A reply with a status below 500 that is neither 2xx nor 429 (a
    client error, a redirect) is never retried: after [k] transient
    failures it ends the fetch at request [k + 1] with the status error,
    one failed request counted, however many attempts are left. *)
Theorem client_error_is_never_retried
        (c : FMCSAClient.client) (srv : FMCSAClient.server)
        (w : FMCSAClient.world) (k : nat)
        (status_code : Z) (header : option string)
        (body : option (list Json.RawRecord)) :
  Z.of_nat k < FMCSAClient.max_retries c ->
  (forall i, (i < k)%nat -> transient (srv (FMCSAClient.requests w + i)%nat) = true) ->
  srv (FMCSAClient.requests w + k)%nat = FMCSAClient.Response status_code header body ->
  status_code <> 429 -> FMCSAClient.is_success status_code = false ->
  status_code < 500 ->
  FMCSAClient.fetch_batch c srv w =
  (Raise (HTTPStatusError status_code),
   FMCSAClient.mkWorld
     (S (FMCSAClient.requests w + k))
     (FMCSAClient.slept w ++ map (fun j => delay c (Z.of_nat j)) (seq 0 k))
     (FMCSAClient.total_requests w)
     (FMCSAClient.total_records w)
     (FMCSAClient.failed_requests w + 1)).
Proof.
  intros Hk Hall Hreply Hlimit Hok Hclient.
  destruct (fetch_batch_after_transient c srv w k Hk Hall) as [n ->].
  cbn [FMCSAClient.attempts FMCSAClient.requests]. rewrite Hreply.
  assert ((status_code =? 429) = false) as -> by lia.
  rewrite Hok.
  assert ((500 <=? status_code) = false) as -> by lia.
  reflexivity.
Qed.

(** With ten attempts allowed, a 404 on the first request ends the fetch
    after that one request. *)
Lemma client_error_is_never_retried_witness :
  FMCSAClient.fetch_batch (FMCSAClient.mkClient 10 1 2)
    (fun _ => FMCSAClient.Response 404 None None) FMCSAClient.start =
  (Raise (HTTPStatusError 404), FMCSAClient.mkWorld 1 [] 0 0 1).
Proof.
  rewrite (client_error_is_never_retried
             (FMCSAClient.mkClient 10 1 2) _ FMCSAClient.start 0 404 None None).
  - reflexivity.
  - reflexivity.
  - intros i Hi. lia.
  - reflexivity.
  - discriminate.
  - reflexivity.
  - reflexivity.
Defined.

(** ** The pages of a query *)

Section PagesProperties.
Import Json FMCSAClient FMCSAClientPages.

Variable c : client.
Variable api : endpoint.
Variable batch_size : Z.
Variable where_ select : option string.
Variable rate_limit_delay : Q.

(** A first reply with a 2xx status and a JSON body is returned at once. *)
Lemma fetch_batch_first_reply (srv : server) (w : world)
      (status_code : Z) (header : option string) (data : list RawRecord) :
  1 <= max_retries c ->
  srv (requests w) = Response status_code header (Some data) ->
  is_success status_code = true ->
  FMCSAClient.fetch_batch c srv w =
  (Ok data,
   mkWorld (S (requests w)) (slept w) (total_requests w + 1)
           (total_records w + Z.of_nat (List.length data)) (failed_requests w)).
Proof.
  intros Hretries Hreply Hok. unfold FMCSAClient.fetch_batch.
  destruct (Z.to_nat (max_retries c)) as [ | n] eqn:Hn; [lia | ].
  cbn [attempts]. rewrite Hreply.
  assert ((status_code =? 429) = false) as -> by (unfold is_success in Hok; lia).
  rewrite Hok. reflexivity.
Qed.

(** The pages the loop yields are not empty, and each one but the last
    is full. *)
Lemma pages_from_shape (fuel : nat) : forall estimated_total offset w pages r w',
  pages_from c api batch_size where_ select rate_limit_delay
             fuel estimated_total offset w = Some (pages, r, w') ->
  Forall (fun page => page <> []) pages /\ full_but_last batch_size pages = true.
Proof.
  induction fuel as [ | fuel IH]; intros estimated_total offset w pages r w';
    [discriminate | ].
  cbn [pages_from].
  destruct (FMCSAClientPages.fetch_batch c api batch_size offset where_ select w)
    as [[batch | e] w1].
  2: { intros H. injection H as <- <- <-. split; [constructor | reflexivity]. }
  destruct batch as [ | record batch'].
  { intros H. injection H as <- <- <-. split; [constructor | reflexivity]. }
  set (batch := record :: batch') in *.
  destruct ((offset + Z.of_nat (List.length batch)) mod 100000 =? 0) eqn:Hmod;
    destruct (estimated_total =? 0) eqn:Hest; cbn [andb].
  1: { intros H. injection H as <- <- <-.
       split; [constructor; [discriminate | constructor] | reflexivity]. }
  all: destruct (Z.of_nat (List.length batch) <? batch_size) eqn:Hshort;
    [intros H; injection H as <- <- <-;
     split; [constructor; [discriminate | constructor] | reflexivity] | ].
  all: destruct (pages_from c api batch_size where_ select rate_limit_delay fuel _ _ _)
    as [[[pages' r'] w2] | ] eqn:Hrest; [ | discriminate].
  all: intros H; injection H as <- <- <-.
  all: destruct (IH _ _ _ _ _ _ Hrest) as [Hall Hfull].
  all: split; [constructor; [discriminate | exact Hall] | ].
  all: cbn [full_but_last]; destruct pages' as [ | page pages'']; [reflexivity | ].
  all: apply andb_true_intro; split; [apply Z.leb_le; lia | exact Hfull].
Qed.

End PagesProperties.

Section ServedPages.
Import Json FMCSAClient FMCSAClientPages.

Variable c : client.
Variable api : endpoint.
Variable data : list RawRecord.
Variable batch_size : Z.
Variable select : option string.
Variable rate_limit_delay : Q.

Hypothesis Hretries : 1 <= max_retries c.
Hypothesis Hserves : serves data select api.

Lemma served_fetch (limit offset : Z) (w : world) :
  limit <= MAX_RECORDS_PER_REQUEST ->
  FMCSAClientPages.fetch_batch c api limit offset None select w =
  (Ok (firstn (Z.to_nat limit) (skipn (Z.to_nat offset) data)),
   mkWorld (S (requests w)) (slept w) (total_requests w + 1)
           (total_records w +
            Z.of_nat (List.length (firstn (Z.to_nat limit) (skipn (Z.to_nat offset) data))))
           (failed_requests w)).
Proof.
  intros Hlimit. unfold FMCSAClientPages.fetch_batch.
  rewrite Z.min_l by exact Hlimit.
  apply (fetch_batch_first_reply c _ w 200 None); [exact Hretries | | reflexivity].
  change (sent None) with (@None string). apply Hserves.
Qed.

(** Against an endpoint that serves [data], the loop started at [offset]
    yields the rest of the data in pages of [batch_size] records, with one
    request for each page and one more when the last page is full. *)
Lemma pages_from_served (fuel : nat) : forall estimated_total offset w,
  1 <= batch_size <= MAX_RECORDS_PER_REQUEST ->
  estimated_total <> 0 ->
  0 <= offset -> 0 <= total_requests w ->
  let rest := skipn (Z.to_nat offset) data in
  let full := (List.length rest / Z.to_nat batch_size)%nat in
  (full < fuel)%nat ->
  exists pages,
    pages_from c api batch_size None select rate_limit_delay
               fuel estimated_total offset w =
    Some (pages, Ok tt,
          mkWorld (requests w + full + 1)%nat
                  (slept w ++ repeat rate_limit_delay full)
                  (total_requests w + Z.of_nat full + 1)
                  (total_records w + Z.of_nat (List.length rest))
                  (failed_requests w)) /\
    List.concat pages = rest /\
    List.length pages = (full + if (List.length rest mod Z.to_nat batch_size =? 0)%nat
                                then 0 else 1)%nat.
Proof.
  induction fuel as [ | fuel IH]; intros estimated_total offset w Hsize Hest Hoffset Htotal;
    cbv zeta; [lia | ].
  intros Hfuel. cbn [pages_from].
  rewrite served_fetch by lia.
  set (rest := skipn (Z.to_nat offset) data) in *.
  set (b := Z.to_nat batch_size) in *.
  assert (1 <= b)%nat as Hb by lia.
  pose proof (Nat.div_mod_eq (List.length rest) b) as Hdiv.
  pose proof (Nat.mod_upper_bound (List.length rest) b ltac:(lia)) as Hmod.
  destruct (Nat.lt_ge_cases (List.length rest) b) as [Hshort | Hlong].
  - (* the last page *)
    rewrite firstn_all2 by lia.
    assert ((List.length rest / b)%nat = 0%nat) as Hzero by (apply Nat.div_small; lia).
    rewrite Hzero in *. cbn [repeat]. rewrite List.app_nil_r, !Nat.add_0_r, !Z.add_0_r.
    assert (forall w1, total_requests w1 = total_requests w + 1 ->
                       _log_statistics w1 = Ok tt) as Hlog.
    { intros w1 Hw1. unfold _log_statistics. rewrite Hw1.
      destruct (Z.eqb_spec (total_requests w + 1) 0); [lia | reflexivity]. }
    assert ((List.length rest mod b)%nat = List.length rest) as Hrem
        by (apply Nat.mod_small; lia).
    rewrite Hrem.
    destruct rest as [ | record rest'] eqn:Hrest.
    + exists []. rewrite Hlog by reflexivity. cbn [List.length Z.of_nat].
      rewrite Z.add_0_r, Nat.add_1_r. repeat split.
    + exists [record :: rest'].
      assert ((estimated_total =? 0) = false) as -> by lia.
      rewrite andb_false_r.
      assert ((Z.of_nat (List.length (record :: rest')) <? batch_size) = true) as ->
          by (apply Z.ltb_lt; lia).
      rewrite Hlog by reflexivity.
      rewrite Nat.add_1_r. cbn [List.concat]. rewrite List.app_nil_r. repeat split.
  - (* a full page *)
    assert (List.length (firstn b rest) = b) as Hfull
        by (rewrite List.length_firstn; lia).
    rewrite Hfull.
    destruct (firstn b rest) as [ | record page'] eqn:Hpage;
      [cbn in Hfull; lia | ].
    assert ((estimated_total =? 0) = false) as -> by lia.
    rewrite andb_false_r.
    assert ((Z.of_nat b <? batch_size) = false) as -> by (apply Z.ltb_ge; lia).
    assert (skipn (Z.to_nat (offset + Z.of_nat b)) data = skipn b rest) as Hnext.
    { subst rest. rewrite List.skipn_skipn. f_equal. lia. }
    assert (List.length (skipn b rest) = (List.length rest - b)%nat) as Hlen
        by apply List.length_skipn.
    assert ((List.length (skipn b rest) / b)%nat = (List.length rest / b - 1)%nat /\
            (List.length (skipn b rest) mod b)%nat = (List.length rest mod b)%nat)
      as [Hq Hr].
    { rewrite Hlen.
      assert (List.length rest = (List.length rest - b + 1 * b)%nat) as Hsplit by lia.
      rewrite Hsplit at 2 4. rewrite Nat.div_add, Nat.Div0.mod_add by lia. lia. }
    assert (1 <= List.length rest / b)%nat as Hone.
    { apply Nat.div_le_lower_bound; lia. }
    match goal with
    | |- context [pages_from c api batch_size None select rate_limit_delay
                             fuel estimated_total ?o ?w1] =>
        destruct (IH estimated_total o w1 Hsize Hest ltac:(lia) ltac:(cbn; lia))
          as [pages [Hrun [Hconcat Hcount]]];
          [rewrite Hnext, Hq; lia | ]
    end.
    rewrite Hrun. exists ((record :: page') :: pages).
    rewrite Hnext, Hq, Hr in *. cbn [requests slept total_requests total_records
                                     failed_requests sleep].
    split; [ | split].
    + f_equal. f_equal. f_equal.
      * lia.
      * rewrite <- List.app_assoc. f_equal.
        replace (List.length rest / b)%nat with (S (List.length rest / b - 1)) at 2 by lia.
        reflexivity.
      * lia.
      * rewrite Hlen. lia.
    + cbn [List.concat]. rewrite Hconcat, <- Hpage. apply List.firstn_skipn.
    + cbn [List.length]. rewrite Hcount. lia.
Qed.

End ServedPages.

(** X14.  Whatever the endpoint answers, the pages [fetch_all] yields are
    never empty, and every page but the last holds at least [batch_size]
    records: an empty page or a short one ends the loop. *)
Theorem fetch_all_yields_full_pages
        (c : FMCSAClient.client) (api : FMCSAClientPages.endpoint)
        (batch_size : Z) (where_ select : option string) (rate_limit_delay : Q)
        (fuel : nat) (w w' : FMCSAClient.world)
        (pages : list (list Json.RawRecord)) (r : result unit) :
  FMCSAClientPages.fetch_all c api batch_size where_ select rate_limit_delay fuel w =
    Some (pages, r, w') ->
  Forall (fun page => page <> []) pages /\ full_but_last batch_size pages = true.
Proof.
  unfold FMCSAClientPages.fetch_all.
  destruct (FMCSAClientPages.given where_); [ | apply pages_from_shape].
  destruct (FMCSAClientPages.fetch_batch c api 1 0 where_ (Some "COUNT(*) as count") w)
    as [[count_data | e] w1].
  - destruct (FMCSAClientPages.count_of count_data 2200000) as [estimated_total | e].
    + apply pages_from_shape.
    + intros H. injection H as <- <- <-. split; [constructor | reflexivity].
  - intros H. injection H as <- <- <-. split; [constructor | reflexivity].
Qed.

(** Three records in pages of two. *)
Lemma fetch_all_yields_full_pages_witness :
  Forall (fun page => page <> []) [[carrier 1; carrier 2]; [carrier 3]] /\
  full_but_last 2 [[carrier 1; carrier 2]; [carrier 3]] = true.
Proof.
  apply (fetch_all_yields_full_pages
           FMCSAClient.default_client (serving [carrier 1; carrier 2; carrier 3])
           2 None None (1 # 2) 5 FMCSAClient.start
           (FMCSAClient.mkWorld 2 [1 # 2] 2 3 0)
           [[carrier 1; carrier 2]; [carrier 3]] (Ok tt)).
  reflexivity.
Defined.

(** X15.  Against an endpoint that serves a fixed data set, an unfiltered
    [fetch_all] with a batch size between 1 and the maximum of the
    endpoint yields exactly the data, in order, nothing twice and
    nothing left out, in pages of [batch_size] records and a shorter last
    page; it sends one request for each full page and one more, sleeps
    [rate_limit_delay] after each full page, and ends without an
    exception, its statistics counting every record. *)
Theorem fetch_all_yields_the_data
        (c : FMCSAClient.client) (api : FMCSAClientPages.endpoint)
        (data : list Json.RawRecord) (batch_size : Z) (select : option string)
        (rate_limit_delay : Q) (fuel : nat) (w : FMCSAClient.world) :
  1 <= FMCSAClient.max_retries c ->
  serves data select api ->
  1 <= batch_size <= FMCSAClientPages.MAX_RECORDS_PER_REQUEST ->
  0 <= FMCSAClient.total_requests w ->
  let full := (List.length data / Z.to_nat batch_size)%nat in
  (full < fuel)%nat ->
  exists pages,
    FMCSAClientPages.fetch_all c api batch_size None select rate_limit_delay fuel w =
    Some (pages, Ok tt,
          FMCSAClient.mkWorld
            (FMCSAClient.requests w + full + 1)%nat
            (FMCSAClient.slept w ++ repeat rate_limit_delay full)
            (FMCSAClient.total_requests w + Z.of_nat full + 1)
            (FMCSAClient.total_records w + Z.of_nat (List.length data))
            (FMCSAClient.failed_requests w)) /\
    List.concat pages = data /\
    List.length pages =
      (full + if (List.length data mod Z.to_nat batch_size =? 0)%nat then 0 else 1)%nat.
Proof.
  intros Hretries Hserves Hsize Htotal full Hfuel.
  unfold FMCSAClientPages.fetch_all. cbn [FMCSAClientPages.given].
  exact (pages_from_served c api data batch_size select rate_limit_delay
           Hretries Hserves fuel 2200000 0 w Hsize ltac:(discriminate)
           ltac:(lia) Htotal Hfuel).
Qed.

(** Three records in pages of two: two requests, one delay. *)
Lemma fetch_all_yields_the_data_witness :
  exists pages,
    FMCSAClientPages.fetch_all FMCSAClient.default_client
      (serving [carrier 1; carrier 2; carrier 3]) 2 None None (1 # 2) 5
      FMCSAClient.start =
    Some (pages, Ok tt, FMCSAClient.mkWorld 2 [1 # 2] 2 3 0) /\
    List.concat pages = [carrier 1; carrier 2; carrier 3] /\
    List.length pages = 2%nat.
Proof.
  assert (1 <= FMCSAClient.max_retries FMCSAClient.default_client) as Hretries
      by (vm_compute; discriminate).
  assert (serves [carrier 1; carrier 2; carrier 3] None
                 (serving [carrier 1; carrier 2; carrier 3])) as Hserves
      by (intros limit offset n; reflexivity).
  assert (1 <= 2 <= FMCSAClientPages.MAX_RECORDS_PER_REQUEST) as Hsize
      by (split; vm_compute; discriminate).
  assert (0 <= FMCSAClient.total_requests FMCSAClient.start) as Htotal
      by (vm_compute; discriminate).
  assert (List.length [carrier 1; carrier 2; carrier 3] / Z.to_nat 2 < 5)%nat as Hfuel
      by (vm_compute; lia).
  destruct (fetch_all_yields_the_data
              FMCSAClient.default_client (serving [carrier 1; carrier 2; carrier 3])
              [carrier 1; carrier 2; carrier 3] 2 None (1 # 2) 5 FMCSAClient.start
              Hretries Hserves Hsize Htotal Hfuel) as [pages [Hrun [Hconcat Hcount]]].
  exists pages. split; [exact Hrun | split; [exact Hconcat | exact Hcount]].
Defined.

(** X16.  With a batch size above the maximum of the endpoint, an
    unfiltered [fetch_all] yields one page and stops: [fetch_batch] caps
    the limit at 50000, the page is shorter than [batch_size], and the
    loop takes it for the last one.  Of a larger data set only the first
    50000 records are ever fetched. *)
Theorem oversized_batch_size_yields_one_page
        (c : FMCSAClient.client) (api : FMCSAClientPages.endpoint)
        (data : list Json.RawRecord) (batch_size : Z) (select : option string)
        (rate_limit_delay : Q) (fuel : nat) (w : FMCSAClient.world) :
  1 <= FMCSAClient.max_retries c ->
  serves data select api ->
  FMCSAClientPages.MAX_RECORDS_PER_REQUEST < batch_size ->
  0 <= FMCSAClient.total_requests w ->
  data <> [] ->
  let page := firstn (Z.to_nat FMCSAClientPages.MAX_RECORDS_PER_REQUEST) data in
  FMCSAClientPages.fetch_all c api batch_size None select rate_limit_delay (S fuel) w =
  Some ([page], Ok tt,
        FMCSAClient.mkWorld
          (S (FMCSAClient.requests w)) (FMCSAClient.slept w)
          (FMCSAClient.total_requests w + 1)
          (FMCSAClient.total_records w + Z.of_nat (List.length page))
          (FMCSAClient.failed_requests w)).
Proof.
  intros Hretries Hserves Hsize Htotal Hdata page.
  unfold FMCSAClientPages.fetch_all.
  cbn [FMCSAClientPages.given FMCSAClientPages.pages_from].
  unfold FMCSAClientPages.fetch_batch.
  rewrite Z.min_r by lia.
  rewrite (fetch_batch_first_reply c _ w 200 None page); [ | exact Hretries | | reflexivity].
  2: { change (FMCSAClientPages.sent None) with (@None string).
       rewrite Hserves. reflexivity. }
  assert (Z.of_nat (List.length page) <= FMCSAClientPages.MAX_RECORDS_PER_REQUEST) as Hlen.
  { subst page. rewrite List.length_firstn.
    unfold FMCSAClientPages.MAX_RECORDS_PER_REQUEST. lia. }
  assert (page <> []) as Hpage.
  { subst page. destruct data as [ | record data']; [contradiction | ].
    unfold FMCSAClientPages.MAX_RECORDS_PER_REQUEST.
    replace (Z.to_nat 50000) with (S (Z.to_nat 49999)) by lia.
    discriminate. }
  destruct page as [ | record page'] eqn:Heq; [contradiction | ].
  assert ((2200000 =? 0) = false) as -> by reflexivity.
  rewrite andb_false_r.
  assert ((Z.of_nat (List.length (record :: page')) <? batch_size) = true) as ->
      by (apply Z.ltb_lt; lia).
  unfold FMCSAClientPages._log_statistics.
  cbn [FMCSAClient.total_requests].
  destruct (Z.eqb_spec (FMCSAClient.total_requests w + 1) 0); [lia | reflexivity].
Qed.

(** A batch size of 60000 against one record. *)
Lemma oversized_batch_size_yields_one_page_witness :
  FMCSAClientPages.fetch_all FMCSAClient.default_client (serving [carrier 1])
    60000 None None (1 # 2) 1 FMCSAClient.start =
  Some ([firstn (Z.to_nat FMCSAClientPages.MAX_RECORDS_PER_REQUEST) [carrier 1]], Ok tt,
        FMCSAClient.mkWorld 1 [] (0 + 1)
          (0 + Z.of_nat (List.length
                           (firstn (Z.to_nat FMCSAClientPages.MAX_RECORDS_PER_REQUEST)
                                   [carrier 1]))) 0).
Proof.
  assert (1 <= FMCSAClient.max_retries FMCSAClient.default_client) as Hretries
      by (vm_compute; discriminate).
  assert (serves [carrier 1] None (serving [carrier 1])) as Hserves
      by (intros limit offset n; reflexivity).
  assert (FMCSAClientPages.MAX_RECORDS_PER_REQUEST < 60000) as Hsize
      by (vm_compute; reflexivity).
  assert (0 <= FMCSAClient.total_requests FMCSAClient.start) as Htotal
      by (vm_compute; discriminate).
  assert ([carrier 1] <> []) as Hdata by discriminate.
  exact (oversized_batch_size_yields_one_page
           FMCSAClient.default_client (serving [carrier 1]) [carrier 1]
           60000 None (1 # 2) 0 FMCSAClient.start
           Hretries Hserves Hsize Htotal Hdata).
Defined.

(** X17.  [fetch_updates] asks for the count before any page, with limit
    1 and the selection COUNT( * ) as count; when the reply carries a
    count that is not the text of an integer, it raises [ValueError] after
    that one request and yields no page. *)
Theorem fetch_updates_needs_an_integer_count
        (c : FMCSAClient.client) (api : FMCSAClientPages.endpoint)
        (date_str : string) (batch_size : Z) (fuel : nat) (w : FMCSAClient.world)
        (text : string) :
  1 <= FMCSAClient.max_retries c ->
  api (FMCSAClientPages.mkParams
         1 0 (Some ("mcs_150_date > '" ++ date_str ++ "'")%string)
         (Some "COUNT(*) as count"))
      (FMCSAClient.requests w) = counted text ->
  int_of_str text = None ->
  FMCSAClientPages.fetch_updates c api date_str batch_size fuel w =
  Some ([], Raise (ValueError "invalid literal for int() with base 10"),
        FMCSAClient.mkWorld
          (S (FMCSAClient.requests w)) (FMCSAClient.slept w)
          (FMCSAClient.total_requests w + 1)
          (FMCSAClient.total_records w + 1)
          (FMCSAClient.failed_requests w)).
Proof.
  intros Hretries Hreply Htext.
  unfold FMCSAClientPages.fetch_updates, FMCSAClientPages.fetch_all.
  cbn [FMCSAClientPages.given String.append String.eqb negb].
  unfold FMCSAClientPages.fetch_batch.
  rewrite (fetch_batch_first_reply c _ w 200 None [[("count", VStr text)]]);
    [ | exact Hretries | exact Hreply | reflexivity].
  unfold FMCSAClientPages.count_of. cbn [dict_get String.eqb Ascii.eqb Bool.eqb].
  unfold int. rewrite Htext. reflexivity.
Qed.

(** A count given as n/a. *)
Lemma fetch_updates_needs_an_integer_count_witness :
  FMCSAClientPages.fetch_updates FMCSAClient.default_client
    (fun _ _ => counted "n/a") "2024-01-01T00:00:00" 50000 10 FMCSAClient.start =
  Some ([], Raise (ValueError "invalid literal for int() with base 10"),
        FMCSAClient.mkWorld 1 [] (0 + 1) (0 + 1) 0).
Proof.
  assert (1 <= FMCSAClient.max_retries FMCSAClient.default_client) as Hretries
      by (vm_compute; discriminate).
  exact (fetch_updates_needs_an_integer_count
           FMCSAClient.default_client (fun _ _ => counted "n/a")
           "2024-01-01T00:00:00" 50000 10 FMCSAClient.start "n/a"
           Hretries eq_refl eq_refl).
Defined.

(** ** The bulk download *)

Section BulkProperties.
Import Json BulkFMCSAFetcher.

Variable batch_size : Z.
Variable total_count : Z.
Hypothesis Hsize : 0 < batch_size.

(** With [k] batches covering what is left, the loop ends by itself
    within three fetches for each batch. *)
Lemma loop_ends (fetched : list (list RawRecord)) : forall (k : nat) p more,
  total_count - offset p <= batch_size * Z.of_nat k ->
  0 <= consecutive_empty p <= 2 ->
  3 * Z.of_nat k - consecutive_empty p <= Z.of_nat (List.length fetched) ->
  loop batch_size total_count (fetched ++ more) p = loop batch_size total_count fetched p /\
  Z.of_nat (fetches (fst (loop batch_size total_count fetched p))) <=
    Z.max 0 (3 * Z.of_nat k - consecutive_empty p).
Proof.
  induction fetched as [ | batch rest IH]; intros k p more Hcover Hempty Hlong.
  - cbn [List.length Z.of_nat] in Hlong. assert (k = 0%nat) as -> by lia.
    assert ((offset p <? total_count) = false) as Hdone by (apply Z.ltb_ge; lia).
    cbn [app loop fst fetches]. split; [ | lia].
    destruct more as [ | batch rest]; [reflexivity | ].
    cbn [loop]. rewrite Hdone. reflexivity.
  - cbn [app loop List.length] in *.
    destruct (offset p <? total_count) eqn:Hleft;
      [ | cbn [fst fetches]; split; [reflexivity | lia]].
    apply Z.ltb_lt in Hleft.
    assert (1 <= k)%nat as Hk by nia.
    destruct batch as [ | record batch'].
    + cbn [consecutive_empty].
      destruct (3 <=? consecutive_empty p + 1) eqn:Hthree.
      { apply Z.leb_le in Hthree. cbn [fst fetches].
        split; [reflexivity | lia]. }
      apply Z.leb_gt in Hthree.
      match goal with
      | |- context [loop batch_size total_count rest ?q] =>
          destruct (IH k q more) as [Hsame Hcount];
            [exact Hcover | cbn [consecutive_empty]; lia
             | cbn [consecutive_empty]; lia | ];
            rewrite Hsame; cbn [consecutive_empty] in Hcount;
            destruct (loop batch_size total_count rest q) as [events q']
      end.
      cbn [fst fetches] in Hcount |- *. split; [reflexivity | lia].
    + match goal with
      | |- context [loop batch_size total_count rest ?q] =>
          destruct (IH (k - 1)%nat q more) as [Hsame Hcount];
            [cbn [offset]; nia | cbn [consecutive_empty]; lia
             | cbn [consecutive_empty]; lia | ];
            rewrite Hsame; cbn [consecutive_empty] in Hcount;
            destruct (loop batch_size total_count rest q) as [events q']
      end.
      cbn [fst] in Hcount |- *. split; [reflexivity | ].
      destruct (batch_num p mod 10 =? 0); cbn [fetches app]; lia.
Qed.

(** Batch numbers and offsets stay in step. *)
Lemma loop_aligned (fetched : list (list RawRecord)) : forall p,
  offset p = batch_num p * batch_size ->
  let (events, q) := loop batch_size total_count fetched p in
  aligned batch_size None events = true /\
  offset q = batch_num q * batch_size /\
  Forall (fun o => o mod batch_size = 0 /\ batch_num p * batch_size < o)
         (checkpoint_offsets events) /\
  carriers q - carriers p = total_fetched q - total_fetched p.
Proof.
  induction fetched as [ | batch rest IH]; intros p Hstep; cbn [loop].
  - repeat split; [exact Hstep | constructor | lia].
  - destruct (offset p <? total_count);
      [ | repeat split; [exact Hstep | constructor | lia]].
    destruct batch as [ | record batch'].
    + cbn [consecutive_empty].
      destruct (3 <=? consecutive_empty p + 1);
        [repeat split; [exact Hstep | constructor | cbn; lia] | ].
      match goal with
      | |- context [loop batch_size total_count rest ?q] =>
          specialize (IH q Hstep);
            pose proof (loop_starts_with_fetch batch_size total_count rest q) as Hhead;
            destruct (loop batch_size total_count rest q) as [events q']
      end.
      cbn [fst] in Hhead. destruct IH as [Ha [Ho [Hc Hn]]]. cbn in Hc, Hn.
      repeat split; [ | exact Ho | exact Hc | exact Hn].
      cbn [aligned andb]. destruct events as [ | [o | n | o t] events']; try contradiction;
        [reflexivity | exact Ha].
    + match goal with
      | |- context [loop batch_size total_count rest ?q] =>
          specialize (IH q ltac:(cbn; lia));
            pose proof (loop_starts_with_fetch batch_size total_count rest q) as Hhead;
            destruct (loop batch_size total_count rest q) as [events q']
      end.
      cbn [fst offset] in Hhead. destruct IH as [Ha [Ho [Hc Hn]]]. cbn in Hc, Hn.
      assert (Forall (fun o => o mod batch_size = 0 /\ batch_num p * batch_size < o)
                     (checkpoint_offsets events)) as Hc'.
      { eapply Forall_impl; [ | exact Hc]. cbn. intros o [Hm Ho']. split; [exact Hm | lia]. }
      assert (aligned batch_size (Some (SavedBatch (batch_num p))) events = true) as Ha'.
      { destruct events as [ | [o | n | o t] events']; try contradiction;
          [reflexivity | exact Ha]. }
      assert (aligned batch_size (Some (SavedCheckpoint (offset p + batch_size)
                                          (total_fetched p +
                                           Z.of_nat (List.length (record :: batch')))))
                      events = true) as Ha''.
      { destruct events as [ | [o | n | o t] events']; try contradiction;
          [reflexivity | exact Ha]. }
      destruct (batch_num p mod 10 =? 0); cbn [app].
      * repeat split; [ | exact Ho | | cbn in Hn |- *; lia].
        -- cbn [aligned]. rewrite Ha''.
           assert ((offset p =? batch_num p * batch_size) = true) as -> by lia.
           assert ((offset p + batch_size =? (batch_num p + 1) * batch_size) = true) as ->
               by lia.
           reflexivity.
        -- cbn [checkpoint_offsets]. constructor; [ | exact Hc'].
           split; [ | lia].
           rewrite Hstep.
           replace (batch_num p * batch_size + batch_size)
             with ((batch_num p + 1) * batch_size) by lia.
           apply Z.mod_mul. lia.
      * repeat split; [ | exact Ho | exact Hc' | cbn in Hn |- *; lia].
        cbn [aligned]. rewrite Ha'.
        assert ((offset p =? batch_num p * batch_size) = true) as -> by lia.
        reflexivity.
Qed.

End BulkProperties.

(** X18.  The bulk download always ends: when [k] batches of
    [batch_size] records cover what is left of the count, the loop leaves
    by itself after at most three calls of [fetch_batch] for each of them,
    whatever the calls return; replies beyond that point are never asked
    for. *)
Theorem bulk_download_ends
        (batch_size total_count : Z) (fetched more : list (list Json.RawRecord))
        (p : BulkFMCSAFetcher.progress) (k : nat) :
  0 < batch_size ->
  total_count - BulkFMCSAFetcher.offset p <= batch_size * Z.of_nat k ->
  BulkFMCSAFetcher.consecutive_empty p = 0 ->
  (3 * k <= List.length fetched)%nat ->
  BulkFMCSAFetcher.loop batch_size total_count (fetched ++ more) p =
    BulkFMCSAFetcher.loop batch_size total_count fetched p /\
  (fetches (fst (BulkFMCSAFetcher.loop batch_size total_count fetched p)) <= 3 * k)%nat.
Proof.
  intros Hsize Hcover Hempty Hlong.
  destruct (loop_ends batch_size total_count Hsize fetched k p more Hcover) as [Hsame Hcount];
    [lia | lia | ].
  split; [exact Hsame | lia].
Qed.

(** Two batches cover a count of 100000; the second page fails twice
    before it comes. *)
Lemma bulk_download_ends_witness :
  BulkFMCSAFetcher.loop 50000 100000
    ([[carrier 1]; []; []; [carrier 2]; []; []] ++ [[carrier 3]])
    (BulkFMCSAFetcher.resume 50000 0 0 0) =
  BulkFMCSAFetcher.loop 50000 100000
    [[carrier 1]; []; []; [carrier 2]; []; []]
    (BulkFMCSAFetcher.resume 50000 0 0 0) /\
  (fetches (fst (BulkFMCSAFetcher.loop 50000 100000
                   [[carrier 1]; []; []; [carrier 2]; []; []]
                   (BulkFMCSAFetcher.resume 50000 0 0 0))) <= 3 * 2)%nat.
Proof.
  apply (bulk_download_ends 50000 100000
           [[carrier 1]; []; []; [carrier 2]; []; []] [[carrier 3]]
           (BulkFMCSAFetcher.resume 50000 0 0 0) 2).
  - reflexivity.
  - vm_compute. discriminate.
  - reflexivity.
  - vm_compute. lia.
Defined.

(** X19.  In a bulk download whose batch number and offset are in step
    (batch [n] starts at offset [n * batch_size]), as they are at offset 0,
    every batch file is saved right after the fetch of the offset its
    number stands for and every checkpoint holds the offset of the batch
    after the one just saved; so the offset of every checkpoint is a
    multiple of [batch_size] past the starting point, a run resumed from it
    numbers its batches as the run that wrote it, and the records added to
    the list are the records counted. *)
Theorem bulk_download_keeps_files_and_offsets_in_step
        (batch_size total_count : Z) (fetched : list (list Json.RawRecord))
        (p : BulkFMCSAFetcher.progress) :
  0 < batch_size ->
  BulkFMCSAFetcher.offset p = BulkFMCSAFetcher.batch_num p * batch_size ->
  let (events, q) := BulkFMCSAFetcher.loop batch_size total_count fetched p in
  aligned batch_size None events = true /\
  BulkFMCSAFetcher.offset q = BulkFMCSAFetcher.batch_num q * batch_size /\
  (forall o total carriers,
     In o (checkpoint_offsets events) ->
     let resumed := BulkFMCSAFetcher.resume batch_size o total carriers in
     BulkFMCSAFetcher.offset resumed = BulkFMCSAFetcher.batch_num resumed * batch_size /\
     BulkFMCSAFetcher.batch_num p < BulkFMCSAFetcher.batch_num resumed) /\
  BulkFMCSAFetcher.carriers q - BulkFMCSAFetcher.carriers p =
    BulkFMCSAFetcher.total_fetched q - BulkFMCSAFetcher.total_fetched p.
Proof.
  intros Hsize Hstep.
  pose proof (loop_aligned batch_size total_count Hsize fetched p Hstep) as H.
  destruct (BulkFMCSAFetcher.loop batch_size total_count fetched p) as [events q].
  destruct H as [Ha [Ho [Hc Hn]]].
  split; [exact Ha | ]. split; [exact Ho | ]. split; [ | exact Hn].
  intros o total carriers Hin. rewrite Forall_forall in Hc.
  destruct (Hc o Hin) as [Hmod Hpast]. cbn.
  apply Z.mod_divide in Hmod; [ | lia]. destruct Hmod as [n ->].
  rewrite Z.div_mul by lia. split; [reflexivity | nia].
Qed.

(** A run from offset 0 over two pages: the checkpoint after batch 0 holds
    offset 50000, from which a resumed run goes on with batch 1. *)
Lemma bulk_download_keeps_files_and_offsets_in_step_witness :
  let (events, q) :=
    BulkFMCSAFetcher.loop 50000 100000 [[carrier 1]; [carrier 2]]
      (BulkFMCSAFetcher.resume 50000 0 0 0) in
  aligned 50000 None events = true /\
  BulkFMCSAFetcher.offset q = BulkFMCSAFetcher.batch_num q * 50000 /\
  (forall o total carriers,
     In o (checkpoint_offsets events) ->
     let resumed := BulkFMCSAFetcher.resume 50000 o total carriers in
     BulkFMCSAFetcher.offset resumed = BulkFMCSAFetcher.batch_num resumed * 50000 /\
     BulkFMCSAFetcher.batch_num (BulkFMCSAFetcher.resume 50000 0 0 0) <
       BulkFMCSAFetcher.batch_num resumed) /\
  BulkFMCSAFetcher.carriers q -
    BulkFMCSAFetcher.carriers (BulkFMCSAFetcher.resume 50000 0 0 0) =
    BulkFMCSAFetcher.total_fetched q -
    BulkFMCSAFetcher.total_fetched (BulkFMCSAFetcher.resume 50000 0 0 0).
Proof.
  apply (bulk_download_keeps_files_and_offsets_in_step
           50000 100000 [[carrier 1]; [carrier 2]]
           (BulkFMCSAFetcher.resume 50000 0 0 0)).
  - reflexivity.
  - reflexivity.
Defined.

(** ** One page of the bulk download *)

Section BulkRequests.
Import Json BulkFMCSARequests.
Variable srv : FMCSAClient.server.

Lemma bulk_wait_later (attempt : Z) (remaining : nat) (seconds : Z) :
  bulk_wait (attempt + 1) remaining seconds -> bulk_wait attempt (S remaining) seconds.
Proof.
  intros [H | [i [Hi H]]]; [now left | right]. exists i. split; [lia | exact H].
Qed.

Lemma attempts_effort (remaining : nat) : forall attempt s,
  let (batch, s') := attempts srv remaining attempt s in
  (requests s <= requests s' <= requests s + remaining)%nat /\
  (exists waits,
      slept s' = slept s ++ waits /\
      (List.length waits <= requests s' - requests s)%nat /\
      Forall (bulk_wait attempt remaining) waits) /\
  (batch <> [] ->
   exists header,
     srv (pred (requests s')) = FMCSAClient.Response 200 header (Some batch) /\
     (requests s < requests s')%nat).
Proof.
  induction remaining as [ | n IH]; intros attempt s.
  - cbn. split; [lia | ]. split; [ | congruence].
    exists []. rewrite List.app_nil_r. repeat split; [cbn; lia | constructor].
  - assert (forall seconds,
               bulk_wait attempt (S n) seconds ->
               let (batch, s') :=
                 attempts srv n (attempt + 1) (sleep seconds (request_sent s)) in
               (requests s <= requests s' <= requests s + S n)%nat /\
               (exists waits,
                   slept s' = slept s ++ waits /\
                   (List.length waits <= requests s' - requests s)%nat /\
                   Forall (bulk_wait attempt (S n)) waits) /\
               (batch <> [] ->
                exists header,
                  srv (pred (requests s')) =
                    FMCSAClient.Response 200 header (Some batch) /\
                  (requests s < requests s')%nat)) as Hnext.
    { intros seconds Hseconds.
      specialize (IH (attempt + 1) (sleep seconds (request_sent s))).
      destruct (attempts srv n (attempt + 1) (sleep seconds (request_sent s)))
        as [batch s'].
      cbn [requests slept sleep request_sent] in IH.
      destruct IH as [Hreq [[waits [Hslept [Hlen Hall]]] Hbatch]].
      split; [lia | ]. split.
      - exists (seconds :: waits). rewrite Hslept, <- List.app_assoc.
        split; [reflexivity | ]. split; [cbn [List.length]; lia | ].
        constructor; [exact Hseconds | ].
        eapply Forall_impl; [ | exact Hall]. intros d. apply bulk_wait_later.
      - intros Hne. destruct (Hbatch Hne) as [header [Hreply Hlt]].
        exists header. split; [exact Hreply | lia]. }
    assert (bulk_wait attempt (S n) 1) as Hone by now left.
    assert (bulk_wait attempt (S n) (2 ^ attempt)) as Hpower
        by (right; exists attempt; split; [lia | reflexivity]).
    cbn [attempts].
    destruct (srv (requests s)) as [status header body | | e] eqn:Hreply.
    + destruct (status =? 200) eqn:Hok.
      * destruct body as [data | ]; [ | apply Hnext; exact Hone].
        cbn [requests slept request_sent]. split; [lia | ]. split.
        -- exists []. rewrite List.app_nil_r. repeat split; [cbn; lia | constructor].
        -- intros _. exists header. cbn [pred]. apply Z.eqb_eq in Hok. subst status.
           split; [exact Hreply | lia].
      * destruct (status =? 429); [apply Hnext; exact Hpower | ].
        cbn [requests slept request_sent]. split; [lia | ].
        split; [ | congruence].
        exists []. rewrite List.app_nil_r. repeat split; [cbn; lia | constructor].
    + apply Hnext. exact Hone.
    + apply Hnext. exact Hone.
Qed.

End BulkRequests.

(** X20.  One call of [fetch_batch] of the bulk download, whatever the
    endpoint answers: it sends between no and three requests, sleeps at
    most once after each request and each time 1, 2 or 4 seconds, and
    returns a page that is not empty only as the body of a status 200 reply
    to its last request. *)
Theorem bulk_fetch_batch_effort
        (srv : FMCSAClient.server) (s : BulkFMCSARequests.session) :
  let (batch, s') := BulkFMCSARequests.fetch_batch srv s in
  (BulkFMCSARequests.requests s <= BulkFMCSARequests.requests s' <=
   BulkFMCSARequests.requests s + 3)%nat /\
  (exists waits,
      BulkFMCSARequests.slept s' = BulkFMCSARequests.slept s ++ waits /\
      (List.length waits <=
       BulkFMCSARequests.requests s' - BulkFMCSARequests.requests s)%nat /\
      Forall (fun seconds => seconds = 1 \/ seconds = 2 \/ seconds = 4) waits) /\
  (batch <> [] ->
   exists header,
     srv (pred (BulkFMCSARequests.requests s')) =
       FMCSAClient.Response 200 header (Some batch)).
Proof.
  unfold BulkFMCSARequests.fetch_batch.
  pose proof (attempts_effort srv 3 0 s) as H.
  destruct (BulkFMCSARequests.attempts srv 3 0 s) as [batch s'].
  destruct H as [Hreq [[waits [Hslept [Hlen Hall]]] Hbatch]].
  split; [exact Hreq | ]. split.
  - exists waits. split; [exact Hslept | ]. split; [exact Hlen | ].
    eapply Forall_impl; [ | exact Hall].
    intros seconds [H | [i [Hi H]]]; [now left | ].
    assert (i = 0 \/ i = 1 \/ i = 2) as [-> | [-> | ->]] by lia;
      cbn in H; [left | right; left | right; right]; exact H.
  - intros Hne. destruct (Hbatch Hne) as [header [Hreply _]]. now exists header.
Qed.

(** ** The figures of a report *)

Section StatsReport.
Import IngestionPipeline IngestionStatsReport.
Variable type_name : exn -> string.

(** The loop of [_group_errors] adds to each count it starts from the
    number of records of that type. *)
Lemma group_step (records : list (option value * exn)) :
  forall (acc : dict Z) (error_type : string),
    dict_get
      (fold_left
         (fun error_types error =>
            let t := type_name (snd error) in
            dict_set error_types t
                     (match dict_get error_types t with
                      | Some n => n
                      | None => 0
                      end + 1))
         records acc) error_type =
    match dict_get acc error_type with
    | Some n => Some (n + errors_of_type type_name error_type records)
    | None =>
        if errors_of_type type_name error_type records =? 0 then None
        else Some (errors_of_type type_name error_type records)
    end.
Proof.
  unfold errors_of_type.
  induction records as [ | [key e] records IH]; intros acc error_type.
  - cbn. destruct (dict_get acc error_type) as [n | ]; [ | reflexivity].
    now rewrite Z.add_0_r.
  - cbn [fold_left filter snd]. cbv zeta. rewrite IH.
    destruct (String.eqb_spec (type_name e) error_type) as [Heq | Hne].
    + rewrite Heq. rewrite dict_get_set_same. cbn [List.length].
      destruct (dict_get acc error_type) as [n | ].
      * f_equal. lia.
      * match goal with
        | |- _ = if ?t then _ else _ => destruct (Z.eqb_spec (Z.of_nat (S (List.length
              (filter (fun error => (type_name (snd error) =? error_type)%string)
                      records)))) 0) as [Hzero | _]
        end; [lia | ].
        f_equal. lia.
    + rewrite dict_get_set_other by (apply String.eqb_neq; exact Hne).
      reflexivity.
Qed.

End StatsReport.

(** X21.  [_group_errors] counts the error records by the type of their
    exception: a type has an entry exactly when some record has it, and
    the entry is the number of such records. *)
Theorem group_errors_counts_by_type
        (type_name : exn -> string) (s : IngestionPipeline.IngestionStats)
        (error_type : string) :
  dict_get (IngestionStatsReport._group_errors type_name s) error_type =
  if errors_of_type type_name error_type (IngestionPipeline.error_records s) =? 0
  then None
  else Some (errors_of_type type_name error_type (IngestionPipeline.error_records s)).
Proof.
  exact (group_step type_name (IngestionPipeline.error_records s) [] error_type).
Qed.

(** X22.  The success rate of a report with fetched records lies between
    0 and 100 exactly when the errors counted are between none and the
    records fetched: the rate is negative as soon as the errors outnumber
    the records. *)
Theorem success_rate_is_a_percentage_only_without_recounts
        (s : IngestionPipeline.IngestionStats) :
  0 < IngestionPipeline.total_fetched s ->
  (0 <= IngestionStatsReport.success_rate s <= 100)%Q <->
  0 <= IngestionPipeline.total_errors s <= IngestionPipeline.total_fetched s.
Proof.
  intros Hfetched. unfold IngestionStatsReport.success_rate. cbv zeta.
  destruct (Z.eqb_spec (IngestionPipeline.total_fetched s) 0) as [Hzero | _]; [lia | ].
  destruct (IngestionPipeline.total_fetched s) as [ | total | total] eqn:Htotal;
    try lia.
  unfold Qle, Qdiv, Qmult, Qinv, inject_Z. cbn [Qnum Qden Z.mul Pos.mul].
  split; intros [Hlow Hhigh]; split; nia.
Qed.

(** Two records with one key and a batch size of two: the write fails
    when the buffer fills and again after the loop, five errors are counted
    for two records, and the rate, -150, is no percentage. *)
Lemma success_rate_is_a_percentage_only_without_recounts_witness :
  (0 <= IngestionStatsReport.success_rate
          (IngestionPipeline.stats
             (IngestionPipeline.final
                (IngestionPipeline.run_full_ingestion (D := Postgres.postgres) 2 100
                   [[carrier 7; carrier 7]] ([] : Postgres.table)))) <= 100)%Q <->
  0 <= 5 <= 2.
Proof.
  apply (success_rate_is_a_percentage_only_without_recounts
           (IngestionPipeline.stats
              (IngestionPipeline.final
                 (IngestionPipeline.run_full_ingestion (D := Postgres.postgres) 2 100
                    [[carrier 7; carrier 7]] ([] : Postgres.table))))).
  vm_compute. reflexivity.
Defined.

(** ** The first thousand records *)

Section Limited.
Import Json TestPipeline.

Lemma firstn_over {A} (l r : list A) (n : nat) :
  firstn (List.length l + n) (l ++ r) = l ++ firstn n r.
Proof. induction l as [ | a l IH]; cbn; [reflexivity | now rewrite IH]. Qed.

Lemma firstn_within {A} (l r : list A) (n : nat) :
  (n <= List.length l)%nat -> firstn n (l ++ r) = firstn n l.
Proof.
  intros Hn. rewrite List.firstn_app.
  replace (n - List.length l)%nat with 0%nat by lia.
  cbn. apply List.app_nil_r.
Qed.

Lemma limited_from (pages : list (list RawRecord)) : forall count,
  0 <= count < 1000 ->
  List.concat (limited_fetch_all pages count) =
  firstn (Z.to_nat (1000 - count)) (List.concat pages).
Proof.
  induction pages as [ | batch rest IH]; intros count Hcount.
  - cbn. now rewrite List.firstn_nil.
  - cbn [limited_fetch_all List.concat]. cbv zeta.
    unfold slice_to.
    assert ((Z.min (Z.of_nat (List.length batch)) (1000 - count) <? 0) = false) as ->
        by (apply Z.ltb_ge; lia).
    destruct (Z.leb_spec 1000 (count + Z.of_nat (List.length batch))) as [Hfull | Hmore].
    + rewrite Z.min_r by lia. rewrite List.app_nil_r.
      symmetry. apply firstn_within. lia.
    + rewrite Z.min_l by lia. rewrite Nat2Z.id, List.firstn_all.
      rewrite IH by lia.
      replace (Z.to_nat (1000 - count))
        with (List.length batch + Z.to_nat (1000 - (count + Z.of_nat (List.length batch))))%nat
        by lia.
      symmetry. apply firstn_over.
Qed.

End Limited.

(** X23.  [limited_fetch_all] of the pipeline test yields the first 1000
    records of what the original generator yields, in order, and all of
    them when there are fewer: the page that crosses 1000 is cut and no
    page after it is asked for. *)
Theorem limited_fetch_all_yields_the_first_thousand
        (pages : list (list Json.RawRecord)) :
  List.concat (TestPipeline.limited_fetch_all pages 0) =
  firstn 1000 (List.concat pages).
Proof.
  rewrite (limited_from pages 0) by lia.
  reflexivity.
Qed.

(** ** The write a run takes *)

Section RunPaths.
Import Json CarrierDataNormalizer Store IngestionPipeline.
Context {D : Database}.
Variables batch_size max_errors : Z.
Hypothesis Hlarge : 100 < batch_size.

(** The writes between two states were all bulk appends. *)
Local Notation "'copies' st st'" := (exists k, paths st' = paths st ++ repeat Copy k)
  (at level 10, st at level 9, st' at level 9).

Lemma copies_refl (st st' : state) : paths st' = paths st -> copies st st'.
Proof. intros H. exists 0%nat. cbn. now rewrite List.app_nil_r. Qed.

Lemma copies_trans (st1 st2 st3 : state) :
  copies st1 st2 -> copies st2 st3 -> copies st1 st3.
Proof.
  intros [k Hk] [j Hj]. exists (k + j)%nat.
  now rewrite Hj, Hk, <- List.app_assoc, repeat_app.
Qed.

Lemma buffer_record_copies is_update record buffer st :
  copies st (snd (snd (buffer_record batch_size is_update record buffer st))).
Proof.
  unfold buffer_record.
  destruct (normalize record) as [normalized | e]; [ | now apply copies_refl].
  destruct (batch_size <=? Z.of_nat (List.length (buffer ++ [normalized]))) eqn:Hfull;
    [ | now apply copies_refl].
  apply Z.leb_le in Hfull.
  pose proof (process_batch_path (buffer ++ [normalized]) is_update (count_processed st))
    as Hpath.
  assert ((100 <? Z.of_nat (List.length (buffer ++ [normalized]))) = true) as Hcopy
      by (apply Z.ltb_lt; lia).
  rewrite Hcopy in Hpath.
  assert (buffer ++ [normalized] <> []) as Hne by (destruct buffer; discriminate).
  specialize (Hpath Hne).
  destruct (_process_batch (buffer ++ [normalized]) is_update (count_processed st))
    as [[ [] | e] st']; cbn in Hpath |- *; exists 1%nat; exact Hpath.
Qed.

Lemma full_record_copies record buffer st :
  copies st (snd (snd (full_record batch_size max_errors record buffer st))).
Proof.
  unfold full_record.
  pose proof (buffer_record_copies false record buffer st) as H.
  destruct (buffer_record batch_size false record buffer st) as [[ [] | e] [buffer' st']];
    exact H.
Qed.

Lemma full_page_copies api_batch : forall buffer st,
  copies st (snd (full_page batch_size max_errors api_batch buffer st)).
Proof.
  induction api_batch as [ | record rest IH]; intros buffer st; cbn [full_page].
  - now apply copies_refl.
  - pose proof (full_record_copies record buffer st) as H.
    destruct (full_record batch_size max_errors record buffer st)
      as [[ | ] [buffer' st']]; [exact H | ].
    eapply copies_trans; [exact H | apply IH].
Qed.

Lemma full_pages_copies pages : forall buffer st,
  copies st (snd (snd (full_pages batch_size max_errors pages buffer st))).
Proof.
  induction pages as [ | api_batch rest IH]; intros buffer st; cbn [full_pages].
  - now apply copies_refl.
  - pose proof (full_page_copies api_batch buffer
                  (with_stats (add_fetched (Z.of_nat (List.length api_batch))) st)) as H.
    destruct (full_page _ _ _ _ _) as [buffer' st'].
    destruct (max_errors <=? total_errors (stats st')); [exact H | ].
    eapply copies_trans; [exact H | apply IH].
Qed.

Lemma incremental_page_copies api_batch : forall buffer st,
  copies st (snd (incremental_page batch_size api_batch buffer st)).
Proof.
  induction api_batch as [ | record rest IH]; intros buffer st; cbn [incremental_page].
  - now apply copies_refl.
  - unfold incremental_record.
    pose proof (buffer_record_copies true record buffer st) as H.
    destruct (buffer_record batch_size true record buffer st)
      as [[ [] | e] [buffer' st']].
    + eapply copies_trans; [exact H | apply IH].
    + eapply copies_trans; [exact H | ].
      eapply copies_trans; [ | apply IH]. now apply copies_refl.
Qed.

Lemma incremental_pages_copies pages : forall buffer st,
  copies st (snd (incremental_pages batch_size pages buffer st)).
Proof.
  induction pages as [ | api_batch rest IH]; intros buffer st; cbn [incremental_pages].
  - now apply copies_refl.
  - pose proof (incremental_page_copies api_batch buffer
                  (with_stats (add_fetched (Z.of_nat (List.length api_batch))) st)) as H.
    destruct (incremental_page _ _ _ _) as [buffer' st'].
    eapply copies_trans; [exact H | apply IH].
Qed.

(** The write of the rest after the loop adds one path at most. *)
Lemma flush_path buffer is_update st :
  exists tail,
    paths (snd (match buffer with
                | [] => (Ok tt, st)
                | _ => _process_batch buffer is_update st
                end)) = paths st ++ tail /\
    (List.length tail <= 1)%nat.
Proof.
  destruct buffer as [ | n buffer'].
  - exists []. cbn. split; [now rewrite List.app_nil_r | lia].
  - eexists. split; [apply process_batch_path; discriminate | cbn; lia].
Qed.

End RunPaths.

(** X24.  With a batch size above 100, as in the constructor's default of
    1000 and in the scheduled runs (1000 for the daily refresh, 500 for the
    incremental update), every write a run makes when its buffer fills is
    a bulk append, whatever the store and the pages; only the write of
    the rest after the loop can be an insert-or-update. *)
Theorem large_batches_are_always_appended
        {D : Store.Database} (batch_size max_errors : Z)
        (pages : list (list Json.RawRecord)) (d : Store.db) :
  100 < batch_size ->
  (exists k tail,
      IngestionPipeline.paths
        (IngestionPipeline.final
           (IngestionPipeline.run_full_ingestion batch_size max_errors pages d)) =
      repeat IngestionPipeline.Copy k ++ tail /\ (List.length tail <= 1)%nat) /\
  (exists k tail,
      IngestionPipeline.paths
        (IngestionPipeline.final
           (IngestionPipeline.run_incremental_update batch_size pages d)) =
      repeat IngestionPipeline.Copy k ++ tail /\ (List.length tail <= 1)%nat).
Proof.
  intros Hlarge. split.
  - unfold IngestionPipeline.run_full_ingestion.
    destruct (full_pages_copies batch_size max_errors Hlarge pages []
                (IngestionPipeline.mkState IngestionPipeline.new_stats d [] 0))
      as [k Hk].
    destruct (IngestionPipeline.full_pages batch_size max_errors pages []
                (IngestionPipeline.mkState IngestionPipeline.new_stats d [] 0))
      as [stopped [buffer st]].
    cbn [snd IngestionPipeline.paths app] in Hk.
    destruct (flush_path buffer false st) as [tail [Htail Hlen]].
    exists k, tail. split; [ | exact Hlen].
    unfold IngestionPipeline.finish. rewrite <- Hk.
    destruct buffer as [ | n buffer']; [exact Htail | ].
    destruct (IngestionPipeline._process_batch (n :: buffer') false st)
      as [[ [] | e] st']; exact Htail.
  - unfold IngestionPipeline.run_incremental_update.
    destruct (incremental_pages_copies batch_size Hlarge pages []
                (IngestionPipeline.mkState IngestionPipeline.new_stats d [] 0))
      as [k Hk].
    destruct (IngestionPipeline.incremental_pages batch_size pages []
                (IngestionPipeline.mkState IngestionPipeline.new_stats d [] 0))
      as [buffer st].
    cbn [snd IngestionPipeline.paths app] in Hk.
    destruct (flush_path buffer true st) as [tail [Htail Hlen]].
    exists k, tail. split; [ | exact Hlen]. rewrite <- Hk.
    destruct buffer as [ | n buffer']; [exact Htail | ].
    destruct (IngestionPipeline._process_batch (n :: buffer') true st)
      as [[ [] | e] st']; exact Htail.
Qed.

(** The incremental update of the scheduler, with its batch size of 500,
    on an empty store and a page of one record: the only write is the one
    of the rest. *)
Lemma large_batches_are_always_appended_witness :
  (exists k tail,
      IngestionPipeline.paths
        (IngestionPipeline.final
           (IngestionPipeline.run_full_ingestion (D := Postgres.postgres) 500 100
              [[carrier 1]] ([] : Postgres.table))) =
      repeat IngestionPipeline.Copy k ++ tail /\ (List.length tail <= 1)%nat) /\
  (exists k tail,
      IngestionPipeline.paths
        (IngestionPipeline.final
           (IngestionPipeline.run_incremental_update (D := Postgres.postgres) 500
              [[carrier 1]] ([] : Postgres.table))) =
      repeat IngestionPipeline.Copy k ++ tail /\ (List.length tail <= 1)%nat).
Proof.
  apply (large_batches_are_always_appended (D := Postgres.postgres) 500 100
           [[carrier 1]] ([] : Postgres.table)).
  reflexivity.
Defined.
